(** * image-service: the API-key guard and the image store

    A shallow embedding of [src/auth/api-key.guard.ts],
    [src/image/image.service.ts] and the image controller, with the
    document store, the file system and the Node runtime made explicit.

    - The two Mongo collections are lists in insertion order, so that
      [findOne] and [updateOne] pick the first matching document.
    - The disk is a finite map from paths to file contents together with
      a set of directories.
    - Handlers are computations in a state-and-exception monad: a thrown
      exception keeps the side effects performed before the [throw]. *)

From Stdlib Require Import Ascii.
From stdpp Require Import base numbers option list strings gmap sorting pretty.

Local Open Scope Z_scope.

(** ** Data model *)

(** Modelled from the spec: [IMAGE_STATUS] is declared in the [imagelib]
    package, which is not part of the sources; the spec gives the
    lifecycle status as "active | deleted". *)
Inductive IMAGE_STATUS := ACTIVE | DELETED.

#[global] Instance IMAGE_STATUS_eq_dec : EqDecision IMAGE_STATUS.
Proof. solve_decision. Defined.

(** [IImage] (declared in [imagelib]): the fields the service writes in
    [upload], plus the [createdAt] timestamp that [list] sorts on. *)
Record IImage := {
  ImageID : string;
  AppID : string;
  FileName : string;
  OriginalFileName : string;
  MimeType : string;
  Size : Z;
  Tags : list string;
  Description : string;
  Alt : string;
  Status : IMAGE_STATUS;
  UploadedBy : string;
  createdAt : Z
}.

(** [IApiKey] (declared in [imagelib]): the fields the guard, the
    controller and the key scripts read. [Key] is the hex digest. *)
Record IApiKey := {
  ApiKeyID : Z;
  AppName : string;
  Key : string;
  Permissions : Z;
  Active : bool
}.

(** [Express.Multer.File], memory storage. *)
Record MulterFile := {
  originalname : string;
  mimetype : string;
  size : Z;
  buffer : list Byte.byte
}.

(** The optional metadata of [upload] and [updateMetadata]; [None] is
    JavaScript's [undefined]. *)
Record Metadata := {
  tags : option (list string);
  description : option string;
  alt : option string
}.

(** The [options] argument of [list]; a number that is [undefined] or
    [NaN] is [None] (both are falsy). *)
Record ListOptions := {
  opt_page : option Z;
  opt_limit : option Z;
  opt_tags : option (list string);
  opt_search : option string
}.

(** ** Exceptions *)

(** The exceptions the sources throw, the one the framework's upload
    interceptor can raise, and [InternalError] for an error raised by a
    collaborator (Mongo, [fs], [JSON.parse]). *)
Inductive Exception :=
| BadRequestException (message : string)
| UnauthorizedException (message : string)
| NotFoundException (message : string)
| PayloadTooLargeException (message : string)
| InternalError (message : string).

(** The error kinds of the specification (section 7). *)
Inductive ErrorKind := Unauthenticated | Forbidden | InvalidInput | NotFound.

(** HTTP status of an exception: 400, 401, 404, 413, and 500
    otherwise. *)
Definition status_code (e : Exception) : Z :=
  match e with
  | BadRequestException _ => 400
  | UnauthorizedException _ => 401
  | NotFoundException _ => 404
  | PayloadTooLargeException _ => 413
  | InternalError _ => 500
  end.

(** The error kind a caller observes, by status: 401 is [Unauthenticated],
    403 is [Forbidden], 400 is [InvalidInput], 404 is [NotFound]. *)
Definition error_kind (e : Exception) : option ErrorKind :=
  let c := status_code e in
  if decide (c = 401) then Some Unauthenticated
  else if decide (c = 403) then Some Forbidden
  else if decide (c = 400) then Some InvalidInput
  else if decide (c = 404) then Some NotFound
  else None.

(** ** The world: collections, disk, and the log of writes *)

Record FS := {
  dirs : gset string;
  files : gmap string (list Byte.byte)
}.

(** Every mutation of the disk or of the image collection, in the order
    performed. Reads are not logged. *)
Inductive Effect :=
| FsMkdir (path : string)
| FsWrite (path : string)
| FsRm (path : string)
| DbInsert (imageID : string)
| DbUpdate (imageID : string).

Record World := {
  images : list IImage;
  apiKeys : list IApiKey;
  disk : FS;
  effects : list Effect
}.

Definition set_images (f : list IImage → list IImage) (w : World) : World :=
  {| images := f (images w); apiKeys := apiKeys w; disk := disk w;
     effects := effects w |}.

Definition set_disk (f : FS → FS) (w : World) : World :=
  {| images := images w; apiKeys := apiKeys w; disk := f (disk w);
     effects := effects w |}.

Definition log (e : Effect) (w : World) : World :=
  {| images := images w; apiKeys := apiKeys w; disk := disk w;
     effects := effects w ++ [e] |}.

(** ** The handler monad *)

Inductive Result (A : Type) :=
| Threw (e : Exception)
| Returned (a : A).
Arguments Threw {A} e.
Arguments Returned {A} a.

Definition M (A : Type) : Type := World → Result A * World.

Definition ret {A} (a : A) : M A := λ w, (Returned a, w).
Definition throw {A} (e : Exception) : M A := λ w, (Threw e, w).
Definition bind {A B} (m : M A) (k : A → M B) : M B :=
  λ w, match m w with
       | (Returned a, w') => k a w'
       | (Threw e, w') => (Threw e, w')
       end.
Definition get_world : M World := λ w, (Returned w, w).
Definition modify (f : World → World) : M unit := λ w, (Returned tt, f w).

#[global] Instance M_ret : MRet M := @ret.
#[global] Instance M_bind : MBind M := λ A B k m, bind m k.

(** ** The Node runtime and the libraries the sources call

    None of these is code of the repository; the development is
    parametric in them. *)
Class Runtime := {
  (** [process.env.IMAGE_DIR] *)
  env_IMAGE_DIR : option string;
  (** [path.resolve], [path.join], [path.extname] *)
  path_resolve : string → string;
  path_join : string → string → string;
  path_extname : string → string;
  (** the directory in which [fs] looks up the last component of a
      path (what [path.dirname] computes) *)
  path_dirname : string → string;
  (** [crypto.createHash('sha256').update(key).digest('hex')] *)
  sha256_hex : string → string;
  (** Mongo's [{ $regex: pattern, $options: 'i' }] on a string field *)
  regex_test_i : string → string → bool;
  (** whether the server can compile a [$regex] pattern; it rejects a
      query that carries one it cannot *)
  regex_valid : string → bool;
  (** [JSON.parse] of the [tags] form field; [None] when it throws *)
  JSON_parse : string → option (list string);
  (** [parseInt]; [None] is [NaN] *)
  parseInt : string → option Z;
  (** [API_KEY_PERMISSIONS] of [imagelib] *)
  PERM_READ : Z;
  PERM_WRITE : Z;
  PERM_DELETE : Z;
  PERM_ADMIN : Z;
  (** what the [FileInterceptor] raises when the file part reaches
      [limits.fileSize] *)
  file_too_large : Exception
}.

(** JavaScript truthiness of an optional string and of an optional
    number: [undefined], [''], [0] and [NaN] are falsy. *)
Definition truthy_string (s : option string) : bool :=
  match s with
  | Some s => negb (bool_decide (s = EmptyString))
  | None => false
  end.

Definition truthy_number (n : option Z) : bool :=
  match n with
  | Some n => negb (bool_decide (n = 0))
  | None => false
  end.

(** [a || b] on strings and on numbers. *)
Definition or_string (a : option string) (b : string) : string :=
  match a with
  | Some s => if bool_decide (s = EmptyString) then b else s
  | None => b
  end.

Definition or_number (a : option Z) (b : Z) : Z :=
  match a with
  | Some n => if bool_decide (n = 0) then b else n
  | None => b
  end.

(** ** [src/auth/api-key.guard.ts] *)

(** Modelled from the spec: [hasApiPermission] is exported by [imagelib],
    which is not part of the sources. The spec (4.1) has authorization
    fail when "the bitwise AND of the record's permission mask and
    requiredPermission is zero". Masks are small non-negative integers,
    on which JavaScript's 32-bit [&] is [Z.land]. *)
Definition hasApiPermission (permissions required : Z) : bool :=
  negb (bool_decide (Z.land permissions required = 0)).

(** [ApiKeyModel.findOne({ Key: hashedKey, Active: true })] *)
Definition ApiKeyModel_findOne (hashedKey : string) (keys : list IApiKey)
  : option IApiKey :=
  List.find (λ k, bool_decide (Key k = hashedKey) && Active k) keys.

Section Guard.
Context `{Runtime}.

Definition hashKey (key : string) : string := sha256_hex key.

(** Lines 39-49 of [canActivate]: the permission check on the record
    found. [requiredPermission] is [None] when the handler carries no
    [@RequirePermission] metadata. *)
Definition canActivate_permission (keyRecord : IApiKey)
    (requiredPermission : option Z) : M IApiKey :=
  if truthy_number requiredPermission
     && negb (hasApiPermission (Permissions keyRecord)
                (default 0 requiredPermission))
  then throw (UnauthorizedException "Insufficient permissions")
  else ret keyRecord.

(** [canActivate]: returns the record it stores in [request.apiKey]. *)
Definition canActivate (x_api_key : option string)
    (requiredPermission : option Z) : M IApiKey :=
  if negb (truthy_string x_api_key)
  then throw (UnauthorizedException "Missing X-API-Key header")
  else
    let hashedKey := hashKey (default EmptyString x_api_key) in
    w ← get_world;
    match ApiKeyModel_findOne hashedKey (apiKeys w) with
    | None => throw (UnauthorizedException "Invalid or inactive API key")
    | Some keyRecord => canActivate_permission keyRecord requiredPermission
    end.
End Guard.

(** ** The document store: [ImageModel] *)

(** The filter [{ ImageID: imageID }]. *)
Definition has_id (imageID : string) (d : IImage) : bool :=
  bool_decide (ImageID d = imageID).

(** [findOne(filter)]: the first document, in insertion order, that
    matches; [None] is [null]. *)
Definition ImageModel_findOne (filter : IImage → bool) : M (option IImage) :=
  w ← get_world; mret (List.find filter (images w)).

(** [$set] applied to the first document that matches. *)
Fixpoint update_first (filter : IImage → bool) (set : IImage → IImage)
    (docs : list IImage) : list IImage :=
  match docs with
  | [] => []
  | d :: docs' =>
      if filter d then set d :: docs' else d :: update_first filter set docs'
  end.

(** [updateOne({ ImageID: imageID }, { $set: ... })] *)
Definition ImageModel_updateOne (imageID : string) (set : IImage → IImage)
  : M unit :=
  modify (λ w, log (DbUpdate imageID)
    (set_images
       (update_first (has_id imageID) set) w)).

(** The nondeterministic inputs of one request: the value of
    [crypto.randomUUID()], the clock that stamps [createdAt], whether
    [image.save()] resolves, and the order in which a query of this
    request happens to meet the documents (a document of lower rank is
    met first). *)
Record Oracle := {
  randomUUID : string;
  now : Z;
  save_ok : bool;
  tie_rank : IImage → nat
}.

(** [image.save()]: appends the document, or rejects. *)
Definition ImageModel_save (o : Oracle) (image : IImage) : M unit :=
  if save_ok o
  then modify (λ w, log (DbInsert (ImageID image))
                      (set_images (λ docs, docs ++ [image]) w))
  else throw (InternalError "save failed").

(** [$set] payloads. *)
Definition set_Status (s : IMAGE_STATUS) (d : IImage) : IImage :=
  {| ImageID := ImageID d; AppID := AppID d; FileName := FileName d;
     OriginalFileName := OriginalFileName d; MimeType := MimeType d;
     Size := Size d; Tags := Tags d; Description := Description d;
     Alt := Alt d; Status := s; UploadedBy := UploadedBy d;
     createdAt := createdAt d |}.

(** [setFields] of [updateMetadata]: a key is present only when the
    update supplies it. *)
Definition setFields (updates : Metadata) (d : IImage) : IImage :=
  {| ImageID := ImageID d; AppID := AppID d; FileName := FileName d;
     OriginalFileName := OriginalFileName d; MimeType := MimeType d;
     Size := Size d;
     Tags := match tags updates with Some t => t | None => Tags d end;
     Description :=
       match description updates with Some s => s | None => Description d end;
     Alt := match alt updates with Some s => s | None => Alt d end;
     Status := Status d; UploadedBy := UploadedBy d;
     createdAt := createdAt d |}.

(** ** The file system: the four [fs] calls of the service *)

Definition existsSync (path : string) (d : FS) : bool :=
  bool_decide (path ∈ dirs d) || bool_decide (is_Some (files d !! path)).

(** [fs.mkdirSync(dir, { recursive: true })], called on a path that does
    not exist. *)
Definition mkdirSync (path : string) : M unit :=
  modify (λ w, log (FsMkdir path)
    (set_disk (λ d, {| dirs := {[ path ]} ∪ dirs d; files := files d |}) w)).

(** [fs.writeFileSync(path, data)]: creates or replaces the file; throws
    on a directory. *)
Definition writeFileSync (path : string) (data : list Byte.byte) : M unit :=
  w ← get_world;
  if bool_decide (path ∈ dirs (disk w))
  then throw (InternalError "EISDIR")
  else modify (λ w, log (FsWrite path)
    (set_disk (λ d, {| dirs := dirs d; files := <[path := data]> (files d) |})
       w)).

(** [fs.rmSync(path)]: removes the file; throws on a directory and on a
    missing path. *)
Definition rmSync (path : string) : M unit :=
  w ← get_world;
  if bool_decide (is_Some (files (disk w) !! path))
  then modify (λ w, log (FsRm path)
    (set_disk (λ d, {| dirs := dirs d; files := delete path (files d) |}) w))
  else throw (InternalError "rmSync failed").

(** Modelled from the spec: [MIME_TYPES] is exported by [imagelib], which
    is not part of the sources. The spec (4.2) fixes the allow-list as
    PNG, JPEG, WebP, GIF, SVG; the README spells the five types. *)
Definition MIME_TYPES : list string :=
  ["image/png"; "image/jpeg"; "image/webp"; "image/gif"; "image/svg+xml"]%string.

(** ** Queries of [list] *)

(** [{ createdAt: -1 }]: newest first. *)
Definition newest_first (a b : IImage) : Prop := createdAt b ≤ createdAt a.

#[global] Instance newest_first_dec : RelDecision newest_first.
Proof. intros a b. unfold newest_first. apply _. Defined.

(** The order in which the query of [o] meets the documents. *)
Definition met_before (o : Oracle) (a b : IImage) : Prop :=
  (tie_rank o a ≤ tie_rank o b)%nat.

#[global] Instance met_before_dec o : RelDecision (met_before o).
Proof. intros a b. unfold met_before. apply _. Defined.

(** [find(filter).sort({ createdAt: -1 })] on the matching documents:
    newest first. The server fixes no order among documents with the
    same [createdAt]: they come in the order in which this query meets
    them, which may differ from one query to the next. *)
Definition sort_createdAt (o : Oracle) (matching : list IImage)
  : list IImage :=
  merge_sort newest_first (merge_sort (met_before o) matching).

(** [cursor.skip(n)]: the server rejects a negative [skip]. *)
Definition cursor_skip (n : Z) (docs : list IImage) : M (list IImage) :=
  if bool_decide (n < 0)
  then throw (InternalError "skip must be non-negative")
  else mret (drop (Z.to_nat n) docs).

(** [cursor.limit(n)]: [0] means no limit, a negative [n] counts as
    [-n]. *)
Definition cursor_limit (n : Z) (docs : list IImage) : list IImage :=
  if bool_decide (n = 0) then docs else take (Z.to_nat (Z.abs n)) docs.

(** ** [src/image/image.service.ts] *)

(** A value of the expression [map[mime] || '.bin'] in
    [getExtFromMime]: a string, or the member of [Object.prototype]
    that the key names. *)
Inductive ExtValue :=
| ExtString (ext : string)
| ExtInherited (key : string).

(** The string keys that every object literal inherits from
    [Object.prototype]. *)
Definition Object_prototype_keys : list string :=
  ["constructor"; "__defineGetter__"; "__defineSetter__"; "hasOwnProperty";
   "__lookupGetter__"; "__lookupSetter__"; "isPrototypeOf";
   "propertyIsEnumerable"; "toString"; "valueOf"; "__proto__";
   "toLocaleString"]%string.

(** How a template literal renders such a value: a native function
    prints its name, and [__proto__] reads the prototype object. *)
Definition template (v : ExtValue) : string :=
  match v with
  | ExtString ext => ext
  | ExtInherited key =>
      if bool_decide (key = "__proto__") then "[object Object]"
      else if bool_decide (key = "constructor")
           then "function Object() { [native code] }"
           else "function " +:+ key +:+ "() { [native code] }"
  end%string.

Module ImageService.
Section Service.
Context `{Runtime}.

Definition getUploadDir : string :=
  path_resolve (or_string env_IMAGE_DIR "./uploads").

Definition getAppDir (appID : string) : M string :=
  let dir := path_join getUploadDir appID in
  w ← get_world;
  if negb (existsSync dir (disk w))
  then mkdirSync dir;; mret dir
  else mret dir.

(** [map[mime] || '.bin']: the object literal [map] has five own keys,
    and it inherits the members of [Object.prototype], which are
    functions or, for [__proto__], the prototype itself, and so are
    truthy; any other key reads [undefined] and gives ['.bin']. *)
Definition getExtFromMime (mime : string) : ExtValue :=
  if bool_decide (mime = "image/png") then ExtString ".png"
  else if bool_decide (mime = "image/jpeg") then ExtString ".jpg"
  else if bool_decide (mime = "image/webp") then ExtString ".webp"
  else if bool_decide (mime = "image/gif") then ExtString ".gif"
  else if bool_decide (mime = "image/svg+xml") then ExtString ".svg"
  else if bool_decide (mime ∈ Object_prototype_keys) then ExtInherited mime
  else ExtString ".bin".

(** [path.extname(file.originalname) || this.getExtFromMime(file.mimetype)] *)
Definition ext (file : MulterFile) : ExtValue :=
  if bool_decide (path_extname (originalname file) = EmptyString)
  then getExtFromMime (mimetype file)
  else ExtString (path_extname (originalname file)).

(** [ext] as the template literal of [fileName] renders it. *)
Definition upload_ext (file : MulterFile) : string := template (ext file).

(** The document [new ImageModel({ ... })] of [upload]; [save] stamps
    [createdAt]. *)
Definition new_ImageModel (o : Oracle) (imageID appID fileName : string)
    (file : MulterFile) (metadata : Metadata) (uploadedBy : string)
  : IImage :=
  {| ImageID := imageID;
     AppID := appID;
     FileName := fileName;
     OriginalFileName := originalname file;
     MimeType := mimetype file;
     Size := size file;
     Tags := default [] (tags metadata);
     Description := or_string (description metadata) EmptyString;
     Alt := or_string (alt metadata) EmptyString;
     Status := ACTIVE;
     UploadedBy := uploadedBy;
     createdAt := now o |}.

Definition upload (o : Oracle) (appID uploadedBy : string)
    (file : option MulterFile) (metadata : Metadata) : M IImage :=
  match file with
  | None => throw (BadRequestException "No file provided")
  | Some file =>
      if negb (bool_decide (mimetype file ∈ MIME_TYPES))
      then throw (BadRequestException
             ("Unsupported file type: " +:+ mimetype file +:+
              ". Supported: " +:+ String.concat ", " MIME_TYPES))
      else
        let imageID := randomUUID o in
        let ext := upload_ext file in
        let fileName := imageID +:+ ext in
        dir ← getAppDir appID;
        let filePath := path_join dir fileName in
        writeFileSync filePath (buffer file);;
        let image :=
          new_ImageModel o imageID appID fileName file metadata uploadedBy in
        ImageModel_save o image;;
        mret image
  end.

Definition getByID (imageID : string) : M IImage :=
  image ← ImageModel_findOne
    (λ d, bool_decide (ImageID d = imageID)
          && bool_decide (Status d = ACTIVE));
  match image with
  | None => throw (NotFoundException "Image not found")
  | Some image => mret image
  end.

Definition getFilePath (imageID : string) : M string :=
  image ← getByID imageID;
  dir ← getAppDir (AppID image);
  let filePath := path_join dir (FileName image) in
  w ← get_world;
  if negb (existsSync filePath (disk w))
  then throw (NotFoundException "Image file not found on disk")
  else mret filePath.

(** The [filter] object built by [list]. *)
Definition list_filter (appID : string) (options : ListOptions)
    (d : IImage) : bool :=
  bool_decide (AppID d = appID)
  && bool_decide (Status d = ACTIVE)
  && match opt_tags options with
     | Some (t :: ts) =>
         bool_decide (Exists (λ x, x ∈ t :: ts) (Tags d))
     | _ => true
     end
  && (if truthy_string (opt_search options)
      then let search := default EmptyString (opt_search options) in
           regex_test_i search (Description d)
           || regex_test_i search (OriginalFileName d)
           || regex_test_i search (Alt d)
      else true).

Definition list_page (options : ListOptions) : Z :=
  or_number (opt_page options) 1.
Definition list_limit (options : ListOptions) : Z :=
  Z.min (or_number (opt_limit options) 20) 100.
Definition list_skip (options : ListOptions) : Z :=
  (list_page options - 1) * list_limit options.

(** Both queries of [Promise.all] carry the filter: the server rejects
    them when it cannot compile the pattern of [$regex]. When the skip
    is negative as well, which of the two rejections the caller sees
    is not fixed; the pattern is looked at first here. *)
Definition check_regex (options : ListOptions) : M unit :=
  if truthy_string (opt_search options)
     && negb (regex_valid (default EmptyString (opt_search options)))
  then throw (InternalError "Regular expression is invalid")
  else mret tt.

Definition list (o : Oracle) (appID : string) (options : ListOptions)
  : M (Datatypes.list IImage * Z) :=
  let page := list_page options in
  let limit := list_limit options in
  let skip := list_skip options in
  let filter := list_filter appID options in
  w ← get_world;
  check_regex options;;
  let matching := List.filter filter (images w) in
  images ← cursor_skip skip (sort_createdAt o matching);
  let total := Z.of_nat (length matching) in
  mret (cursor_limit limit images, total).

Definition updateMetadata (imageID : string) (updates : Metadata)
  : M (option IImage) :=
  image ← getByID imageID;
  ImageModel_updateOne imageID (setFields updates);;
  ImageModel_findOne (has_id imageID).

Definition delete (imageID : string) : M unit :=
  image ← getByID imageID;
  ImageModel_updateOne imageID (set_Status DELETED);;
  dir ← getAppDir (AppID image);
  let filePath := path_join dir (FileName image) in
  w ← get_world;
  if existsSync filePath (disk w)
  then rmSync filePath
  else mret tt.
End Service.
End ImageService.

(** ** The image controller *)

(** [s.split(sep)] for a one-character separator. *)
Fixpoint split_on (sep : ascii) (s : string) : list string :=
  match s with
  | EmptyString => [EmptyString]
  | String c s' =>
      if bool_decide (c = sep) then EmptyString :: split_on sep s'
      else match split_on sep s' with
           | x :: xs => String c x :: xs
           | [] => [String c EmptyString]
           end
  end.

(** A request to one of the six routes, with its parameters, query and
    body as the decorators extract them ([None] is [undefined]). *)
Inductive Request :=
| POST_upload (file : option MulterFile) (tags description alt : option string)
| GET_image (imageID : string)
| GET_file (imageID : string)
| GET_list (page limit tags search : option string)
| PATCH_image (imageID : string) (body : Metadata)
| DELETE_image (imageID : string).

Inductive Response :=
| ImageJson (image : IImage)
| UpdatedJson (image : option IImage)
| FileSent (contentType filePath : string)
| ListJson (images : list IImage) (total : Z)
| SuccessJson.

Module ImageController.
Section Controller.
Context `{Runtime}.

(** [limits: { fileSize: 10 * 1024 * 1024 }] *)
Definition fileSize : Z := 10 * 1024 * 1024.

(** [FileInterceptor('file', { limits })]: the parser stops a file
    part once [fileSize] bytes of it are read, so a part of [fileSize]
    bytes or more aborts the request before the handler runs. *)
Definition FileInterceptor (file : option MulterFile)
  : M (option MulterFile) :=
  match file with
  | Some f =>
      if bool_decide (fileSize ≤ size f) then throw file_too_large
      else mret (Some f)
  | None => mret None
  end.

(** The [@RequirePermission] metadata of each handler. *)
Definition requiredPermission (r : Request) : option Z :=
  match r with
  | POST_upload _ _ _ _ => Some PERM_WRITE
  | GET_image _ => Some PERM_READ
  | GET_file _ => Some PERM_READ
  | GET_list _ _ _ _ => Some PERM_READ
  | PATCH_image _ _ => Some PERM_WRITE
  | DELETE_image _ => Some PERM_DELETE
  end.

Definition upload (o : Oracle) (apiKey : IApiKey)
    (file : option MulterFile) (tags description alt : option string)
  : M IImage :=
  parsedTags ←
    (if truthy_string tags
     then match JSON_parse (default EmptyString tags) with
          | Some l => mret l
          | None => throw (InternalError "SyntaxError")
          end
     else mret []);
  ImageService.upload o (AppName apiKey) (AppName apiKey) file
    {| tags := Some parsedTags;
       description := description;
       alt := alt |}.

Definition getByID (imageID : string) : M IImage :=
  ImageService.getByID imageID.

Definition getFile (imageID : string) : M Response :=
  filePath ← ImageService.getFilePath imageID;
  image ← ImageService.getByID imageID;
  mret (FileSent (MimeType image) filePath).

Definition list (o : Oracle) (apiKey : IApiKey)
    (page limit tags search : option string)
  : M (Datatypes.list IImage * Z) :=
  ImageService.list o (AppName apiKey)
    {| opt_page :=
         if truthy_string page then parseInt (default EmptyString page)
         else Some 1;
       opt_limit :=
         if truthy_string limit then parseInt (default EmptyString limit)
         else Some 20;
       opt_tags :=
         if truthy_string tags
         then Some (split_on ","%char (default EmptyString tags))
         else None;
       opt_search := search |}.

Definition update (imageID : string) (body : Metadata)
  : M (option IImage) :=
  ImageService.updateMetadata imageID body.

Definition delete (imageID : string) : M Response :=
  ImageService.delete imageID;;
  mret SuccessJson.

(** One request through the pipeline: the class-level
    [@UseGuards(ApiKeyGuard)] runs first on every route, then the
    route's interceptor, then its handler. *)
Definition handle (o : Oracle) (x_api_key : option string) (r : Request)
  : M Response :=
  apiKey ← canActivate x_api_key (requiredPermission r);
  match r with
  | POST_upload file tags description alt =>
      file ← FileInterceptor file;
      image ← upload o apiKey file tags description alt;
      mret (ImageJson image)
  | GET_image imageID =>
      image ← getByID imageID; mret (ImageJson image)
  | GET_file imageID => getFile imageID
  | GET_list page limit tags search =>
      '(images, total) ← list o apiKey page limit tags search;
      mret (ListJson images total)
  | PATCH_image imageID body =>
      image ← update imageID body; mret (UpdatedJson image)
  | DELETE_image imageID => delete imageID
  end.
End Controller.
End ImageController.

(** ** A sample runtime and sample worlds

    A POSIX-like instance of [Runtime], used to run the handlers on
    concrete requests. *)

Module Sample.
(** [path.resolve] with working directory [/srv]. *)
Definition resolve (p : string) : string :=
  match p with
  | String "/" _ => p
  | String "." (String "/" rest) => "/srv/" +:+ rest
  | _ => "/srv/" +:+ p
  end.

Definition join (a b : string) : string := a +:+ "/" +:+ b.

(** The suffix that starts at the last dot, if there is a dot. *)
Fixpoint last_dot (s : string) : option string :=
  match s with
  | EmptyString => None
  | String c s' =>
      match last_dot s' with
      | Some e => Some e
      | None => if bool_decide (c = "."%char) then Some s else None
      end
  end.

(** [path.extname] on a plain file name: a leading dot starts no
    extension. *)
Definition extname (name : string) : string :=
  match name with
  | EmptyString => EmptyString
  | String _ rest => default EmptyString (last_dot rest)
  end.

Fixpoint digits (acc : Z) (s : string) : option Z :=
  match s with
  | EmptyString => Some acc
  | String c s' =>
      let n := Z.of_N (N_of_ascii c) - 48 in
      if bool_decide (0 ≤ n ≤ 9) then digits (10 * acc + n) s' else None
  end.

Definition parse_int (s : string) : option Z :=
  match s with
  | EmptyString => None
  | _ => digits 0 s
  end.

Fixpoint is_prefix (p s : string) : bool :=
  match p, s with
  | EmptyString, _ => true
  | String a p', String b s' => bool_decide (a = b) && is_prefix p' s'
  | _, EmptyString => false
  end.

Fixpoint contains (p s : string) : bool :=
  is_prefix p s
  || match s with
     | EmptyString => false
     | String _ s' => contains p s'
     end.

(** The sample pattern language is the literal strings: a pattern with
    a parenthesis is rejected. *)
Definition literal (pattern : string) : bool :=
  negb (contains "(" pattern || contains ")" pattern).

(** [path.dirname] of an absolute path with at least two components:
    the part before the last slash. *)
Fixpoint dirname (p : string) : string :=
  match p with
  | EmptyString => EmptyString
  | String c p' =>
      if contains "/" p' then String c (dirname p') else EmptyString
  end.

#[export] Instance runtime : Runtime := {|
  env_IMAGE_DIR := None;
  path_resolve := resolve;
  path_join := join;
  path_extname := extname;
  path_dirname := dirname;
  sha256_hex := λ key, "sha256:" +:+ key;
  regex_test_i := contains;
  regex_valid := literal;
  JSON_parse := λ s, if bool_decide (s = "[]") then Some [] else None;
  parseInt := parse_int;
  PERM_READ := 1;
  PERM_WRITE := 2;
  PERM_DELETE := 4;
  PERM_ADMIN := 8;
  file_too_large := PayloadTooLargeException "File too large"
|}.

Definition empty_disk : FS := {| dirs := ∅; files := ∅ |}.

(** A read-only key and a read-write key of two tenants. *)
Definition reader : IApiKey :=
  {| ApiKeyID := 1; AppName := "gallery"; Key := "sha256:img_reader";
     Permissions := 1; Active := true |}.
Definition writer : IApiKey :=
  {| ApiKeyID := 2; AppName := "shop"; Key := "sha256:img_writer";
     Permissions := 7; Active := true |}.

Definition fresh : World :=
  {| images := []; apiKeys := [reader; writer]; disk := empty_disk;
     effects := [] |}.

Definition oracle (uuid : string) (t : Z) : Oracle :=
  {| randomUUID := uuid; now := t; save_ok := true; tie_rank := λ _, 0%nat |}.

Definition png (name : string) (bytes : list Byte.byte) : MulterFile :=
  {| originalname := name; mimetype := "image/png";
     size := Z.of_nat (length bytes); buffer := bytes |}.

Definition no_metadata : Metadata :=
  {| tags := None; description := None; alt := None |}.

(** The world after [shop] uploaded one two-byte PNG, and the record
    of that upload. *)
Definition logo : MulterFile := png "logo.png" [Byte.x89; Byte.x50].
Definition one_image : World :=
  (ImageService.upload (oracle "0a1b" 1000) "shop" "shop" (Some logo)
     no_metadata fresh).2.
Definition logo_image : IImage :=
  ImageService.new_ImageModel (oracle "0a1b" 1000) "0a1b" "shop" "0a1b.png"
    logo no_metadata "shop".
Definition describe (text : string) : Metadata :=
  {| tags := None; description := Some text; alt := None |}.

(** A second upload by [shop] into that world: the result with the
    world it leaves, and the record it returns. *)
Definition cat : MulterFile := png "cat.png" [Byte.x89].
Definition cat_upload : Result IImage * World :=
  ImageService.upload (oracle "f00d" 2000) "shop" "shop" (Some cat)
    no_metadata one_image.
Definition cat_image : IImage :=
  ImageService.new_ImageModel (oracle "f00d" 2000) "f00d" "shop" "f00d.png"
    cat no_metadata "shop".

(** Twenty-five active records of [shop], created one per tick, and
    the request for the second page of twenty. *)
Definition numbered (i : nat) : IImage :=
  {| ImageID := String (ascii_of_nat (65 + i)) EmptyString;
     AppID := "shop";
     FileName := String (ascii_of_nat (65 + i)) ".png";
     OriginalFileName := "photo.png";
     MimeType := "image/png";
     Size := 1;
     Tags := [];
     Description := EmptyString;
     Alt := EmptyString;
     Status := ACTIVE;
     UploadedBy := "shop";
     createdAt := Z.of_nat i |}.
Definition crowd : World :=
  {| images := numbered <$> seq 0 25; apiKeys := [reader; writer];
     disk := empty_disk; effects := [] |}.
Definition page_two : ListOptions :=
  {| opt_page := Some 2; opt_limit := Some 20; opt_tags := None;
     opt_search := None |}.

(** An oracle whose queries meet the documents of one tenant in the
    reverse of the alphabetical order of their identifiers. *)
Definition backwards : Oracle :=
  {| randomUUID := "beef"; now := 3000; save_ok := true;
     tie_rank := λ d, match ImageID d with
                      | String c _ => (255 - nat_of_ascii c)%nat
                      | EmptyString => 256%nat
                      end |}.

(** Two records created at the same instant, and pages of one. *)
Definition twin (id : string) : IImage :=
  {| ImageID := id; AppID := "shop"; FileName := id +:+ ".png";
     OriginalFileName := "twin.png"; MimeType := "image/png"; Size := 1;
     Tags := []; Description := EmptyString; Alt := EmptyString;
     Status := ACTIVE; UploadedBy := "shop"; createdAt := 7 |}.
Definition twins : World :=
  {| images := [twin "A"; twin "B"]; apiKeys := [reader; writer];
     disk := empty_disk; effects := [] |}.
Definition one_by_one : ListOptions :=
  {| opt_page := None; opt_limit := Some 1; opt_tags := None;
     opt_search := None |}.

(** A hundred and twenty such records, and three requests outside the
    domain of the specification: a page size of minus 101, a page
    number of minus 1, and a search pattern that does not compile. *)
Definition throng : World :=
  {| images := numbered <$> seq 0 120; apiKeys := [reader; writer];
     disk := empty_disk; effects := [] |}.
Definition minus_101 : ListOptions :=
  {| opt_page := None; opt_limit := Some (-101); opt_tags := None;
     opt_search := None |}.
Definition page_minus_one : ListOptions :=
  {| opt_page := Some (-1); opt_limit := None; opt_tags := None;
     opt_search := None |}.
Definition open_parenthesis : ListOptions :=
  {| opt_page := None; opt_limit := None; opt_tags := None;
     opt_search := Some "(" |}.

(** Three requests of [shop]: an upload, an update of the tags of the
    new record, and its deletion. *)
Definition session : list (Oracle * option string * Request) :=
  [(oracle "f00d" 2000, Some "img_writer",
    POST_upload (Some cat) None (Some "a cat") None);
   (oracle "f00e" 2001, Some "img_writer",
    PATCH_image "f00d"
      {| tags := Some ["pets"]; description := None; alt := None |});
   (oracle "f00f" 2002, Some "img_writer", DELETE_image "f00d")].

(** The same world after that image was deleted. *)
Definition one_deleted : World := (ImageService.delete "0a1b" one_image).2.
End Sample.

(** ** Notions used to state the properties *)

Section Notions.
Context `{Runtime}.

(** The directory of a tenant, as [getAppDir] computes it. *)
Definition app_dir (appID : string) : string :=
  path_join ImageService.getUploadDir appID.

(** The path at which [getFilePath] and [delete] look for the file of
    a record. *)
Definition file_path (d : IImage) : string :=
  path_join (app_dir (AppID d)) (FileName d).

(** The [fileName] and the [filePath] of [upload]. *)
Definition upload_fileName (o : Oracle) (f : MulterFile) : string :=
  randomUUID o +:+ ImageService.upload_ext f.
Definition upload_filePath (o : Oracle) (appID : string) (f : MulterFile)
  : string :=
  path_join (app_dir appID) (upload_fileName o f).

(** The filter of [getByID]. *)
Definition is_active (imageID : string) (d : IImage) : bool :=
  bool_decide (ImageID d = imageID) && bool_decide (Status d = ACTIVE).


(** Identifiers are unique in the collection (data model, section 3). *)
Definition unique_ids (w : World) : Prop :=
  NoDup (ImageID <$> images w).

(** The log entry of [getAppDir]: a [mkdir] when the directory is
    missing. *)
Definition mkdir_log (dir : string) (w : World) : list Effect :=
  if existsSync dir (disk w) then [] else [FsMkdir dir].

(** A sequence of HTTP requests, each with its oracle and its header. *)
Fixpoint serve (reqs : list (Oracle * option string * Request))
    (w : World) : World :=
  match reqs with
  | [] => w
  | (o, key, r) :: reqs' =>
      serve reqs' (ImageController.handle o key r w).2
  end.
End Notions.

(** ** The key-management scripts

    [src/scripts/revoke-api-key.ts], [src/scripts/update-api-key.ts] and
    the key-creation script run against the [ApiKeyModel] collection. A
    run takes [process.argv.slice(2)] and the collection, and ends in
    [process.exit(code)] after the lines it wrote to the console. *)

Record ScriptExit := {
  exit_code : Z;
  stdout : list string;
  stderr : list string
}.

(** [s.toLowerCase()] and [s.toUpperCase()] on the ASCII letters. The
    scripts use the result only to look a name up among ASCII keys, and
    no other character changes case into a letter of those keys. *)
Definition lower_ascii (c : ascii) : ascii :=
  let n := N_of_ascii c in
  if bool_decide (65 ≤ n ≤ 90)%N then ascii_of_N (n + 32) else c.

Definition upper_ascii (c : ascii) : ascii :=
  let n := N_of_ascii c in
  if bool_decide (97 ≤ n ≤ 122)%N then ascii_of_N (n - 32) else c.

Fixpoint toLowerCase (s : string) : string :=
  match s with
  | EmptyString => EmptyString
  | String c s' => String (lower_ascii c) (toLowerCase s')
  end.

Fixpoint toUpperCase (s : string) : string :=
  match s with
  | EmptyString => EmptyString
  | String c s' => String (upper_ascii c) (toUpperCase s')
  end.

(** The one-character string of a double quote. *)
Definition quote : string := String (ascii_of_nat 34) EmptyString.

(** [ApiKeyModel.updateOne(filter, { $set })]: the first key that
    matches is rewritten. *)
Fixpoint update_first_key (filter : IApiKey → bool) (set : IApiKey → IApiKey)
    (keys : list IApiKey) : list IApiKey :=
  match keys with
  | [] => []
  | k :: keys' =>
      if filter k then set k :: keys'
      else k :: update_first_key filter set keys'
  end.

(** [result.matchedCount] of that [updateOne]. *)
Definition matchedCount (filter : IApiKey → bool) (keys : list IApiKey) : Z :=
  if List.existsb filter keys then 1 else 0.

Definition has_ApiKeyID (apiKeyID : Z) (k : IApiKey) : bool :=
  bool_decide (ApiKeyID k = apiKeyID).

Definition set_Active (a : bool) (k : IApiKey) : IApiKey :=
  {| ApiKeyID := ApiKeyID k; AppName := AppName k; Key := Key k;
     Permissions := Permissions k; Active := a |}.

Definition set_Permissions (p : Z) (k : IApiKey) : IApiKey :=
  {| ApiKeyID := ApiKeyID k; AppName := AppName k; Key := Key k;
     Permissions := p; Active := Active k |}.

(** What reading a property of the object literal [PERMISSION_NAMES]
    gives: [undefined], the number of an own key, or a value inherited
    from [Object.prototype] (a function or an object). *)
Inductive Property :=
| Undefined
| Own (value : Z)
| Inherited.

Module PermissionNames.
Section Names.
Context `{Runtime}.

(** [Object.entries(PERMISSION_NAMES)], in insertion order. *)
Definition PERMISSION_NAMES : list (string * Z) :=
  [("read", PERM_READ); ("write", PERM_WRITE); ("delete", PERM_DELETE);
   ("admin", PERM_ADMIN)]%string.

(** [PERMISSION_NAMES[name]] for a lower-cased [name]: of the names
    [Object.prototype] defines, only [constructor] and [__proto__] are
    in lower case. *)
Definition get (name : string) : Property :=
  match List.find (λ e, bool_decide (e.1 = name)) PERMISSION_NAMES with
  | Some e => Own e.2
  | None =>
      if bool_decide (name ∈ ["constructor"; "__proto__"]%string)
      then Inherited
      else Undefined
  end.

(** The loop [for (const p of ...) { ... permissions |= val; }]: the
    first unknown name ends it with that name; an inherited value
    converts to 0 under [|=]. *)
Fixpoint parse (permissions : Z) (names : list string) : string + Z :=
  match names with
  | [] => inr permissions
  | p :: names' =>
      match get (toLowerCase p) with
      | Undefined => inl p
      | Own val => parse (Z.lor permissions val) names'
      | Inherited => parse permissions names'
      end
  end.

(** [permList]: the upper-cased names whose bit meets the mask. *)
Definition permList (permissions : Z) : list string :=
  (λ e, toUpperCase e.1)
    <$> List.filter (λ e, negb (bool_decide (Z.land permissions e.2 = 0)))
          PERMISSION_NAMES.

(** The two [console.error] lines for an unknown name. *)
Definition unknown_permission (p : string) : list string :=
  ["Unknown permission: " +:+ p;
   "Valid permissions: " +:+ String.concat ", " (PERMISSION_NAMES.*1)]%string.
End Names.
End PermissionNames.

Module RevokeApiKey.
Section Script.
Context `{Runtime}.

Definition printUsage : list string :=
  ["Usage: npx ts-node src/scripts/revoke-api-key.ts <apiKeyID>";
   EmptyString;
   "Examples:";
   "  npx ts-node src/scripts/revoke-api-key.ts 1000"]%string.

Definition main (args : list string) (keys : list IApiKey)
  : ScriptExit * list IApiKey :=
  match args with
  | [] => ({| exit_code := 1; stdout := printUsage; stderr := [] |}, keys)
  | arg :: _ =>
      match parseInt arg with
      | None =>
          ({| exit_code := 1; stdout := [];
              stderr := ["apiKeyID must be a number"%string] |}, keys)
      | Some apiKeyID =>
          let keys' :=
            update_first_key (has_ApiKeyID apiKeyID) (set_Active false) keys in
          if bool_decide (matchedCount (has_ApiKeyID apiKeyID) keys = 0)
          then ({| exit_code := 1; stdout := [];
                   stderr := ["API key " +:+ pretty apiKeyID
                              +:+ " not found."]%string |}, keys')
          else ({| exit_code := 0;
                   stdout := ["API key " +:+ pretty apiKeyID
                              +:+ " has been revoked."]%string;
                   stderr := [] |}, keys')
      end
  end.
End Script.
End RevokeApiKey.

Module UpdateApiKey.
Section Script.
Context `{Runtime}.

Definition printUsage : list string :=
  ["Usage: npx ts-node src/scripts/update-api-key.ts <apiKeyID> <permissions...>";
   EmptyString;
   "Permissions: read, write, delete, admin";
   EmptyString;
   "Examples:";
   "  npx ts-node src/scripts/update-api-key.ts 1000 read write";
   "  npx ts-node src/scripts/update-api-key.ts 1001 read write delete admin"
  ]%string.

Definition main (args : list string) (keys : list IApiKey)
  : ScriptExit * list IApiKey :=
  match args with
  | [] | [_] =>
      ({| exit_code := 1; stdout := printUsage; stderr := [] |}, keys)
  | arg :: names =>
      match parseInt arg with
      | None =>
          ({| exit_code := 1; stdout := [];
              stderr := ["apiKeyID must be a number"%string] |}, keys)
      | Some apiKeyID =>
          match PermissionNames.parse 0 names with
          | inl p =>
              ({| exit_code := 1; stdout := [];
                  stderr := PermissionNames.unknown_permission p |}, keys)
          | inr permissions =>
              let keys' :=
                update_first_key (has_ApiKeyID apiKeyID)
                  (set_Permissions permissions) keys in
              if bool_decide (matchedCount (has_ApiKeyID apiKeyID) keys = 0)
              then ({| exit_code := 1; stdout := [];
                       stderr := ["API key " +:+ pretty apiKeyID
                                  +:+ " not found."]%string |}, keys')
              else ({| exit_code := 0;
                       stdout :=
                         ["API key " +:+ pretty apiKeyID
                          +:+ " updated. New permissions: "
                          +:+ String.concat ", "
                                (PermissionNames.permList permissions)
                         ]%string;
                       stderr := [] |}, keys')
          end
      end
  end.
End Script.
End UpdateApiKey.

(** The inputs of one run of the key-creation script that do not come
    from its arguments: the hex of [crypto.randomBytes(32)] and the
    [ApiKeyID] the schema gives the new document. *)
Record KeyOracle := {
  randomBytes_hex : string;
  new_ApiKeyID : Z
}.

Module CreateApiKey.
Section Script.
Context `{Runtime}.

Definition printUsage : list string :=
  ["Usage: npx ts-node src/scripts/create-api-key.ts <appName> [permissions...]";
   EmptyString;
   "Permissions: read, write, delete, admin (default: read,write)";
   EmptyString;
   "Examples:";
   "  npx ts-node src/scripts/create-api-key.ts myapp";
   "  npx ts-node src/scripts/create-api-key.ts myapp read write delete";
   "  npx ts-node src/scripts/create-api-key.ts admin read write delete admin"
  ]%string.

(** [`img_${crypto.randomBytes(32).toString("hex")}`] *)
Definition rawKey (o : KeyOracle) : string := "img_" +:+ randomBytes_hex o.

Definition main (o : KeyOracle) (args : list string) (keys : list IApiKey)
  : ScriptExit * list IApiKey :=
  match args with
  | [] => ({| exit_code := 1; stdout := printUsage; stderr := [] |}, keys)
  | appName :: permArgs =>
      match (match permArgs with
             | [] => inr (Z.lor PERM_READ PERM_WRITE)
             | _ => PermissionNames.parse 0 permArgs
             end) with
      | inl p =>
          ({| exit_code := 1; stdout := [];
              stderr := PermissionNames.unknown_permission p |}, keys)
      | inr permissions =>
          match List.find
                  (λ k, bool_decide (AppName k = appName) && Active k) keys
          with
          | Some _ =>
              ({| exit_code := 1; stdout := [];
                  stderr := ["An active API key already exists for "
                             +:+ quote +:+ appName +:+ quote
                             +:+ ". Revoke it first."]%string |}, keys)
          | None =>
              let hashedKey := sha256_hex (rawKey o) in
              let apiKey :=
                {| ApiKeyID := new_ApiKeyID o; AppName := appName;
                   Key := hashedKey; Permissions := permissions;
                   Active := true |} in
              ({| exit_code := 0;
                  stdout :=
                    ["API key created for " +:+ quote +:+ appName +:+ quote;
                     "Permissions: "
                     +:+ String.concat ", "
                           (PermissionNames.permList permissions);
                     "Raw key (save this, it won't be shown again):"
                     +:+ String (ascii_of_nat 10) "  " +:+ rawKey o]%string;
                  stderr := [] |}, keys ++ [apiKey])
          end
      end
  end.
End Script.
End CreateApiKey.

(** ** [src/scripts/migrate-primordia-images.ts] *)

(** The [source] of a migrated file. *)
Inductive Source := player | character | orphan.

Record MigrationResult := {
  originalFilename : string;
  imageID : string;
  newFilename : string;
  source : Source;
  sourceID : option Z
}.

(** [fs.statSync(path).size]: throws when nothing is at the path; the
    size of a directory entry is immaterial, since the copy of a
    directory throws. *)
Definition statSync_size (path : string) : M Z :=
  w ← get_world;
  match files (disk w) !! path with
  | Some data => mret (Z.of_nat (length data))
  | None =>
      if bool_decide (path ∈ dirs (disk w)) then mret 0
      else throw (InternalError "ENOENT")
  end.

(** [fs.copyFileSync(src, dest)]: throws unless [src] is a file, [dest]
    is not a directory and the directory of [dest] exists. *)
Definition copyFileSync `{Runtime} (src dest : string) : M unit :=
  w ← get_world;
  match files (disk w) !! src with
  | None => throw (InternalError "copyFileSync failed")
  | Some data =>
      if bool_decide (dest ∈ dirs (disk w))
      then throw (InternalError "EISDIR")
      else if negb (bool_decide (path_dirname dest ∈ dirs (disk w)))
      then throw (InternalError "ENOENT")
      else modify (λ w, log (FsWrite dest)
        (set_disk
           (λ d, {| dirs := dirs d; files := <[dest := data]> (files d) |})
           w))
  end.

(** The longest run of ASCII letters at the start of a string, and the
    rest. *)
Definition is_letter (c : ascii) : bool :=
  let n := N_of_ascii c in
  bool_decide (65 ≤ n ≤ 90)%N || bool_decide (97 ≤ n ≤ 122)%N.

Fixpoint letters_prefix (s : string) : string * string :=
  match s with
  | EmptyString => (EmptyString, EmptyString)
  | String c s' =>
      if is_letter c
      then let '(run, rest) := letters_prefix s' in (String c run, rest)
      else (EmptyString, s)
  end.

(** [filename.match(/^([A-Za-z]+)_/)]: the captured group. The run of
    letters is followed by an underscore exactly when the longest run
    is. *)
Definition legacy_match (filename : string) : option string :=
  match letters_prefix filename with
  | (String c run, String "_" _) => Some (String c run)
  | _ => None
  end.

Module Migrate.
Section Script.
Context `{Runtime}.

(** [mime.lookup] of the [mime-types] package; [None] is [false]. *)
Variable mime_lookup : string → option string.

Definition mimeMap : list (string * string) :=
  [(".png", "image/png"); (".jpg", "image/jpeg"); (".jpeg", "image/jpeg");
   (".webp", "image/webp"); (".gif", "image/gif"); (".svg", "image/svg+xml")
  ]%string.

(** [path.extname] yields the empty string or a string that starts
    with a dot, so [mimeMap[ext]] reads no inherited property. *)
Definition getMimeType (filePath : string) : string :=
  let ext := toLowerCase (path_extname filePath) in
  match List.find (λ e, bool_decide (e.1 = ext)) mimeMap with
  | Some e => e.2
  | None => or_string (mime_lookup filePath) "application/octet-stream"
  end.

(** The filter of the directory scan in [main]. *)
Definition is_image_file (f : string) : bool :=
  let ext := toLowerCase (path_extname f) in
  bool_decide
    (ext ∈ [".png"; ".jpg"; ".jpeg"; ".webp"; ".gif"; ".svg"]%string).

(** The [tags] of [migrateFile]. *)
Definition migration_tags (filename : string) (source : Source)
    (sourceID : option Z) : list string :=
  match source with
  | player =>
      "player-avatar"%string
      :: match sourceID with
         | Some id => ["player:" +:+ pretty id]%string
         | None => []
         end
  | character =>
      "character-avatar"%string
      :: match sourceID with
         | Some id => ["character:" +:+ pretty id]%string
         | None => []
         end
  | orphan =>
      "orphan"%string
      :: match legacy_match filename with
         | Some group => [toLowerCase group]
         | None => []
         end
  end.

Definition migrateFile (o : Oracle) (filename sourceDir destDir appName : string)
    (source : Source) (sourceID : option Z) : M MigrationResult :=
  let sourcePath := path_join sourceDir filename in
  stat_size ← statSync_size sourcePath;
  let mimeType := getMimeType sourcePath in
  let ext := path_extname filename in
  let imageID := randomUUID o in
  let newFilename := imageID +:+ ext in
  let destPath := path_join destDir newFilename in
  copyFileSync sourcePath destPath;;
  let tags := migration_tags filename source sourceID in
  let image :=
    {| ImageID := imageID;
       AppID := appName;
       FileName := newFilename;
       OriginalFileName := filename;
       MimeType := mimeType;
       Size := stat_size;
       Tags := tags;
       Description := EmptyString;
       Alt := EmptyString;
       Status := ACTIVE;
       UploadedBy := "migration";
       createdAt := now o |} in
  ImageModel_save o image;;
  mret {| originalFilename := filename; imageID := imageID;
          newFilename := newFilename; source := source;
          sourceID := sourceID |}.
End Script.
End Migrate.

(** ** Further notions *)

(** The routes that address one image by its identifier. *)
Definition by_id (r : Request) : bool :=
  match r with
  | GET_image _ | GET_file _ | PATCH_image _ _ | DELETE_image _ => true
  | POST_upload _ _ _ _ | GET_list _ _ _ _ => false
  end.

(** The [GET] routes. *)
Definition is_get (r : Request) : bool :=
  match r with
  | GET_image _ | GET_file _ | GET_list _ _ _ _ => true
  | POST_upload _ _ _ _ | PATCH_image _ _ | DELETE_image _ => false
  end.

(** A record as [upload] builds it: an allow-listed MIME type and a file
    name that starts with the identifier. *)
Definition well_named (d : IImage) : Prop :=
  MimeType d ∈ MIME_TYPES ∧ ∃ ext, FileName d = ImageID d +:+ ext.

(** At most one active key per application name. *)
Definition one_active_per_app (keys : list IApiKey) : Prop :=
  ∀ i j a b,
    keys !! i = Some a → keys !! j = Some b →
    Active a = true → Active b = true →
    AppName a = AppName b → i = j.

(** The world with another key collection. *)
Definition with_apiKeys (keys : list IApiKey) (w : World) : World :=
  {| images := images w; apiKeys := keys; disk := disk w;
     effects := effects w |}.

(** The same [list] options for another page. *)
Definition on_page (p : Z) (options : ListOptions) : ListOptions :=
  {| opt_page := Some p; opt_limit := opt_limit options;
     opt_tags := opt_tags options; opt_search := opt_search options |}.

(** What the query of [list] asks of a record, as a proposition: the
    tenant, the active status, one of the tags when a non-empty array
    of tags is given, and a match of the search pattern in one of three
    fields when a non-empty pattern is given. *)
Definition matches_query `{Runtime} (appID : string) (options : ListOptions)
    (d : IImage) : Prop :=
  AppID d = appID
  ∧ Status d = ACTIVE
  ∧ match opt_tags options with
    | Some (t :: ts) => ∃ x, x ∈ Tags d ∧ x ∈ t :: ts
    | _ => True
    end
  ∧ match opt_search options with
    | Some search =>
        search = EmptyString
        ∨ regex_test_i search (Description d) = true
        ∨ regex_test_i search (OriginalFileName d) = true
        ∨ regex_test_i search (Alt d) = true
    | None => True
    end.

(** The second page of [Sample.crowd], as [list] returns it. *)
Definition crowd_page_two : list IImage :=
  Sample.numbered <$> [4; 3; 2; 1; 0]%nat.

(** A run of the key-creation script on the sample keys, and a legacy
    file of the migration. *)
Module SampleKeys.
Definition oracle : KeyOracle :=
  {| randomBytes_hex := "c0ffee"; new_ApiKeyID := 3 |}.
Definition keys : list IApiKey := [Sample.reader; Sample.writer].
Definition blog : IApiKey :=
  {| ApiKeyID := 3; AppName := "blog"; Key := "sha256:img_c0ffee";
     Permissions := 1; Active := true |}.

(** A disk that holds one legacy file of the other application. *)
Definition legacy_disk : World :=
  {| images := []; apiKeys := keys;
     disk := {| dirs := {[ "/legacy"; "/srv/uploads/shop" ]}%string;
                files := {[ "/legacy/Generic_5.PNG"%string
                            := [Byte.x89; Byte.x50; Byte.x4e] ]} |};
     effects := [] |}.
End SampleKeys.

(** A string of ASCII letters only. *)
Fixpoint all_letters (s : string) : bool :=
  match s with
  | EmptyString => true
  | String c s' => is_letter c && all_letters s'
  end.

(** ** The [main] of the migration script

    The Primordia database: the documents of its [player] and
    [character] collections, with the two fields the script reads and
    rewrites. [None] is a missing or [null] field. *)
Record PlayerDoc := {
  UserID : Z;
  AvatarURL : option string
}.

Record CharacterDoc := {
  CharacterID : Z;
  Avatar : option string
}.

Record Primordia := {
  playerCollection : list PlayerDoc;
  characterCollection : list CharacterDoc
}.

(** [referencedFiles.set(key, value)] on a [Map] kept in insertion
    order: a key that is present keeps its place and takes the new
    value. *)
Fixpoint map_set (key : string) (value : Source * Z)
    (m : list (string * (Source * Z))) : list (string * (Source * Z)) :=
  match m with
  | [] => [(key, value)]
  | (k, v) :: m' =>
      if bool_decide (k = key) then (k, value) :: m'
      else (k, v) :: map_set key value m'
  end.

(** [referencedFiles.get(key)] *)
Definition map_get (key : string) (m : list (string * (Source * Z)))
  : option (Source * Z) :=
  snd <$> List.find (λ e, bool_decide (e.1 = key)) m.

(** [collection.updateOne({ UserID }, { $set: { AvatarURL } })] and its
    counterpart on characters. *)
Fixpoint update_first_player (userID : Z) (url : string)
    (docs : list PlayerDoc) : list PlayerDoc :=
  match docs with
  | [] => []
  | d :: docs' =>
      if bool_decide (UserID d = userID)
      then {| UserID := UserID d; AvatarURL := Some url |} :: docs'
      else d :: update_first_player userID url docs'
  end.

Fixpoint update_first_character (characterID : Z) (url : string)
    (docs : list CharacterDoc) : list CharacterDoc :=
  match docs with
  | [] => []
  | d :: docs' =>
      if bool_decide (CharacterID d = characterID)
      then {| CharacterID := CharacterID d; Avatar := Some url |} :: docs'
      else d :: update_first_character characterID url docs'
  end.

Module MigrateMain.
Section Script.
Context `{Runtime}.

(** [mime.lookup]; how [console.error] prints the error that ended the
    run; what [fs.readdirSync(primordiaImageDir)] returns; and the
    oracle of the [n]-th call of [migrateFile]. *)
Variable mime_lookup : string → option string.
Variable render_error : Exception → string.
Variable readdirSync : list string.
Variable oracles : nat → Oracle.

(** What the Primordia database and the two connections do: whether
    both connections open, whether the two [find] queries of step 1
    resolve, whether the [n]-th [updateOne] of step 5 resolves, and
    whether the connections close. *)
Variable connect_ok : bool.
Variable find_ok : bool.
Variable updateOne_ok : nat → bool.
Variable close_ok : bool.

Definition printUsage : list string :=
  ["Usage: npx ts-node src/scripts/migrate-primordia-images.ts <primordiaMongoUri> <primordiaImageDir> <appName>";
   EmptyString;
   "  primordiaMongoUri  - MongoDB URI for the Primordia database";
   "  primordiaImageDir  - Path to Primordia's image directory";
   "  appName            - AppID to assign in image-service";
   EmptyString;
   "Env vars (from .env):";
   "  MONGODB_URI  - Image-service MongoDB URI";
   "  IMAGE_DIR    - Image-service storage path"]%string.

(** The two [find] queries: the documents whose avatar field exists and
    is neither [null] nor empty. *)
Definition players (db : Primordia) : list PlayerDoc :=
  List.filter (λ p, truthy_string (AvatarURL p)) (playerCollection db).
Definition characters (db : Primordia) : list CharacterDoc :=
  List.filter (λ c, truthy_string (Avatar c)) (characterCollection db).

(** The [Map] built by the two loops of step 1; characters are set
    after players. *)
Definition referencedFiles (db : Primordia)
  : list (string * (Source * Z)) :=
  foldl (λ m c, if truthy_string (Avatar c)
                then map_set (default EmptyString (Avatar c))
                       (character, CharacterID c) m
                else m)
    (foldl (λ m p, if truthy_string (AvatarURL p)
                   then map_set (default EmptyString (AvatarURL p))
                          (player, UserID p) m
                   else m)
       [] (players db))
    (characters db).

Definition allFilesOnDisk : list string :=
  List.filter Migrate.is_image_file readdirSync.

Definition referencedOnDisk (db : Primordia) : list string :=
  List.filter (λ f, bool_decide (is_Some (map_get f (referencedFiles db))))
    allFilesOnDisk.

Definition orphanFiles (db : Primordia) : list string :=
  List.filter
    (λ f, negb (bool_decide (is_Some (map_get f (referencedFiles db)))))
    allFilesOnDisk.

Definition missingFromDisk (db : Primordia) : list string :=
  List.filter (λ f, negb (bool_decide (f ∈ allFilesOnDisk)))
    (referencedFiles db).*1.

(** The loop over the referenced files, from call number [n] on. *)
Fixpoint migrate_referenced (db : Primordia) (sourceDir destDir appName
    : string) (n : nat) (todo : list string) : M (list MigrationResult) :=
  match todo with
  | [] => mret []
  | filename :: todo' =>
      match map_get filename (referencedFiles db) with
      | None => throw (InternalError "TypeError")
      | Some ref =>
          result ← Migrate.migrateFile mime_lookup (oracles n) filename
                     sourceDir destDir appName ref.1 (Some ref.2);
          results ← migrate_referenced db sourceDir destDir appName (S n)
                      todo';
          mret (result :: results)
      end
  end.

(** The loop over the orphan files, from call number [n] on. *)
Fixpoint migrate_orphans (sourceDir destDir appName : string) (n : nat)
    (todo : list string) : M (list MigrationResult) :=
  match todo with
  | [] => mret []
  | filename :: todo' =>
      result ← Migrate.migrateFile mime_lookup (oracles n) filename
                 sourceDir destDir appName orphan None;
      results ← migrate_orphans sourceDir destDir appName (S n) todo';
      mret (result :: results)
  end.

(** [playerUpdates] and [characterUpdates]: a referenced file is a
    player's unless it is a character's. *)
Definition playerUpdates (results : list MigrationResult)
  : list (Z * string) :=
  omap (λ r, match source r, sourceID r with
             | player, Some id => Some (id, imageID r)
             | _, _ => None
             end) results.

Definition characterUpdates (results : list MigrationResult)
  : list (Z * string) :=
  omap (λ r, match source r, sourceID r with
             | player, _ => None
             | _, Some id => Some (id, imageID r)
             | _, None => None
             end) results.

Definition count_source (s : Source) (results : list MigrationResult) : nat :=
  length (List.filter
            (λ r, match source r, s with
                  | player, player | character, character
                  | orphan, orphan => true
                  | _, _ => false
                  end) results).

Definition newline : string := String (ascii_of_nat 10) EmptyString.

(** The lines logged before the files are migrated. *)
Definition report_scan (db : Primordia) : list string :=
  ["Connected to both databases." +:+ newline;
   "Found " +:+ pretty (length (players db)) +:+ " players with avatars";
   "Found " +:+ pretty (length (characters db))
   +:+ " characters with avatars";
   "Found " +:+ pretty (length allFilesOnDisk) +:+ " image files on disk";
   "  Referenced & on disk: " +:+ pretty (length (referencedOnDisk db));
   "  Orphan files (on disk but not in DB): "
   +:+ pretty (length (orphanFiles db));
   "  Missing files (in DB but not on disk): "
   +:+ pretty (length (missingFromDisk db))]%string
  ++ (if bool_decide (0 < length (missingFromDisk db))%nat
      then ["  Missing: " +:+ String.concat ", " (missingFromDisk db)]%string
      else [])
  ++ [EmptyString].

(** The lines logged once every file is migrated. *)
Definition report_done (db : Primordia) (appDir : string)
    (referenced results : list MigrationResult) : list string :=
  [newline +:+ "Migrated " +:+ pretty (length results)
   +:+ " images to image-service.";
   newline +:+ "Updating " +:+ pretty (length (playerUpdates referenced))
   +:+ " player records...";
   "Updating " +:+ pretty (length (characterUpdates referenced))
   +:+ " character records...";
   newline +:+ "=== Migration Complete ===";
   "  Player avatars:    " +:+ pretty (count_source player results);
   "  Character avatars: " +:+ pretty (count_source character results);
   "  Orphan files:      " +:+ pretty (count_source orphan results);
   "  Total migrated:    " +:+ pretty (length results);
   "  Destination:       " +:+ appDir;
   "  Missing (skipped): " +:+ pretty (length (missingFromDisk db))
  ]%string.

(** The two loops of step 5, from [updateOne] number [n] on. A
    rejected [updateOne] ends the loop with the earlier updates made;
    the flag tells whether the loop ran to its end. *)
Fixpoint update_players (n : nat) (updates : list (Z * string))
    (docs : list PlayerDoc) : bool * list PlayerDoc :=
  match updates with
  | [] => (true, docs)
  | u :: updates' =>
      if updateOne_ok n
      then update_players (S n) updates' (update_first_player u.1 u.2 docs)
      else (false, docs)
  end.

Fixpoint update_characters (n : nat) (updates : list (Z * string))
    (docs : list CharacterDoc) : bool * list CharacterDoc :=
  match updates with
  | [] => (true, docs)
  | u :: updates' =>
      if updateOne_ok n
      then update_characters (S n) updates'
             (update_first_character u.1 u.2 docs)
      else (false, docs)
  end.

(** [main().catch]: the error is printed and the process exits with 1,
    after [printed] was logged. *)
Definition failed (printed : list string) (err : Exception) : ScriptExit :=
  {| exit_code := 1; stdout := printed;
     stderr := ["Migration failed: " +:+ render_error err]%string |}.

Definition main (args : list string) (db : Primordia) (w : World)
  : ScriptExit * Primordia * World :=
  match args with
  | primordiaMongoUri :: primordiaImageDir :: appName :: _ =>
      let imageServiceDir :=
        path_resolve (or_string env_IMAGE_DIR "./uploads") in
      let appDir := path_join imageServiceDir appName in
      if negb (existsSync primordiaImageDir (disk w))
      then ({| exit_code := 1; stdout := [];
               stderr := ["Primordia image directory not found: "
                          +:+ primordiaImageDir]%string |}, db, w)
      else
        let w1 :=
          if negb (existsSync appDir (disk w)) then (mkdirSync appDir w).2
          else w in
        if negb connect_ok
        then (failed [] (InternalError "connection failed"), db, w1)
        else if negb find_ok
        then (failed (take 1 (report_scan db)) (InternalError "find failed"),
              db, w1)
        else if negb (bool_decide (primordiaImageDir ∈ dirs (disk w1)))
        then (failed (take 3 (report_scan db)) (InternalError "ENOTDIR"),
              db, w1)
        else
        match
          (referenced ← migrate_referenced db primordiaImageDir appDir
                          appName 0 (referencedOnDisk db);
           orphans ← migrate_orphans primordiaImageDir appDir appName
                       (length (referencedOnDisk db)) (orphanFiles db);
           mret (referenced, orphans)) w1
        with
        | (Threw err, w2) => (failed (report_scan db) err, db, w2)
        | (Returned (referenced, orphans), w2) =>
            let done :=
              report_done db appDir referenced (referenced ++ orphans) in
            let players :=
              update_players 0 (playerUpdates referenced)
                (playerCollection db) in
            if negb players.1
            then (failed (report_scan db ++ take 2 done)
                    (InternalError "updateOne failed"),
                  {| playerCollection := players.2;
                     characterCollection := characterCollection db |}, w2)
            else
              let characters :=
                update_characters (length (playerUpdates referenced))
                  (characterUpdates referenced) (characterCollection db) in
              let db' := {| playerCollection := players.2;
                            characterCollection := characters.2 |} in
              if negb characters.1
              then (failed (report_scan db ++ take 3 done)
                      (InternalError "updateOne failed"), db', w2)
              else if negb close_ok
              then (failed (report_scan db ++ done)
                      (InternalError "close failed"), db', w2)
              else ({| exit_code := 0; stdout := report_scan db ++ done;
                       stderr := [] |}, db', w2)
        end
  | _ => ({| exit_code := 1; stdout := printUsage; stderr := [] |}, db, w)
  end.
End Script.
End MigrateMain.

(** A run of the migration: a legacy directory with the avatar of one
    player, a file that no document names and a text file; the avatar of
    the one character is missing from the directory. *)
Module SampleMigration.
Definition db : Primordia :=
  {| playerCollection :=
       [{| UserID := 7; AvatarURL := Some "hero.png"%string |};
        {| UserID := 8; AvatarURL := None |}];
     characterCollection :=
       [{| CharacterID := 3; Avatar := Some "lost.gif"%string |}] |}.

Definition listing : list string :=
  ["Generic_5.PNG"; "hero.png"; "notes.txt"]%string.

Definition oracles (n : nat) : Oracle :=
  Sample.oracle (String (ascii_of_nat (97 + n)) EmptyString) (Z.of_nat n).

Definition world : World :=
  {| images := [Sample.logo_image]; apiKeys := SampleKeys.keys;
     disk := {| dirs := {[ "/legacy" ]}%string;
                files := {[ "/legacy/Generic_5.PNG"%string
                            := [Byte.x89; Byte.x50; Byte.x4e] ]}
                         ∪ {[ "/legacy/hero.png"%string := [Byte.x89] ]}
                         ∪ {[ "/legacy/notes.txt"%string := [] ]} |};
     effects := [] |}.

Definition args : list string :=
  ["mongodb://localhost/primordia"; "/legacy"; "shop"]%string.

Definition run : ScriptExit * Primordia * World :=
  @MigrateMain.main Sample.runtime (λ _, None) (λ _, "Error"%string) listing
    oracles true true (λ _, true) true args db world.

(** The same run when the connections fail to close. *)
Definition unclosed_run : ScriptExit * Primordia * World :=
  @MigrateMain.main Sample.runtime (λ _, None) (λ _, "Error"%string) listing
    oracles true true (λ _, true) false args db world.
End SampleMigration.

(** What relates a result of [migrateFile] to the record it saved. *)
Definition migrated (appName : string) (r : MigrationResult) (d : IImage)
  : Prop :=
  ImageID d = imageID r
  ∧ OriginalFileName d = originalFilename r
  ∧ AppID d = appName
  ∧ Tags d
    = Migrate.migration_tags (originalFilename r) (source r) (sourceID r)
  ∧ Status d = ACTIVE
  ∧ UploadedBy d = "migration"%string.

(** * Properties *)

(** Unfolds the monad so that a handler run reduces to a case tree. *)
Ltac unfold_monad :=
  unfold mbind, M_bind, mret, M_ret, bind, ret, throw, get_world, modify in *.

(** ** The guard *)

Section GuardFacts.
Context `{Runtime}.

Lemma canActivate_missing_header rp w :
  canActivate None rp w
  = (Threw (UnauthorizedException "Missing X-API-Key header"), w).
Proof. reflexivity. Qed.

(** The guard never changes the world. *)
Lemma canActivate_world k rp w r w' :
  canActivate k rp w = (r, w') → w' = w.
Proof.
  unfold canActivate, canActivate_permission. unfold_monad.
  repeat case_match; intros; simplify_eq; done.
Qed.

(** A request that passes the guard carries the record of an active
    key whose digest matches the header. *)
Lemma canActivate_returned k rp w key w' :
  canActivate k rp w = (Returned key, w') →
  w' = w ∧ key ∈ apiKeys w ∧ Active key = true.
Proof.
  unfold canActivate, canActivate_permission, ApiKeyModel_findOne.
  unfold_monad.
  repeat case_match; intros; simplify_eq.
  match goal with
  | Hf : List.find _ _ = Some _ |- _ =>
      apply List.find_some in Hf as [Hin Hq]
  end.
  apply andb_prop in Hq as [_ Hact].
  split_and!; try done. by apply list_elem_of_In.
Qed.

(** Whatever the guard throws is a 401. *)
Lemma canActivate_threw k rp w e w' :
  canActivate k rp w = (Threw e, w') →
  error_kind e = Some Unauthenticated.
Proof.
  unfold canActivate, canActivate_permission. unfold_monad.
  repeat case_match; intros; simplify_eq; reflexivity.
Qed.
End GuardFacts.

(** C1. The claim has [GET /image/{id}/file] succeed without a
    credential. The controller's class-level guard covers that route
    like every other: for every route and every world, a request that
    carries no [X-API-Key] header (or an empty one) is refused with
    [UnauthorizedException('Missing X-API-Key header')] before the
    handler runs, the file route included; on the file route a header
    that matches no active key is refused with
    [UnauthorizedException('Invalid or inactive API key')]. Both are of
    the [Unauthenticated] kind, and the world is unchanged. *)
Theorem getFile_is_guarded `{Runtime} (o : Oracle) (imageID : string)
    (w : World) :
  (∀ r : Request,
     ImageController.handle o None r w
     = (Threw (UnauthorizedException "Missing X-API-Key header"), w))
  ∧ ImageController.handle o None (GET_file imageID) w
    = (Threw (UnauthorizedException "Missing X-API-Key header"), w)
  ∧ ImageController.handle o (Some EmptyString) (GET_file imageID) w
    = (Threw (UnauthorizedException "Missing X-API-Key header"), w)
  ∧ (∀ key : string,
       key ≠ EmptyString →
       ApiKeyModel_findOne (hashKey key) (apiKeys w) = None →
       ImageController.handle o (Some key) (GET_file imageID) w
       = (Threw (UnauthorizedException "Invalid or inactive API key"), w))
  ∧ error_kind (UnauthorizedException "Missing X-API-Key header")
    = Some Unauthenticated
  ∧ error_kind (UnauthorizedException "Invalid or inactive API key")
    = Some Unauthenticated.
Proof.
  split_and!; try reflexivity.
  intros key Hne Hnone.
  unfold ImageController.handle, canActivate. unfold_monad. simpl.
  rewrite bool_decide_eq_false_2 by done. simpl.
  by rewrite Hnone.
Qed.

(** The failing input of C1 run on the sample world: an active image
    whose file is on disk, requested without a header. *)
Example getFile_without_header_sample :
  @ImageController.handle Sample.runtime (Sample.oracle "f00d" 2000) None
    (GET_file "0a1b") Sample.one_image
  = (Threw (UnauthorizedException "Missing X-API-Key header"),
     Sample.one_image)
  ∧ (@ImageController.getFile Sample.runtime "0a1b" Sample.one_image).1
    = Returned (FileSent "image/png" "/srv/uploads/shop/0a1b.png").
Proof. split; vm_compute; reflexivity. Qed.

(** C2, as the claim states it, fails: a key that holds only the read
    bit (1) asked for the write bit (2) meets the claim's condition,
    yet the guard does not fail with [Forbidden]. *)
Lemma authorize_not_forbidden_counterexample :
  (2 ≠ 0 ∧ Z.land (Permissions Sample.reader) 2 = 0)
  ∧ ¬ ∃ e w',
        canActivate_permission Sample.reader (Some 2) Sample.fresh
        = (Threw e, w')
        ∧ error_kind e = Some Forbidden.
Proof.
  split; [by vm_compute |].
  intros (e & w' & Hrun & Hkind).
  vm_compute in Hrun. injection Hrun as <- <-. vm_compute in Hkind.
  discriminate.
Qed.

(** C2 (amended). For every key record and required permission, the
    permission check of the guard throws if and only if the required
    permission is non-zero and its bitwise AND with the record's mask is
    zero; what it throws is [UnauthorizedException('Insufficient
    permissions')], a 401 of the [Unauthenticated] kind, never
    [Forbidden]; otherwise it returns the record. The world is unchanged
    either way. *)
Theorem canActivate_permission_spec (keyRecord : IApiKey) (required : Z)
    (w : World) :
  (canActivate_permission keyRecord (Some required) w
   = (Threw (UnauthorizedException "Insufficient permissions"), w)
   ↔ required ≠ 0 ∧ Z.land (Permissions keyRecord) required = 0)
  ∧ (canActivate_permission keyRecord (Some required) w
     = (Returned keyRecord, w)
     ↔ required = 0 ∨ Z.land (Permissions keyRecord) required ≠ 0)
  ∧ (∀ e w',
       canActivate_permission keyRecord (Some required) w = (Threw e, w') →
       error_kind e = Some Unauthenticated ∧ error_kind e ≠ Some Forbidden).
Proof.
  unfold canActivate_permission, hasApiPermission, truthy_number. simpl.
  unfold_monad.
  destruct (decide (required = 0)) as [Hz|Hz];
    destruct (decide (Z.land (Permissions keyRecord) required = 0)) as [Hl|Hl];
    rewrite ?(bool_decide_eq_true_2 _ Hz), ?(bool_decide_eq_false_2 _ Hz),
      ?(bool_decide_eq_true_2 _ Hl), ?(bool_decide_eq_false_2 _ Hl); simpl;
    (split_and!; [split | split | intros e w' He]);
    intros; simplify_eq; try done; try tauto; try (by vm_compute).
Qed.

(** ** The service: directories and lookups *)

Section ServiceFacts.
Context `{Runtime}.

Lemma getAppDir_run appID w :
  ∃ w', ImageService.getAppDir appID w = (Returned (app_dir appID), w')
        ∧ images w' = images w
        ∧ apiKeys w' = apiKeys w
        ∧ files (disk w') = files (disk w)
        ∧ dirs (disk w') ⊆ {[ app_dir appID ]} ∪ dirs (disk w)
        ∧ dirs (disk w) ⊆ dirs (disk w')
        ∧ existsSync (app_dir appID) (disk w') = true
        ∧ effects w' = effects w ++ mkdir_log (app_dir appID) w.
Proof.
  unfold ImageService.getAppDir, mkdir_log, mkdirSync. fold (app_dir appID).
  unfold_monad.
  destruct (existsSync (app_dir appID) (disk w)) eqn:Hex; simpl.
  - eexists; split_and!; try done; [set_solver | by rewrite app_nil_r].
  - eexists; split_and!; try done; simpl; [set_solver | ].
    unfold existsSync; simpl.
    rewrite bool_decide_eq_true_2 by set_solver. done.
Qed.

Lemma getByID_run imageID w :
  ImageService.getByID imageID w
  = match List.find (is_active imageID) (images w) with
    | Some d => (Returned d, w)
    | None => (Threw (NotFoundException "Image not found"), w)
    end.
Proof.
  unfold ImageService.getByID, ImageModel_findOne, is_active. unfold_monad.
  by destruct (List.find _ _).
Qed.

Lemma find_is_active_Some imageID docs d :
  List.find (is_active imageID) docs = Some d →
  d ∈ docs ∧ ImageID d = imageID ∧ Status d = ACTIVE.
Proof.
  intros [Hin Hq]%List.find_some.
  apply andb_prop in Hq as [?%bool_decide_eq_true ?%bool_decide_eq_true].
  by rewrite list_elem_of_In.
Qed.

Lemma find_is_active_None imageID docs :
  List.find (is_active imageID) docs = None ↔
  ∀ d, d ∈ docs → ImageID d = imageID → Status d ≠ ACTIVE.
Proof.
  split.
  - intros Hnone d Hin Hid Hact.
    apply list_elem_of_In in Hin.
    pose proof (List.find_none _ _ Hnone d Hin) as Hq.
    unfold is_active in Hq.
    rewrite !bool_decide_eq_true_2 in Hq by done. done.
  - intros Hall. destruct (List.find _ _) as [d|] eqn:Hf; [|done].
    apply find_is_active_Some in Hf as (Hin & Hid & Hact).
    by destruct (Hall d Hin Hid).
Qed.
End ServiceFacts.

(** ** Upload *)

Section UploadFacts.
Context `{Runtime}.

(** The three ways an upload that passed validation can end. *)
Lemma upload_run o appID uploadedBy f metadata w :
  mimetype f ∈ MIME_TYPES →
  let p := upload_filePath o appID f in
  let image :=
    ImageService.new_ImageModel o (randomUUID o) appID (upload_fileName o f) f
      metadata uploadedBy in
  ∃ w1, ImageService.getAppDir appID w = (Returned (app_dir appID), w1)
    ∧ ImageService.upload o appID uploadedBy (Some f) metadata w
      = if bool_decide (p ∈ dirs (disk w1))
        then (Threw (InternalError "EISDIR"), w1)
        else
          let w2 := log (FsWrite p)
            (set_disk (λ d, {| dirs := dirs d;
                               files := <[p := buffer f]> (files d) |}) w1) in
          if save_ok o
          then (Returned image,
                log (DbInsert (randomUUID o))
                  (set_images (λ docs, docs ++ [image]) w2))
          else (Threw (InternalError "save failed"), w2).
Proof.
  intros Hmime p image.
  destruct (getAppDir_run appID w) as (w1 & Hdir & _).
  exists w1. split; [done|].
  unfold ImageService.upload.
  rewrite bool_decide_eq_true_2 by done. simpl.
  unfold_monad. rewrite Hdir.
  unfold writeFileSync, ImageModel_save. unfold_monad.
  fold (upload_fileName o f). fold (upload_filePath o appID f). fold p. fold image.
  destruct (bool_decide (p ∈ dirs (disk w1))); [done|].
  simpl. destruct (save_ok o); done.
Qed.
End UploadFacts.

Section UploadClaims.
Context `{Runtime}.




(** C3 (amended). For every create call whose file is absent or whose
    declared MIME type is outside the allow-list, [upload] throws a
    [BadRequestException] (kind [InvalidInput]) and leaves records,
    disk and log unchanged. A file part over 10 MiB never reaches the
    handler: once the guard has passed, the route's [FileInterceptor]
    aborts the request with the framework's own error, the world
    unchanged. Empty content is not among the rejected inputs. *)
Theorem upload_rejects_invalid (o : Oracle) (appID uploadedBy : string)
    (file : option MulterFile) (metadata : Metadata) (w : World) :
  file = None ∨ (∃ f, file = Some f ∧ mimetype f ∉ MIME_TYPES) →
  (∃ message,
     ImageService.upload o appID uploadedBy file metadata w
     = (Threw (BadRequestException message), w)
     ∧ error_kind (BadRequestException message) = Some InvalidInput)
  ∧ (∀ key apiKey big t d a,
       canActivate key (Some PERM_WRITE) w = (Returned apiKey, w) →
       ImageController.fileSize < size big →
       ImageController.handle o key (POST_upload (Some big) t d a) w
       = (Threw file_too_large, w)).
Proof.
  intros Hbad. split.
  - destruct Hbad as [->|(f & -> & Hmime)].
    + by eexists.
    + unfold ImageService.upload.
      rewrite bool_decide_eq_false_2 by done. by eexists.
  - intros key apiKey big t d a Hguard Hbig.
    unfold ImageController.handle, ImageController.FileInterceptor.
    unfold_monad. simpl. unfold mbind, M_bind, bind in Hguard.
    rewrite Hguard.
    by rewrite bool_decide_eq_true_2 by lia.
Qed.

End UploadClaims.

(** C3, as the claim states it, fails on empty content: an empty PNG is
    accepted, its (empty) file is written and its record is created. *)
Lemma upload_accepts_empty_content_counterexample :
  buffer (Sample.png "empty.png" []) = []
  ∧ size (Sample.png "empty.png" []) = 0
  ∧ ∃ image w',
      @ImageService.upload Sample.runtime (Sample.oracle "f00d" 2000)
        "shop" "shop" (Some (Sample.png "empty.png" [])) Sample.no_metadata
        Sample.fresh
      = (Returned image, w')
      ∧ images w' = [image]
      ∧ files (disk w') !! "/srv/uploads/shop/f00d.png" = Some [].
Proof.
  split_and!; [done..|].
  eexists _, _. split_and!; [vm_compute; reflexivity | done | by vm_compute].
Qed.

Lemma upload_rejects_invalid_witness :
  (∃ message,
     @ImageService.upload Sample.runtime (Sample.oracle "f00d" 2000)
       "shop" "shop" None Sample.no_metadata Sample.fresh
     = (Threw (BadRequestException message), Sample.fresh)
     ∧ error_kind (BadRequestException message) = Some InvalidInput)
  ∧ (∀ key apiKey big t d a,
       @canActivate Sample.runtime key (Some 2) Sample.fresh
       = (Returned apiKey, Sample.fresh) →
       10485760 < size big →
       @ImageController.handle Sample.runtime (Sample.oracle "f00d" 2000)
         key (POST_upload (Some big) t d a) Sample.fresh
       = (Threw (PayloadTooLargeException "File too large"), Sample.fresh)).
Proof.
  apply (@upload_rejects_invalid Sample.runtime (Sample.oracle "f00d" 2000)
           "shop" "shop" None Sample.no_metadata Sample.fresh).
  left; reflexivity.
Defined.


(** ** Upload: the file is written before the record *)

Section UploadOrder.
Context `{Runtime}.

End UploadOrder.


(** ** [updateOne] on a collection *)

Section UpdateFirst.
Implicit Types (docs : list IImage) (set : IImage → IImage).

(** [updateOne] rewrites the first document that carries the
    identifier and nothing else. *)
Lemma update_first_split imageID set docs d :
  List.find (has_id imageID) docs = Some d →
  ∃ before after,
    docs = before ++ d :: after
    ∧ (∀ x, x ∈ before → ImageID x ≠ imageID)
    ∧ ImageID d = imageID
    ∧ update_first (has_id imageID) set docs = before ++ set d :: after.
Proof.
  induction docs as [|x docs IH]; [done|]. simpl.
  destruct (has_id imageID x) eqn:Hx.
  - intros [= ->]. exists [], docs.
    apply bool_decide_eq_true in Hx.
    split_and!; try done. by intros ? ?%elem_of_nil.
  - intros Hf. destruct (IH Hf) as (before & after & -> & Hb & Hid & Hup).
    exists (x :: before), after. rewrite Hup.
    apply bool_decide_eq_false in Hx.
    split_and!; try done.
    intros y [->|Hy]%elem_of_cons; auto.
Qed.

Lemma update_first_none imageID set docs :
  List.find (has_id imageID) docs = None →
  update_first (has_id imageID) set docs = docs.
Proof.
  induction docs as [|x docs IH]; [done|]. simpl.
  destruct (has_id imageID x); [done|]. intros Hf. by rewrite IH.
Qed.

(** An active match is in particular a match by identifier. *)
Lemma find_has_id_of_active imageID docs d :
  List.find (is_active imageID) docs = Some d →
  ∃ d0, List.find (has_id imageID) docs = Some d0.
Proof.
  intros (Hin & Hid & _)%find_is_active_Some.
  destruct (List.find (has_id imageID) docs) as [d0|] eqn:Hf; [eauto|].
  apply list_elem_of_In in Hin.
  pose proof (List.find_none _ _ Hf d Hin) as Hq.
  unfold has_id in Hq. by rewrite bool_decide_eq_true_2 in Hq.
Qed.

(** With unique identifiers the first match by identifier is the
    only one. *)
Lemma find_has_id_unique imageID docs d d0 :
  NoDup (ImageID <$> docs) →
  d ∈ docs → ImageID d = imageID →
  List.find (has_id imageID) docs = Some d0 → d0 = d.
Proof.
  induction docs as [|x docs IH]; [by intros _ ?%elem_of_nil|].
  rewrite fmap_cons, NoDup_cons. intros [Hx Hnd] Hin Hid. simpl.
  destruct (has_id imageID x) eqn:Hq.
  - intros [= ->]. apply bool_decide_eq_true in Hq.
    apply elem_of_cons in Hin as [->|Hin]; [done|].
    exfalso. apply Hx. rewrite Hq, <-Hid. by apply list_elem_of_fmap_2.
  - apply bool_decide_eq_false in Hq.
    apply elem_of_cons in Hin as [->|Hin]; [done|]. by apply IH.
Qed.

(** A setter that keeps identifiers keeps them unique. *)
Lemma update_first_ids q set docs :
  (∀ d, ImageID (set d) = ImageID d) →
  ImageID <$> update_first q set docs = ImageID <$> docs.
Proof.
  intros Hset. induction docs as [|x docs IH]; [done|]. simpl.
  destruct (q x); csimpl; by rewrite ?Hset, ?IH.
Qed.
End UpdateFirst.

(** ** Update of metadata *)

Section UpdateClaims.
Context `{Runtime}.

Lemma updateMetadata_run imageID updates w :
  ImageService.updateMetadata imageID updates w
  = match List.find (is_active imageID) (images w) with
    | None => (Threw (NotFoundException "Image not found"), w)
    | Some _ =>
        let docs :=
          update_first (has_id imageID) (setFields updates) (images w) in
        (Returned (List.find (has_id imageID) docs),
         log (DbUpdate imageID) (set_images (λ _, docs) w))
    end.
Proof.
  unfold ImageService.updateMetadata. unfold_monad.
  rewrite getByID_run.
  destruct (List.find (is_active imageID) (images w)); [|done].
  unfold ImageModel_updateOne, ImageModel_findOne. unfold_monad. done.
Qed.

(** An update of an identifier that resolves to an active record
    returns. *)
Lemma updateMetadata_returns imageID updates w d :
  List.find (is_active imageID) (images w) = Some d →
  ∃ r w', ImageService.updateMetadata imageID updates w
          = (Returned (Some r), w').
Proof.
  intros Hact. rewrite updateMetadata_run, Hact. cbv zeta.
  destruct (find_has_id_of_active _ _ _ Hact) as [d0 Hd0].
  destruct (update_first_split imageID (setFields updates) _ _ Hd0)
    as (before & after & _ & Hb & Hid & ->).
  eexists (setFields updates d0), _. do 3 f_equal.
  induction before as [|x before IH]; simpl.
  - unfold has_id. simpl. by rewrite bool_decide_eq_true_2.
  - unfold has_id at 1.
    rewrite bool_decide_eq_false_2 by (apply Hb; left).
    apply IH. intros y Hy. apply Hb. by right.
Qed.

(** C4 (amended). For every identifier whose records are all in
    deleted status, update-metadata fails with [NotFound] and changes
    nothing: the update resolves its target through the active-only
    lookup of [getByID], so it applies to active records only. *)
Theorem updateMetadata_deleted_not_found (imageID : string)
    (updates : Metadata) (w : World) :
  (∀ d, d ∈ images w → ImageID d = imageID → Status d = DELETED) →
  ImageService.updateMetadata imageID updates w
  = (Threw (NotFoundException "Image not found"), w)
  ∧ error_kind (NotFoundException "Image not found") = Some NotFound.
Proof.
  intros Hdel. split; [|reflexivity].
  rewrite updateMetadata_run.
  assert (List.find (is_active imageID) (images w) = None) as ->; [|done].
  apply find_is_active_None. intros d Hin Hid.
  by rewrite (Hdel d Hin Hid).
Qed.

(** C7. Every update-metadata call either fails and leaves the world
    as it was, or rewrites exactly one record, the first that carries
    the identifier, and returns it: tags, description and alt text take
    the supplied value when one is supplied and keep the prior value
    otherwise (so an update that supplies only a description leaves
    tags and alt text as they were); identifier, tenant, file name,
    original file name, MIME type, size, status, uploader and creation
    time are as before; all other records, the disk and the keys are
    untouched. *)
Theorem updateMetadata_frame (imageID : string) (updates : Metadata)
    (w w' : World) (r : Result (option IImage)) :
  ImageService.updateMetadata imageID updates w = (r, w') →
  ((∃ e, r = Threw e) ∧ w' = w)
  ∨ (∃ before d after d',
       images w = before ++ d :: after
       ∧ images w' = before ++ d' :: after
       ∧ r = Returned (Some d')
       ∧ ImageID d = imageID
       ∧ Tags d' = default (Tags d) (tags updates)
       ∧ Description d' = default (Description d) (description updates)
       ∧ Alt d' = default (Alt d) (alt updates)
       ∧ (tags updates = None → alt updates = None →
          Tags d' = Tags d ∧ Alt d' = Alt d)
       ∧ ImageID d' = ImageID d
       ∧ AppID d' = AppID d
       ∧ FileName d' = FileName d
       ∧ OriginalFileName d' = OriginalFileName d
       ∧ MimeType d' = MimeType d
       ∧ Size d' = Size d
       ∧ Status d' = Status d
       ∧ UploadedBy d' = UploadedBy d
       ∧ createdAt d' = createdAt d
       ∧ disk w' = disk w
       ∧ apiKeys w' = apiKeys w).
Proof.
  rewrite updateMetadata_run.
  destruct (List.find (is_active imageID) (images w)) as [a|] eqn:Hact;
    [|intros [= <- <-]; left; eauto].
  cbv zeta. intros [= <- <-]. right.
  destruct (find_has_id_of_active _ _ _ Hact) as [d Hd].
  destruct (update_first_split imageID (setFields updates) _ _ Hd)
    as (before & after & Hdocs & Hb & Hid & Hup).
  exists before, d, after, (setFields updates d).
  rewrite Hup. simpl.
  split_and!; try done.
  - do 2 f_equal.
    clear Hup Hdocs. induction before as [|x before IH]; simpl.
    + unfold has_id. simpl. by rewrite bool_decide_eq_true_2.
    + unfold has_id at 1.
      rewrite bool_decide_eq_false_2 by (apply Hb; left).
      apply IH. intros y Hy. apply Hb. by right.
  - by intros -> ->.
Qed.
End UpdateClaims.

(** C4, as the claim states it, fails: the record [0a1b] exists in
    deleted status, and an update of its description fails with
    [NotFound]. *)
Lemma updateMetadata_on_deleted_counterexample :
  (set_Status DELETED Sample.logo_image ∈ images Sample.one_deleted
   ∧ ImageID (set_Status DELETED Sample.logo_image) = "0a1b"
   ∧ Status (set_Status DELETED Sample.logo_image) = DELETED)
  ∧ @ImageService.updateMetadata "0a1b" (Sample.describe "x")
      Sample.one_deleted
    = (Threw (NotFoundException "Image not found"), Sample.one_deleted).
Proof.
  split_and!;
    [vm_compute; apply list_elem_of_here | done | done
    | vm_compute; reflexivity].
Qed.

Lemma updateMetadata_deleted_not_found_witness :
  @ImageService.updateMetadata "0a1b" Sample.no_metadata
    Sample.one_deleted
  = (Threw (NotFoundException "Image not found"), Sample.one_deleted)
  ∧ error_kind (NotFoundException "Image not found") = Some NotFound.
Proof.
  apply (updateMetadata_deleted_not_found "0a1b" Sample.no_metadata
           Sample.one_deleted).
  intros d Hin Hid. vm_compute in Hin.
  apply list_elem_of_singleton in Hin as ->. reflexivity.
Defined.

Lemma updateMetadata_frame_witness :
  ∃ before d after d',
    images Sample.one_image = before ++ d :: after
    ∧ Description d' = "x" ∧ Tags d' = Tags d ∧ Alt d' = Alt d.
Proof.
  destruct (updateMetadata_frame "0a1b" (Sample.describe "x")
              Sample.one_image
              (ImageService.updateMetadata "0a1b" (Sample.describe "x")
                 Sample.one_image).2
              (Returned
                 (Some (setFields (Sample.describe "x") Sample.logo_image))))
    as [[[e He] _]|(before & d & after & d' & Hdocs & _ & _ & _ & Ht & Hd
                    & Ha & _)].
  - vm_compute. reflexivity.
  - discriminate He.
  - exists before, d, after, d'. simpl in *. by rewrite Hd, Ht, Ha.
Defined.

(** ** Delete *)

Section DeleteClaims.
Context `{Runtime}.

Lemma delete_not_found imageID w :
  List.find (is_active imageID) (images w) = None →
  ImageService.delete imageID w
  = (Threw (NotFoundException "Image not found"), w).
Proof.
  intros Hnone. unfold ImageService.delete. unfold_monad.
  by rewrite getByID_run, Hnone.
Qed.

(** After the status flip and [getAppDir], [delete] removes the file
    when something exists at its path. *)
Lemma delete_run imageID w d :
  List.find (is_active imageID) (images w) = Some d →
  ∃ w2,
    images w2
    = update_first (has_id imageID) (set_Status DELETED) (images w)
    ∧ files (disk w2) = files (disk w)
    ∧ dirs (disk w2) ⊆ {[ app_dir (AppID d) ]} ∪ dirs (disk w)
    ∧ ImageService.delete imageID w
      = if existsSync (file_path d) (disk w2)
        then rmSync (file_path d) w2
        else (Returned tt, w2).
Proof.
  intros Hact. unfold ImageService.delete. unfold_monad.
  rewrite getByID_run, Hact. unfold ImageModel_updateOne. unfold_monad.
  match goal with
  | |- context [ImageService.getAppDir ?a ?w0] =>
      destruct (getAppDir_run a w0)
        as (w2 & -> & Him & _ & Hfiles & Hsub & _ & _ & _)
  end.
  exists w2.
  split_and!; [by rewrite Him | by rewrite Hfiles | done |].
  unfold file_path. by destruct (existsSync _ _).
Qed.

Lemma rmSync_run path w :
  rmSync path w
  = if bool_decide (is_Some (files (disk w) !! path))
    then (Returned tt,
          log (FsRm path)
            (set_disk (λ d, {| dirs := dirs d;
                               files := delete path (files d) |}) w))
    else (Threw (InternalError "rmSync failed"), w).
Proof. unfold rmSync. unfold_monad. by case_bool_decide. Qed.

(** C6. With unique identifiers: whenever [delete] returns, the
    record it resolved was active and is now in deleted status, every
    other record is as before, nothing remains at the record's path
    (the file is removed if it was there), and both a get-metadata
    and a second delete on the identifier fail with [NotFound]. A
    missing file does not make [delete] fail, and a present file is
    removed. *)
Theorem delete_then_not_found (imageID : string) (w : World) :
  unique_ids w →
  (∀ w',
     ImageService.delete imageID w = (Returned tt, w') →
     ∃ before d after,
       images w = before ++ d :: after
       ∧ ImageID d = imageID ∧ Status d = ACTIVE
       ∧ images w' = before ++ set_Status DELETED d :: after
       ∧ files (disk w') = delete (file_path d) (files (disk w))
       ∧ ImageService.getByID imageID w'
         = (Threw (NotFoundException "Image not found"), w')
       ∧ ImageService.delete imageID w'
         = (Threw (NotFoundException "Image not found"), w')
       ∧ error_kind (NotFoundException "Image not found") = Some NotFound)
  ∧ (∀ d,
       List.find (is_active imageID) (images w) = Some d →
       existsSync (file_path d) (disk w) = false →
       file_path d ≠ app_dir (AppID d) →
       ∃ w', ImageService.delete imageID w = (Returned tt, w')
             ∧ files (disk w') = files (disk w))
  ∧ (∀ d,
       List.find (is_active imageID) (images w) = Some d →
       is_Some (files (disk w) !! file_path d) →
       ∃ w', ImageService.delete imageID w = (Returned tt, w')
             ∧ files (disk w') !! file_path d = None).
Proof.
  intros Huniq. split_and!.
  - intros w' Hrun.
    destruct (List.find (is_active imageID) (images w)) as [d|] eqn:Hact;
      [|by rewrite delete_not_found in Hrun].
    destruct (delete_run _ _ _ Hact) as (w2 & Him & Hfiles & _ & Heq).
    rewrite Heq in Hrun. clear Heq.
    pose proof (find_is_active_Some _ _ _ Hact) as (Hin & Hid & Hst).
    destruct (find_has_id_of_active _ _ _ Hact) as [d0 Hd0].
    assert (d0 = d) as -> by eauto using find_has_id_unique.
    destruct (update_first_split imageID (set_Status DELETED) _ _ Hd0)
      as (before & after & Hdocs & Hb & _ & Hup).
    rewrite Hup in Him.
    assert (Him' : images w' = before ++ set_Status DELETED d :: after
                   ∧ files (disk w') = delete (file_path d) (files (disk w))).
    { rewrite rmSync_run in Hrun. unfold existsSync in Hrun.
      destruct (decide (is_Some (files (disk w2) !! file_path d)))
        as [Hfile|Hfile].
      - rewrite (bool_decide_eq_true_2 _ Hfile), orb_true_r in Hrun.
        simplify_eq. simpl. by rewrite Hfiles.
      - rewrite (bool_decide_eq_false_2 _ Hfile), orb_false_r in Hrun.
        destruct (bool_decide (file_path d ∈ dirs (disk w2))); [done|].
        simplify_eq. split; [done|].
        rewrite Hfiles in Hfile. rewrite delete_id; [done|].
        by apply eq_None_not_Some. }
    destruct Him' as [Him' Hfiles'].
    assert (Hgone : List.find (is_active imageID) (images w') = None).
    { apply find_is_active_None. intros x Hx Hxid. rewrite Him' in Hx.
      apply elem_of_app in Hx as [Hx|[->|Hx]%elem_of_cons].
      - by destruct (Hb x Hx).
      - done.
      - exfalso. unfold unique_ids in Huniq.
        rewrite Hdocs, fmap_app, fmap_cons in Huniq.
        apply NoDup_app in Huniq as (_ & _ & [Hnotin _]%NoDup_cons).
        apply Hnotin. rewrite Hid, <-Hxid. by apply list_elem_of_fmap_2. }
    exists before, d, after. split_and!; try done.
    + by rewrite getByID_run, Hgone.
    + by apply delete_not_found.
  - intros d Hact Hmiss Hne.
    destruct (delete_run _ _ _ Hact) as (w2 & _ & Hfiles & Hsub & ->).
    assert (existsSync (file_path d) (disk w2) = false) as ->; [|eauto].
    unfold existsSync in *. rewrite Hfiles.
    apply orb_false_iff in Hmiss as [Hd%bool_decide_eq_false ->].
    rewrite orb_false_r. apply bool_decide_eq_false.
    intros [?%elem_of_singleton|?]%Hsub%elem_of_union; done.
  - intros d Hact Hfile.
    destruct (delete_run _ _ _ Hact) as (w2 & _ & Hfiles & _ & ->).
    unfold existsSync. rewrite Hfiles.
    rewrite (bool_decide_eq_true_2 _ Hfile), orb_true_r.
    rewrite rmSync_run, Hfiles, (bool_decide_eq_true_2 _ Hfile).
    eexists. split; [done|]. simpl. by rewrite lookup_delete_eq.
Qed.
End DeleteClaims.

Lemma delete_then_not_found_witness :
  ∃ before d after,
    images Sample.one_image = before ++ d :: after
    ∧ images Sample.one_deleted = before ++ set_Status DELETED d :: after
    ∧ @ImageService.getByID "0a1b" Sample.one_deleted
      = (Threw (NotFoundException "Image not found"), Sample.one_deleted)
    ∧ @ImageService.delete Sample.runtime "0a1b" Sample.one_deleted
      = (Threw (NotFoundException "Image not found"), Sample.one_deleted).
Proof.
  destruct (@delete_then_not_found Sample.runtime "0a1b" Sample.one_image)
    as (Hdone & _).
  - vm_compute. apply NoDup_singleton.
  - destruct (Hdone Sample.one_deleted)
      as (before & d & after & H1 & _ & _ & H2 & _ & H3 & H4 & _).
    + vm_compute. reflexivity.
    + exists before, d, after. by split_and!.
Defined.

(** ** List *)

#[global] Instance newest_first_total : Total newest_first.
Proof. intros a b. unfold newest_first. lia. Qed.

#[global] Instance newest_first_trans : Transitive newest_first.
Proof. intros a b c. unfold newest_first. lia. Qed.

Section ListClaims.
Context `{Runtime}.

Lemma list_filter_sound appID options d :
  ImageService.list_filter appID options d = true →
  AppID d = appID ∧ Status d = ACTIVE.
Proof.
  unfold ImageService.list_filter.
  intros [[[Ha Hs]%andb_prop _]%andb_prop _]%andb_prop.
  by apply bool_decide_eq_true in Ha, Hs.
Qed.

Lemma list_filter_unfiltered appID options d :
  opt_tags options = None → opt_search options = None →
  ImageService.list_filter appID options d = true ↔
  AppID d = appID ∧ Status d = ACTIVE.
Proof.
  intros Ht Hs. split; [apply list_filter_sound|].
  intros [Ha Hst]. unfold ImageService.list_filter.
  rewrite Ht, Hs. simpl.
  by rewrite !bool_decide_eq_true_2.
Qed.

(** The result of the sorted query is a newest-first ordering of the
    matching documents. *)
Lemma sort_createdAt_Permutation o matching :
  sort_createdAt o matching ≡ₚ matching.
Proof.
  unfold sort_createdAt. by rewrite !merge_sort_Permutation.
Qed.

Lemma sort_createdAt_sorted o matching :
  StronglySorted newest_first (sort_createdAt o matching).
Proof. apply (StronglySorted_merge_sort newest_first). Qed.

Lemma check_regex_run options w :
  (∀ s, opt_search options = Some s →
        s = EmptyString ∨ regex_valid s = true) →
  ImageService.check_regex options w = (Returned tt, w).
Proof.
  intros Hs. unfold ImageService.check_regex, truthy_string.
  destruct (opt_search options) as [s|]; [|done].
  destruct (Hs s eq_refl) as [->|Hv]; [done|].
  simpl. rewrite Hv. by rewrite andb_false_r.
Qed.

(** C8 (amended). For a page number and a page size that are not
    negative and a search pattern that the server compiles: the
    effective page is the supplied one, or 1 when none (or 0) is
    supplied; the effective size is the supplied one, or 20 when none
    (or 0) is supplied, capped at 100; [list] returns, of the records
    that match the filter, sorted newest-created-first, the slice
    that skips (page-1)*size records and holds at most size of them,
    together with the number of matching records before pagination.
    Every record that matches the filter, and so every record
    returned, is an active record of the tenant, and without tag and
    search filters every active record of the tenant matches. The
    world is unchanged. *)
Theorem list_returns_active_page (o : Oracle) (appID : string)
    (options : ListOptions) (w : World) :
  (∀ p, opt_page options = Some p → 0 ≤ p) →
  (∀ l, opt_limit options = Some l → 0 ≤ l) →
  (∀ s, opt_search options = Some s →
        s = EmptyString ∨ regex_valid s = true) →
  ∃ (page size : Z) (matching sorted page_images : list IImage),
    page = match opt_page options with
           | Some p => if decide (p = 0) then 1 else p
           | None => 1
           end
    ∧ size = Z.min match opt_limit options with
                   | Some l => if decide (l = 0) then 20 else l
                   | None => 20
                   end 100
    ∧ 1 ≤ size ≤ 100
    ∧ matching
      = List.filter (ImageService.list_filter appID options) (images w)
    ∧ sorted ≡ₚ matching
    ∧ StronglySorted newest_first sorted
    ∧ page_images
      = take (Z.to_nat size) (drop (Z.to_nat ((page - 1) * size)) sorted)
    ∧ ImageService.list o appID options w
      = (Returned (page_images, Z.of_nat (length matching)), w)
    ∧ StronglySorted newest_first page_images
    ∧ (length page_images ≤ 100)%nat
    ∧ Forall (λ d, d ∈ images w ∧ AppID d = appID ∧ Status d = ACTIVE)
        page_images
    ∧ (opt_tags options = None → opt_search options = None →
       ∀ d, d ∈ matching ↔
            d ∈ images w ∧ AppID d = appID ∧ Status d = ACTIVE).
Proof.
  intros Hpage Hlimit Hsearch.
  set (page := ImageService.list_page options).
  set (size := ImageService.list_limit options).
  set (matching :=
         List.filter (ImageService.list_filter appID options) (images w)).
  set (sorted := sort_createdAt o matching).
  assert (Hp : page = match opt_page options with
                      | Some p => if decide (p = 0) then 1 else p
                      | None => 1
                      end ∧ 1 ≤ page).
  { unfold page, ImageService.list_page, or_number.
    destruct (opt_page options) as [p|] eqn:Hp; [|done].
    specialize (Hpage p eq_refl).
    case_bool_decide; case_decide; try done. lia. }
  assert (Hs : size = Z.min match opt_limit options with
                            | Some l => if decide (l = 0) then 20 else l
                            | None => 20
                            end 100 ∧ 1 ≤ size ≤ 100).
  { unfold size, ImageService.list_limit, or_number.
    destruct (opt_limit options) as [l|] eqn:Hl; [|split; [done|lia]].
    specialize (Hlimit l eq_refl).
    case_bool_decide; case_decide; try done; split; try done; lia. }
  destruct Hp as [Hp Hp1]. destruct Hs as [Hs Hs1].
  assert (Hsorted : StronglySorted newest_first sorted)
    by apply sort_createdAt_sorted.
  assert (Hin : ∀ d, d ∈ matching ↔
            d ∈ images w
            ∧ ImageService.list_filter appID options d = true).
  { intros d. unfold matching.
    by rewrite !list_elem_of_In, List.filter_In. }
  exists page, size, matching, sorted,
    (take (Z.to_nat size) (drop (Z.to_nat ((page - 1) * size)) sorted)).
  split_and!; try done; try lia.
  - apply sort_createdAt_Permutation.
  - unfold ImageService.list. unfold_monad.
    rewrite (check_regex_run options w Hsearch).
    fold matching. fold sorted.
    unfold cursor_skip, cursor_limit, ImageService.list_skip.
    fold page. fold size. unfold_monad.
    rewrite bool_decide_eq_false_2 by nia.
    rewrite bool_decide_eq_false_2 by lia.
    by rewrite Z.abs_eq by lia.
  - eapply StronglySorted_app_1_l. erewrite take_drop.
    eapply StronglySorted_app_1_r. erewrite take_drop. done.
  - rewrite length_take. lia.
  - apply Forall_take, Forall_drop, Forall_forall. intros d Hd.
    assert (d ∈ matching) as [? Hf]%Hin
      by (by rewrite <-(sort_createdAt_Permutation o matching)).
    split; [done|]. by eapply list_filter_sound.
  - intros Ht Hsr d. rewrite Hin.
    by rewrite (list_filter_unfiltered _ _ _ Ht Hsr).
Qed.
End ListClaims.

(** C8, as the claim states it, fails outside that domain. On 120
    active records of one tenant, a page size of minus 101 gives an
    effective size of minus 101, which the store reads as 101: the
    page holds 101 records, more than the cap of 100. A page number of
    minus 1 gives a negative skip, and a pattern that does not compile
    gives an invalid query: the store rejects both, and [list] returns
    nothing. *)
Lemma list_negative_limit_counterexample :
  ImageService.list_limit Sample.minus_101 = -101
  ∧ (∃ page_images,
       @ImageService.list Sample.runtime (Sample.oracle "f00d" 2000) "shop"
         Sample.minus_101 Sample.throng
       = (Returned (page_images, 120), Sample.throng)
       ∧ length page_images = 101%nat)
  ∧ (∃ e, @ImageService.list Sample.runtime (Sample.oracle "f00d" 2000)
            "shop" Sample.page_minus_one Sample.throng
          = (Threw e, Sample.throng))
  ∧ (∃ e, @ImageService.list Sample.runtime (Sample.oracle "f00d" 2000)
            "shop" Sample.open_parenthesis Sample.throng
          = (Threw e, Sample.throng)).
Proof.
  split_and!; [reflexivity|..].
  - eexists. split; [vm_compute; reflexivity|reflexivity].
  - eexists. vm_compute. reflexivity.
  - eexists. vm_compute. reflexivity.
Qed.

(** The pagination example of the specification: 25 active records,
    limit 20, page 2 gives 5 records and a total of 25. *)
Lemma list_returns_active_page_witness :
  ∃ page_images,
    @ImageService.list Sample.runtime (Sample.oracle "f00d" 2000) "shop"
      Sample.page_two Sample.crowd
    = (Returned (page_images, 25), Sample.crowd)
    ∧ length page_images = 5%nat
    ∧ createdAt <$> page_images = [4; 3; 2; 1; 0].
Proof.
  destruct (@list_returns_active_page Sample.runtime
              (Sample.oracle "f00d" 2000) "shop" Sample.page_two
              Sample.crowd)
    as (page & size & matching & sorted & page_images & _ & _ & _ & _ & _
        & _ & _ & Hrun & _).
  - intros p [= <-]. lia.
  - intros l [= <-]. lia.
  - intros s [=].
  - exists page_images.
    destruct (@ImageService.list Sample.runtime (Sample.oracle "f00d" 2000)
                "shop" Sample.page_two Sample.crowd) as [r w'] eqn:Heval.
    vm_compute in Heval. rewrite <-Heval in Hrun.
    injection Hrun as <- _. rewrite <-Heval.
    split_and!; [vm_compute; reflexivity | reflexivity | reflexivity].
Defined.

(** ** Uploader and tenant *)

Section UploaderClaims.
Context `{Runtime}.



(** The three ways [list] can end. *)
Lemma list_run o appID options w :
  let matching :=
    List.filter (ImageService.list_filter appID options) (images w) in
  ImageService.list o appID options w
  = if truthy_string (opt_search options)
       && negb (regex_valid (default EmptyString (opt_search options)))
    then (Threw (InternalError "Regular expression is invalid"), w)
    else if bool_decide (ImageService.list_skip options < 0)
    then (Threw (InternalError "skip must be non-negative"), w)
    else (Returned
            (cursor_limit (ImageService.list_limit options)
               (drop (Z.to_nat (ImageService.list_skip options))
                  (sort_createdAt o matching)),
             Z.of_nat (length matching)), w).
Proof.
  unfold ImageService.list, ImageService.check_regex, cursor_skip.
  unfold_monad.
  destruct (truthy_string _ && negb _); [done|].
  by case_bool_decide.
Qed.

Lemma list_world o appID options w r w' :
  ImageService.list o appID options w = (r, w') → w' = w.
Proof.
  rewrite list_run. cbv zeta.
  by repeat case_match; intros [= _ <-].
Qed.

(** What [list] returns when it returns. *)
Lemma list_returned o appID options w page_images total w' :
  ImageService.list o appID options w
  = (Returned (page_images, total), w') →
  w' = w
  ∧ total
    = Z.of_nat
        (length (List.filter (ImageService.list_filter appID options)
                   (images w)))
  ∧ page_images
    ⊆ List.filter (ImageService.list_filter appID options) (images w).
Proof.
  rewrite list_run. cbv zeta.
  destruct (truthy_string _ && negb _); [done|].
  case_bool_decide; [done|]. intros [= <- <- <-].
  split_and!; try done.
  intros d Hd. rewrite <-(sort_createdAt_Permutation o).
  revert Hd. unfold cursor_limit. case_bool_decide; intros Hd.
  - by apply subseteq_drop in Hd.
  - by apply subseteq_take, subseteq_drop in Hd.
Qed.

Lemma delete_images imageID w r w' :
  ImageService.delete imageID w = (r, w') →
  images w' = images w
  ∨ images w'
    = update_first (has_id imageID) (set_Status DELETED) (images w).
Proof.
  destruct (List.find (is_active imageID) (images w)) as [d|] eqn:Hact.
  - destruct (delete_run _ _ _ Hact) as (w2 & Him & _ & _ & ->).
    rewrite rmSync_run.
    repeat case_match; intros [= _ <-]; right; done.
  - rewrite delete_not_found by done. intros [= _ <-]. by left.
Qed.

Lemma Forall_update_first (P : IImage → Prop) q set docs :
  (∀ d, P d → P (set d)) →
  Forall P docs → Forall P (update_first q set docs).
Proof.
  intros Hset. induction 1 as [|x docs Hx Hdocs IH]; simpl; [done|].
  destruct (q x); constructor; auto.
Qed.

Lemma FileInterceptor_run file w :
  ImageController.FileInterceptor file w
  = (match file with
     | Some f =>
         if bool_decide (ImageController.fileSize ≤ size f)
         then Threw file_too_large
         else Returned (Some f)
     | None => Returned None
     end, w).
Proof.
  unfold ImageController.FileInterceptor. unfold_monad.
  destruct file as [f|]; [|done]. by case_bool_decide.
Qed.



End UploaderClaims.


(** ** Unique identifiers are kept *)

Section UniqueIds.
Context `{Runtime}.

(** An upload whose generated identifier is fresh keeps identifiers
    unique; updates and deletes never touch identifiers. *)
Lemma upload_unique_ids o appID uploadedBy file metadata w r w' :
  unique_ids w →
  randomUUID o ∉ ImageID <$> images w →
  ImageService.upload o appID uploadedBy file metadata w = (r, w') →
  unique_ids w'.
Proof.
  unfold unique_ids. intros Huniq Hfresh Hrun.
  destruct file as [f|]; [|by injection Hrun as _ <-].
  destruct (decide (mimetype f ∈ MIME_TYPES)) as [Hmime|Hmime]; last first.
  { unfold ImageService.upload in Hrun.
    rewrite bool_decide_eq_false_2 in Hrun by done.
    by injection Hrun as _ <-. }
  destruct (upload_run o appID uploadedBy f metadata w Hmime)
    as (w1 & Hdir & Heq).
  destruct (getAppDir_run appID w) as (w1' & Hdir' & Him & _).
  rewrite Hdir in Hdir'. injection Hdir' as <-.
  rewrite Heq in Hrun. cbv zeta in Hrun.
  repeat case_match; injection Hrun as _ <-; simpl; rewrite Him;
    try done.
  rewrite fmap_app. apply NoDup_app. split_and!; [done| |].
  - intros x Hx ->%list_elem_of_singleton. done.
  - apply NoDup_singleton.
Qed.

Lemma updateMetadata_unique_ids imageID updates w r w' :
  unique_ids w →
  ImageService.updateMetadata imageID updates w = (r, w') →
  unique_ids w'.
Proof.
  unfold unique_ids. intros Huniq. rewrite updateMetadata_run.
  destruct (List.find _ _); intros [= _ <-]; simpl; [|done].
  by rewrite update_first_ids.
Qed.

Lemma delete_unique_ids imageID w r w' :
  unique_ids w →
  ImageService.delete imageID w = (r, w') →
  unique_ids w'.
Proof.
  unfold unique_ids. intros Huniq [-> | ->]%delete_images; [done|].
  by rewrite update_first_ids.
Qed.
End UniqueIds.

(** * Further properties *)

(** ** Reading back what was written *)

Section ReadBack.
Context `{Runtime}.

Lemma find_app_fresh {A} (q : A → bool) (l : list A) (x : A) :
  (∀ y, y ∈ l → q y = false) → q x = true →
  List.find q (l ++ [x]) = Some x.
Proof.
  intros Hl Hx. induction l as [|y l IH]; simpl; [by rewrite Hx|].
  rewrite (Hl y) by left. apply IH. intros z Hz. apply Hl. by right.
Qed.

(** When the tenant's directory exists, [getAppDir] changes nothing. *)
Lemma getAppDir_existing appID w :
  existsSync (app_dir appID) (disk w) = true →
  ImageService.getAppDir appID w = (Returned (app_dir appID), w).
Proof.
  intros Hex. unfold ImageService.getAppDir. fold (app_dir appID).
  unfold_monad. by rewrite Hex.
Qed.

Lemma getFilePath_run imageID w :
  ImageService.getFilePath imageID w
  = match List.find (is_active imageID) (images w) with
    | None => (Threw (NotFoundException "Image not found"), w)
    | Some d =>
        let w1 := (ImageService.getAppDir (AppID d) w).2 in
        if existsSync (file_path d) (disk w1)
        then (Returned (file_path d), w1)
        else (Threw (NotFoundException "Image file not found on disk"), w1)
    end.
Proof.
  unfold ImageService.getFilePath. unfold_monad. rewrite getByID_run.
  destruct (List.find _ _) as [d|]; [|done].
  destruct (getAppDir_run (AppID d) w) as (w1 & -> & _). simpl.
  unfold file_path. by destruct (existsSync _ _).
Qed.

(** X1. A record returned by [upload] under a fresh identifier can be
    read back at once: [getByID] returns that very record, and
    [getFilePath] returns the path of its file, which holds the
    uploaded bytes; neither read changes the world. *)
Theorem upload_then_read (o : Oracle) (appID uploadedBy : string)
    (f : MulterFile) (metadata : Metadata) (w w' : World) (image : IImage) :
  randomUUID o ∉ ImageID <$> images w →
  ImageService.upload o appID uploadedBy (Some f) metadata w
  = (Returned image, w') →
  ImageService.getByID (ImageID image) w' = (Returned image, w')
  ∧ ImageService.getFilePath (ImageID image) w'
    = (Returned (file_path image), w')
  ∧ files (disk w') !! file_path image = Some (buffer f).
Proof.
  intros Hfresh Hrun.
  destruct (decide (mimetype f ∈ MIME_TYPES)) as [Hmime|Hmime]; last first.
  { unfold ImageService.upload in Hrun.
    rewrite bool_decide_eq_false_2 in Hrun by done. discriminate. }
  destruct (upload_run o appID uploadedBy f metadata w Hmime)
    as (w1 & Hdir & Heq).
  destruct (getAppDir_run appID w)
    as (w1' & Hdir' & Him & _ & Hfiles & _ & Hdirs & Hex & _).
  rewrite Hdir in Hdir'. injection Hdir' as <-.
  rewrite Heq in Hrun. clear Heq. cbv zeta in Hrun.
  repeat case_match; simplify_eq.
  set (image := ImageService.new_ImageModel _ _ _ _ _ _ _).
  match goal with
  | |- context [ImageService.getByID _ ?w0] => set (w' := w0)
  end.
  assert (Hfind : List.find (is_active (ImageID image)) (images w')
                  = Some image).
  { change (images w') with (images w1 ++ [image]).
    apply find_app_fresh.
    - intros y Hy. unfold is_active.
      rewrite bool_decide_eq_false_2; [done|].
      intros Hid. apply Hfresh. rewrite <-Him.
      change (ImageID image) with (randomUUID o) in Hid.
      rewrite <-Hid. by apply list_elem_of_fmap_2.
    - unfold is_active. by rewrite !bool_decide_eq_true_2. }
  assert (Hfile : files (disk w') !! file_path image = Some (buffer f)).
  { change (files (disk w'))
      with (<[upload_filePath o appID f := buffer f]> (files (disk w1))).
    change (file_path image) with (upload_filePath o appID f).
    by rewrite lookup_insert_eq. }
  assert (Hdir' : existsSync (app_dir appID) (disk w') = true).
  { unfold existsSync in *.
    change (dirs (disk w')) with (dirs (disk w1)).
    apply orb_true_iff in Hex as [Hd|Hf]; apply orb_true_iff;
      [by left|right].
    apply bool_decide_eq_true in Hf. apply bool_decide_eq_true.
    change (files (disk w'))
      with (<[upload_filePath o appID f := buffer f]> (files (disk w1))).
    destruct (decide (upload_filePath o appID f = app_dir appID)) as [->|?].
    - rewrite lookup_insert_eq. eauto.
    - by rewrite lookup_insert_ne. }
  split_and!; [| |done].
  - by rewrite getByID_run, Hfind.
  - rewrite getFilePath_run, Hfind. cbv zeta.
    change (AppID image) with appID.
    rewrite getAppDir_existing by done. cbn [snd].
    assert (existsSync (file_path image) (disk w') = true) as ->; [|done].
    unfold existsSync. rewrite Hfile.
    rewrite (bool_decide_eq_true_2 (is_Some (Some _))) by eauto.
    by rewrite orb_true_r.
Qed.
End ReadBack.

Lemma upload_then_read_witness :
  @ImageService.getByID "f00d" Sample.cat_upload.2
  = (Returned Sample.cat_image, Sample.cat_upload.2)
  ∧ @ImageService.getFilePath Sample.runtime "f00d" Sample.cat_upload.2
    = (Returned "/srv/uploads/shop/f00d.png", Sample.cat_upload.2)
  ∧ files (disk Sample.cat_upload.2) !! "/srv/uploads/shop/f00d.png"
    = Some [Byte.x89].
Proof.
  apply (@upload_then_read Sample.runtime (Sample.oracle "f00d" 2000)
           "shop" "shop" Sample.cat Sample.no_metadata Sample.one_image
           Sample.cat_upload.2 Sample.cat_image).
  - vm_compute. intros [?|?%elem_of_nil]%elem_of_cons; [discriminate|done].
  - vm_compute. reflexivity.
Defined.

(** ** Reads of the file path, and reads after writes *)

Section ReadFacts.
Context `{Runtime}.

(** X2. [getFilePath] never touches records, files or keys (it can only
    create the tenant's directory). It returns a path only for an
    active record, and then something exists at that path; otherwise it
    throws a [NotFound]: 'Image not found' exactly when no active
    record carries the identifier, and 'Image file not found on disk'
    when the record is active but nothing is at its path. *)
Theorem getFilePath_outcomes (imageID : string) (w w' : World)
    (r : Result string) :
  ImageService.getFilePath imageID w = (r, w') →
  images w' = images w
  ∧ files (disk w') = files (disk w)
  ∧ apiKeys w' = apiKeys w
  ∧ match r with
    | Returned p =>
        ∃ d, List.find (is_active imageID) (images w) = Some d
             ∧ p = file_path d
             ∧ existsSync p (disk w') = true
    | Threw e =>
        error_kind e = Some NotFound
        ∧ (e = NotFoundException "Image not found"
           ↔ List.find (is_active imageID) (images w) = None)
    end
  ∧ (∀ d, List.find (is_active imageID) (images w) = Some d →
          existsSync (file_path d) (disk w) = false →
          file_path d ≠ app_dir (AppID d) →
          r = Threw (NotFoundException "Image file not found on disk")).
Proof.
  rewrite getFilePath_run.
  destruct (List.find (is_active imageID) (images w)) as [d|] eqn:Hact.
  - destruct (getAppDir_run (AppID d) w)
      as (w1 & Hdir & Him & Hkeys & Hfiles & Hsub & _).
    rewrite Hdir. cbv zeta. cbn [snd].
    destruct (existsSync (file_path d) (disk w1)) eqn:Hex;
      intros [= <- <-].
    + split_and!; [done | done | done | eauto |].
      intros d' [= <-] Hmiss Hne. exfalso.
      unfold existsSync in *. rewrite Hfiles in Hex.
      apply orb_false_iff in Hmiss as [Hd%bool_decide_eq_false Hf].
      rewrite Hf, orb_false_r in Hex. apply bool_decide_eq_true in Hex.
      apply Hsub in Hex.
      apply elem_of_union in Hex as [?%elem_of_singleton|?]; done.
    + split_and!; done.
  - intros [= <- <-]. split_and!; done.
Qed.

(** After a successful delete no active record carries the
    identifier. *)
Lemma delete_makes_inactive imageID w w' :
  unique_ids w →
  ImageService.delete imageID w = (Returned tt, w') →
  List.find (is_active imageID) (images w') = None.
Proof.
  intros Huniq Hrun.
  destruct (List.find (is_active imageID) (images w)) as [d|] eqn:Hact;
    [|by rewrite delete_not_found in Hrun].
  assert (Him : images w'
                = update_first (has_id imageID) (set_Status DELETED)
                    (images w)).
  { apply delete_images in Hrun as Hcase.
    destruct (delete_run _ _ _ Hact) as (w2 & Him2 & _ & _ & Heq).
    rewrite Heq, rmSync_run in Hrun.
    repeat case_match; simplify_eq; done. }
  pose proof (find_is_active_Some _ _ _ Hact) as (Hin & Hid & Hst).
  destruct (find_has_id_of_active _ _ _ Hact) as [d0 Hd0].
  assert (d0 = d) as -> by eauto using find_has_id_unique.
  destruct (update_first_split imageID (set_Status DELETED) _ _ Hd0)
    as (before & after & Hdocs & Hb & _ & Hup).
  rewrite Hup in Him.
  apply find_is_active_None. intros x Hx Hxid. rewrite Him in Hx.
  apply elem_of_app in Hx as [Hx|[->|Hx]%elem_of_cons].
  - by destruct (Hb x Hx).
  - done.
  - exfalso. unfold unique_ids in Huniq.
    rewrite Hdocs, fmap_app, fmap_cons in Huniq.
    apply NoDup_app in Huniq as (_ & _ & [Hnotin _]%NoDup_cons).
    apply Hnotin. rewrite Hid, <-Hxid. by apply list_elem_of_fmap_2.
Qed.

(** X3. With unique identifiers, a get-metadata right after an update
    returns the record the update returned. *)
Theorem update_then_get (imageID : string) (updates : Metadata)
    (w w' : World) (r : option IImage) :
  unique_ids w →
  ImageService.updateMetadata imageID updates w = (Returned r, w') →
  ∃ d', r = Some d'
        ∧ ImageService.getByID imageID w' = (Returned d', w').
Proof.
  intros Huniq. rewrite updateMetadata_run.
  destruct (List.find (is_active imageID) (images w)) as [a|] eqn:Hact;
    [|done].
  cbv zeta. intros [= <- <-].
  pose proof (find_is_active_Some _ _ _ Hact) as (Hin & Hid & Hst).
  destruct (find_has_id_of_active _ _ _ Hact) as [d Hd].
  assert (d = a) as -> by eauto using find_has_id_unique.
  destruct (update_first_split imageID (setFields updates) _ _ Hd)
    as (before & after & Hdocs & Hb & _ & Hup).
  rewrite Hup. exists (setFields updates a).
  assert (Hq : ∀ (q : IImage → bool),
            (∀ x, x ∈ before → q x = false) → q (setFields updates a) = true →
            List.find q (before ++ setFields updates a :: after)
            = Some (setFields updates a)).
  { intros q Hbq Hqa. clear Hup Hdocs Hb.
    induction before as [|x before IH]; simpl; [by rewrite Hqa|].
    rewrite (Hbq x) by left. apply IH. intros y Hy. apply Hbq. by right. }
  split.
  - f_equal. apply Hq.
    + intros x Hx. unfold has_id. apply bool_decide_eq_false_2. auto.
    + unfold has_id. by apply bool_decide_eq_true_2.
  - rewrite getByID_run. simpl. rewrite Hq; [done| |].
    + intros x Hx. unfold is_active.
      rewrite bool_decide_eq_false_2; [done|auto].
    + unfold is_active. simpl. by rewrite !bool_decide_eq_true_2.
Qed.

(** X4. With unique identifiers, after a successful delete the file
    route's lookup fails with 'Image not found', and no page of any
    listing, whatever the tenant and the options, holds a record with
    that identifier. *)
Theorem delete_then_unreachable (imageID : string) (w w' : World) :
  unique_ids w →
  ImageService.delete imageID w = (Returned tt, w') →
  ImageService.getFilePath imageID w'
  = (Threw (NotFoundException "Image not found"), w')
  ∧ (∀ o appID options page_images total w'',
       ImageService.list o appID options w'
       = (Returned (page_images, total), w'') →
       ∀ d, d ∈ page_images → ImageID d ≠ imageID).
Proof.
  intros Huniq Hrun.
  pose proof (delete_makes_inactive _ _ _ Huniq Hrun) as Hgone.
  split; [by rewrite getFilePath_run, Hgone|].
  intros o appID options page_images total w''.
  intros (_ & _ & Hsub)%list_returned d Hd Hid.
  assert (Hm : d ∈ List.filter (ImageService.list_filter appID options)
                     (images w')) by by apply Hsub.
  apply list_elem_of_In, List.filter_In in Hm as [Hin Hf].
  apply list_filter_sound in Hf as [_ Hst].
  apply list_elem_of_In in Hin.
  by eapply (proj1 (find_is_active_None _ _) Hgone).
Qed.
End ReadFacts.

Lemma getFilePath_outcomes_witness :
  images (@ImageService.getFilePath Sample.runtime "0a1b" Sample.one_image).2
  = images Sample.one_image
  ∧ files
      (disk (@ImageService.getFilePath Sample.runtime "0a1b"
               Sample.one_image).2)
    = files (disk Sample.one_image).
Proof.
  destruct (@getFilePath_outcomes Sample.runtime "0a1b" Sample.one_image
              (@ImageService.getFilePath Sample.runtime "0a1b"
                 Sample.one_image).2
              (@ImageService.getFilePath Sample.runtime "0a1b"
                 Sample.one_image).1)
    as (Him & Hfiles & _).
  - vm_compute. reflexivity.
  - by split.
Defined.

Lemma update_then_get_witness :
  ∃ d', Description d' = "x"
        ∧ @ImageService.getByID "0a1b"
            (ImageService.updateMetadata "0a1b" (Sample.describe "x")
               Sample.one_image).2
          = (Returned d',
             (ImageService.updateMetadata "0a1b" (Sample.describe "x")
                Sample.one_image).2).
Proof.
  destruct (update_then_get "0a1b" (Sample.describe "x") Sample.one_image
              (ImageService.updateMetadata "0a1b" (Sample.describe "x")
                 Sample.one_image).2
              (Some (setFields (Sample.describe "x") Sample.logo_image)))
    as (d' & [= <-] & Hget).
  - vm_compute. apply NoDup_singleton.
  - vm_compute. reflexivity.
  - eexists. split; [|exact Hget]. reflexivity.
Defined.

Lemma delete_then_unreachable_witness :
  @ImageService.getFilePath Sample.runtime "0a1b" Sample.one_deleted
  = (Threw (NotFoundException "Image not found"), Sample.one_deleted).
Proof.
  apply (@delete_then_unreachable Sample.runtime "0a1b" Sample.one_image
           Sample.one_deleted).
  - vm_compute. apply NoDup_singleton.
  - vm_compute. reflexivity.
Defined.

(** ** The guard and the routes *)

Section RouteFacts.
Context `{Runtime}.

(** X5. Authentication looks only at active keys: a header is accepted
    exactly when it is non-empty, the first active key whose stored
    digest equals the digest of the header exists, and that key passes
    the permission check; the record handed to the handler is that
    key. In particular a header whose matching keys are all revoked is
    refused with 'Invalid or inactive API key' whatever the
    permission. *)
Theorem canActivate_accepts (x_api_key : option string)
    (required : option Z) (w : World) (keyRecord : IApiKey) :
  (canActivate x_api_key required w = (Returned keyRecord, w)
   ↔ ∃ key, x_api_key = Some key
            ∧ key ≠ EmptyString
            ∧ List.find (λ k, bool_decide (Key k = hashKey key) && Active k)
                (apiKeys w) = Some keyRecord
            ∧ (truthy_number required = false
               ∨ hasApiPermission (Permissions keyRecord)
                   (default 0 required) = true))
  ∧ (∀ key,
       key ≠ EmptyString →
       (∀ k, k ∈ apiKeys w → Key k = hashKey key → Active k = false) →
       canActivate (Some key) required w
       = (Threw (UnauthorizedException "Invalid or inactive API key"), w)).
Proof.
  split.
  - unfold canActivate, canActivate_permission, ApiKeyModel_findOne.
    unfold_monad. split.
    + destruct x_api_key as [key|]; simpl; [|done].
      case_bool_decide; simpl; [done|].
      destruct (List.find _ _) as [k|] eqn:Hf; [|done].
      destruct (truthy_number required) eqn:Ht; simpl;
        [destruct (hasApiPermission _ _) eqn:Hp; simpl|];
        intros [= <-]; try done; exists key; eauto 10.
    + intros (key & -> & Hne & Hf & Hperm). simpl.
      rewrite bool_decide_eq_false_2 by done. simpl. rewrite Hf.
      destruct Hperm as [-> | ->]; [done|].
      by rewrite andb_false_r.
  - intros key Hne Hrevoked.
    unfold canActivate, ApiKeyModel_findOne. unfold_monad. simpl.
    rewrite bool_decide_eq_false_2 by done. simpl.
    destruct (List.find _ _) as [k|] eqn:Hf; [|done].
    apply List.find_some in Hf as [Hin [Hk Ha]%andb_prop].
    apply bool_decide_eq_true in Hk. apply list_elem_of_In in Hin.
    rewrite (Hrevoked k Hin Hk) in Ha. done.
Qed.

(** X6. A request the guard refuses has no effect at all: on every
    route the handler is not run and the world is unchanged. *)
Theorem refused_request_changes_nothing (o : Oracle)
    (x_api_key : option string) (r : Request) (w w0 : World)
    (e : Exception) :
  canActivate x_api_key (ImageController.requiredPermission r) w
  = (Threw e, w0) →
  ImageController.handle o x_api_key r w = (Threw e, w)
  ∧ error_kind e = Some Unauthenticated.
Proof.
  intros Hguard. pose proof (canActivate_world _ _ _ _ _ Hguard) as ->.
  split; [|by eapply canActivate_threw].
  unfold ImageController.handle. unfold_monad. by rewrite Hguard.
Qed.

(** X7. The routes that address an image by identifier do not look at
    the caller's tenant: two accepted keys, of whatever applications,
    get the same response and leave the same world. *)
Theorem by_id_routes_ignore_tenant (o : Oracle) (key1 key2 : option string)
    (apiKey1 apiKey2 : IApiKey) (r : Request) (w : World) :
  by_id r = true →
  canActivate key1 (ImageController.requiredPermission r) w
  = (Returned apiKey1, w) →
  canActivate key2 (ImageController.requiredPermission r) w
  = (Returned apiKey2, w) →
  ImageController.handle o key1 r w = ImageController.handle o key2 r w.
Proof.
  intros Hby H1 H2. unfold ImageController.handle. unfold_monad.
  rewrite H1, H2. by destruct r.
Qed.
End RouteFacts.

Lemma refused_request_changes_nothing_witness :
  @ImageController.handle Sample.runtime (Sample.oracle "f00d" 2000)
    (Some "img_reader") (DELETE_image "0a1b") Sample.one_image
  = (Threw (UnauthorizedException "Insufficient permissions"),
     Sample.one_image)
  ∧ error_kind (UnauthorizedException "Insufficient permissions")
    = Some Unauthenticated.
Proof.
  apply (@refused_request_changes_nothing Sample.runtime
           (Sample.oracle "f00d" 2000) (Some "img_reader")
           (DELETE_image "0a1b") Sample.one_image Sample.one_image).
  vm_compute. reflexivity.
Defined.

(** The key of [gallery] reads the record that [shop] uploaded. *)
Lemma by_id_routes_ignore_tenant_witness :
  @ImageController.handle Sample.runtime (Sample.oracle "f00d" 2000)
    (Some "img_reader") (GET_image "0a1b") Sample.one_image
  = @ImageController.handle Sample.runtime (Sample.oracle "f00d" 2000)
      (Some "img_writer") (GET_image "0a1b") Sample.one_image
  ∧ (@ImageController.handle Sample.runtime (Sample.oracle "f00d" 2000)
       (Some "img_reader") (GET_image "0a1b") Sample.one_image).1
    = Returned (ImageJson Sample.logo_image).
Proof.
  split; [|vm_compute; reflexivity].
  apply (@by_id_routes_ignore_tenant Sample.runtime
           (Sample.oracle "f00d" 2000) (Some "img_reader")
           (Some "img_writer") Sample.reader Sample.writer
           (GET_image "0a1b") Sample.one_image);
    vm_compute; reflexivity.
Defined.

(** ** What the routes leave alone *)

Section FrameFacts.
Context `{Runtime}.

Lemma upload_frame o appID uploadedBy file metadata w r w' :
  ImageService.upload o appID uploadedBy file metadata w = (r, w') →
  apiKeys w' = apiKeys w
  ∧ (images w' = images w
     ∨ ∃ f, file = Some f
            ∧ mimetype f ∈ MIME_TYPES
            ∧ r = Returned
                    (ImageService.new_ImageModel o (randomUUID o) appID
                       (upload_fileName o f) f metadata uploadedBy)
            ∧ images w'
              = images w
                ++ [ImageService.new_ImageModel o (randomUUID o) appID
                      (upload_fileName o f) f metadata uploadedBy]).
Proof.
  destruct file as [f|]; [|intros [= <- <-]; split; [done|by left]].
  destruct (decide (mimetype f ∈ MIME_TYPES)) as [Hmime|Hmime].
  - destruct (upload_run o appID uploadedBy f metadata w Hmime)
      as (w1 & Hdir & ->).
    destruct (getAppDir_run appID w) as (w1' & Hdir' & Him & Hkeys & _).
    rewrite Hdir in Hdir'. injection Hdir' as <-. cbv zeta.
    repeat case_match; intros [= <- <-]; simpl; rewrite ?Him, ?Hkeys;
      (split; [done|]); eauto 10.
  - unfold ImageService.upload.
    rewrite bool_decide_eq_false_2 by done.
    intros [= <- <-]. split; [done|by left].
Qed.

Lemma getFilePath_frame imageID w r w' :
  ImageService.getFilePath imageID w = (r, w') →
  images w' = images w ∧ apiKeys w' = apiKeys w
  ∧ files (disk w') = files (disk w).
Proof.
  rewrite getFilePath_run.
  destruct (List.find _ _) as [d|]; [|by intros [= _ <-]].
  destruct (getAppDir_run (AppID d) w) as (w1 & -> & Him & Hk & Hf & _).
  cbv zeta. cbn [snd]. by case_match; intros [= _ <-].
Qed.

Lemma delete_apiKeys imageID w r w' :
  ImageService.delete imageID w = (r, w') → apiKeys w' = apiKeys w.
Proof.
  unfold ImageService.delete. unfold_monad. rewrite getByID_run.
  destruct (List.find _ _) as [d|]; [|by intros [= _ <-]].
  unfold ImageModel_updateOne. unfold_monad.
  match goal with
  | |- context [ImageService.getAppDir ?a ?w0] =>
      destruct (getAppDir_run a w0) as (w2 & -> & _ & Hk & _)
  end.
  simpl in Hk.
  destruct (existsSync _ _); [rewrite rmSync_run; case_bool_decide|];
    by intros [= _ <-].
Qed.

Lemma controller_upload_apiKeys o apiKey file t d a w r w' :
  ImageController.upload o apiKey file t d a w = (r, w') →
  apiKeys w' = apiKeys w.
Proof.
  unfold ImageController.upload. unfold_monad.
  destruct (truthy_string t); [destruct (JSON_parse _)|]; simpl;
    try (by intros [= _ <-]);
    by intros [? _]%upload_frame.
Qed.

Lemma handle_apiKeys o key r w :
  apiKeys (ImageController.handle o key r w).2 = apiKeys w.
Proof.
  unfold ImageController.handle. unfold_monad.
  destruct (canActivate key _ w) as [[e|apiKey] w0] eqn:Hguard;
    apply canActivate_world in Hguard as ->; [done|].
  destruct r as [file t d a|imageID|imageID|page limit t search
                |imageID body|imageID]; simpl.
  - rewrite FileInterceptor_run.
    destruct file as [f|]; simpl;
      [ destruct (bool_decide _); simpl; [ done | idtac ] | idtac ];
      (destruct (ImageController.upload _ _ _ _ _ _ w)
         as [[e|image] w1] eqn:Hup;
       by apply controller_upload_apiKeys in Hup).
  - unfold ImageController.getByID. rewrite getByID_run.
    by destruct (List.find _ _).
  - unfold ImageController.getFile. unfold_monad.
    destruct (ImageService.getFilePath imageID w) as [[e|p] w1] eqn:Hp;
      apply getFilePath_frame in Hp as (_ & Hk & _); simpl; [done|].
    rewrite getByID_run. by destruct (List.find _ _).
  - unfold ImageController.list.
    match goal with
    | |- context [ImageService.list ?o ?a ?b ?w0] =>
        destruct (ImageService.list o a b w0) as [[e|[imgs total]] w1] eqn:Hl
    end; apply list_world in Hl as ->; done.
  - unfold ImageController.update. rewrite updateMetadata_run.
    by destruct (List.find (is_active imageID) (images w)).
  - unfold ImageController.delete. unfold_monad.
    destruct (ImageService.delete imageID w) as [[e|[]] w1] eqn:Hd;
      by apply delete_apiKeys in Hd.
Qed.

(** X8. The HTTP interface never changes the key collection, over any
    sequence of requests; a [GET] request never changes a record or a
    file; and get-metadata and list leave the whole world as it was. *)
Theorem routes_frame (reqs : list (Oracle * option string * Request))
    (w : World) :
  apiKeys (serve reqs w) = apiKeys w
  ∧ (∀ o key r,
       is_get r = true →
       images (ImageController.handle o key r w).2 = images w
       ∧ files (disk (ImageController.handle o key r w).2)
         = files (disk w))
  ∧ (∀ o key imageID,
       (ImageController.handle o key (GET_image imageID) w).2 = w)
  ∧ (∀ o key page limit t search,
       (ImageController.handle o key (GET_list page limit t search) w).2
       = w).
Proof.
  split_and!.
  - revert w. induction reqs as [|[[o key] r] reqs IH]; [done|].
    intros w. simpl. by rewrite IH, handle_apiKeys.
  - intros o key r Hget. unfold ImageController.handle. unfold_monad.
    destruct (canActivate key _ w) as [[e|apiKey] w0] eqn:Hguard;
      apply canActivate_world in Hguard as ->; [done|].
    destruct r as [file t d a|imageID|imageID|page limit t search
                  |imageID body|imageID]; try done; simpl.
    + unfold ImageController.getByID. rewrite getByID_run.
      by destruct (List.find _ _).
    + unfold ImageController.getFile. unfold_monad.
      destruct (ImageService.getFilePath imageID w) as [[e|p] w1] eqn:Hp;
        apply getFilePath_frame in Hp as (Hi & _ & Hf); simpl; [done|].
      rewrite getByID_run. by destruct (List.find _ _).
    + unfold ImageController.list.
      match goal with
      | |- context [ImageService.list ?o ?a ?b ?w0] =>
          destruct (ImageService.list o a b w0) as [[e|[imgs total]] w1] eqn:Hl
      end; apply list_world in Hl as ->; done.
  - intros o key imageID. unfold ImageController.handle. unfold_monad.
    destruct (canActivate key _ w) as [[e|apiKey] w0] eqn:Hguard;
      apply canActivate_world in Hguard as ->; [done|]. simpl.
    unfold ImageController.getByID. rewrite getByID_run.
    by destruct (List.find _ _).
  - intros o key page limit t search.
    unfold ImageController.handle. unfold_monad.
    destruct (canActivate key _ w) as [[e|apiKey] w0] eqn:Hguard;
      apply canActivate_world in Hguard as ->; [done|]. simpl.
    unfold ImageController.list.
    match goal with
    | |- context [ImageService.list ?o ?a ?b ?w0] =>
        destruct (ImageService.list o a b w0) as [[e|[imgs total]] w1] eqn:Hl
    end; apply list_world in Hl as ->; done.
Qed.
End FrameFacts.

(** ** Listing *)

Section ListFacts.
Context `{Runtime}.

Lemma list_filter_matches appID options d :
  ImageService.list_filter appID options d = true
  ↔ matches_query appID options d.
Proof.
  unfold ImageService.list_filter, matches_query, truthy_string.
  rewrite !andb_true_iff, !bool_decide_eq_true.
  split.
  - intros [[[Ha Hs] Ht] Hq]. split_and!; try done.
    + destruct (opt_tags options) as [[|t ts]|]; try done.
      apply bool_decide_eq_true, Exists_exists in Ht. done.
    + destruct (opt_search options) as [s|]; [|done]. simpl in Hq.
      case_bool_decide; simpl in Hq; [by left|right].
      by apply orb_true_iff in Hq as [?%orb_true_iff|?]; intuition.
  - intros (Ha & Hs & Ht & Hq). split_and!; try done.
    + destruct (opt_tags options) as [[|t ts]|]; try done.
      apply bool_decide_eq_true, Exists_exists. done.
    + destruct (opt_search options) as [s|]; [|done]. simpl.
      case_bool_decide; simpl; [done|].
      destruct Hq as [ ? | [ -> | [ -> | -> ] ] ]; by rewrite ?orb_true_r.
Qed.

Lemma filter_sublist {A} (q : A → bool) (l : list A) :
  List.filter q l `sublist_of` l.
Proof.
  induction l as [|x l IH]; simpl; [done|].
  destruct (q x); by constructor.
Qed.

(** X9. Whenever [list] returns, every record of the page satisfies
    the query (tenant, active status, at least one of the given tags,
    the search pattern in description, original file name or alt
    text), and the total is the number of records of the collection
    that satisfy it; an empty array of tags and an empty search string
    filter nothing. *)
Theorem list_query_semantics (o : Oracle) (appID : string)
    (options : ListOptions) (w w' : World) (page_images : list IImage)
    (total : Z) :
  ImageService.list o appID options w
  = (Returned (page_images, total), w') →
  Forall (λ d, d ∈ images w ∧ matches_query appID options d) page_images
  ∧ (∃ matching,
       matching `sublist_of` images w
       ∧ (∀ d, d ∈ matching ↔ d ∈ images w ∧ matches_query appID options d)
       ∧ total = Z.of_nat (length matching))
  ∧ (opt_tags options = Some [] → opt_search options = Some EmptyString →
     ∀ d, matches_query appID options d ↔ AppID d = appID ∧ Status d = ACTIVE).
Proof.
  intros (-> & -> & Hsub)%list_returned.
  assert (Hin : ∀ d, d ∈ List.filter (ImageService.list_filter appID options)
                           (images w)
                     ↔ d ∈ images w ∧ matches_query appID options d).
  { intros d. by rewrite !list_elem_of_In, List.filter_In,
      list_filter_matches. }
  split_and!.
  - apply Forall_forall. intros d Hd. by apply Hin, Hsub.
  - eexists. split_and!; [apply filter_sublist | apply Hin | done].
  - intros Ht Hs d. unfold matches_query. rewrite Ht, Hs.
    split; [by intros (? & ? & _)|].
    intros [? ?]. split_and!; auto.
Qed.

(** X10. The list route is scoped to the caller: every record it
    returns is an active record of the collection whose tenant is the
    application name of an active key of the collection, the key that
    passed the guard; the world is unchanged. *)
Theorem list_route_is_tenant_scoped (o : Oracle) (key page limit t search
    : option string) (w w' : World) (page_images : list IImage) (total : Z) :
  ImageController.handle o key (GET_list page limit t search) w
  = (Returned (ListJson page_images total), w') →
  w' = w
  ∧ ∃ apiKey,
      canActivate key (Some PERM_READ) w = (Returned apiKey, w)
      ∧ apiKey ∈ apiKeys w
      ∧ Active apiKey = true
      ∧ Forall (λ d, d ∈ images w
                     ∧ AppID d = AppName apiKey
                     ∧ Status d = ACTIVE) page_images.
Proof.
  unfold ImageController.handle. unfold_monad.
  destruct (canActivate key _ w) as [[e|apiKey] w0] eqn:Hguard; [done|].
  pose proof (canActivate_returned _ _ _ _ _ Hguard) as (-> & Hin & Hact).
  simpl in *. unfold ImageController.list.
  match goal with
  | |- context [ImageService.list ?o ?a ?b ?w0] =>
      destruct (ImageService.list o a b w0) as [[e|[imgs tot]] w1] eqn:Hl
  end; [done|].
  intros [= <- <- <-].
  apply list_returned in Hl as (-> & _ & Hsub).
  split; [done|]. exists apiKey. split_and!; try done.
  apply Forall_forall. intros d Hd%Hsub.
  apply list_elem_of_In, List.filter_In in Hd as [Hd Hf].
  apply list_filter_sound in Hf as [? ?].
  by rewrite list_elem_of_In.
Qed.

(** With no two matching documents created at the same instant, the
    sorted query has one possible result. *)
Lemma sort_createdAt_unique o matching :
  NoDup (createdAt <$> matching) →
  sort_createdAt o matching = merge_sort newest_first matching.
Proof.
  intros Hnodup.
  apply (StronglySorted_unique_strong newest_first).
  - intros x1 x2 Hx1 Hx2 H12 H21.
    rewrite sort_createdAt_Permutation in Hx1.
    rewrite merge_sort_Permutation in Hx2.
    apply list_elem_of_lookup in Hx1 as [i Hi].
    apply list_elem_of_lookup in Hx2 as [k Hk].
    assert (i = k) as ->; [|congruence].
    apply (NoDup_lookup _ _ _ (createdAt x1) Hnodup).
    + by rewrite list_lookup_fmap, Hi.
    + rewrite list_lookup_fmap, Hk. simpl. f_equal.
      unfold newest_first in *. lia.
  - apply sort_createdAt_sorted.
  - apply (StronglySorted_merge_sort newest_first).
  - by rewrite sort_createdAt_Permutation, merge_sort_Permutation.
Qed.

(** X11. Consecutive pages tile the sorted result when no two matching
    records were created at the same instant: for a page number of at
    least 1, a size that is not negative and a search pattern that
    the server compiles, page [p] followed by page [p + 1], in
    whatever order each of the two queries meets the documents, is the
    slice of twice the size that starts where page [p] starts in the
    one newest-first ordering of the matching records, and both report
    the same total. *)
Theorem list_pages_tile (o1 o2 : Oracle) (appID : string)
    (options : ListOptions) (p : Z) (w : World) :
  1 ≤ p →
  (∀ l, opt_limit options = Some l → 0 ≤ l) →
  (∀ s, opt_search options = Some s →
        s = EmptyString ∨ regex_valid s = true) →
  NoDup (createdAt <$> List.filter (ImageService.list_filter appID options)
                         (images w)) →
  ∃ this next total,
    ImageService.list o1 appID (on_page p options) w
    = (Returned (this, total), w)
    ∧ ImageService.list o2 appID (on_page (p + 1) options) w
      = (Returned (next, total), w)
    ∧ this ++ next
      = take (2 * Z.to_nat (ImageService.list_limit options))
          (drop (Z.to_nat ((p - 1) * ImageService.list_limit options))
             (merge_sort newest_first
                (List.filter (ImageService.list_filter appID options)
                   (images w))))
    ∧ (length this ≤ Z.to_nat (ImageService.list_limit options) ≤ 100)%nat.
Proof.
  intros Hp Hl Hsearch Hnodup.
  set (size := ImageService.list_limit options).
  assert (Hsize : 1 ≤ size ≤ 100).
  { unfold size, ImageService.list_limit, or_number.
    destruct (opt_limit options) as [l|] eqn:Heq; [|lia].
    specialize (Hl l eq_refl). case_bool_decide; lia. }
  set (sorted := merge_sort newest_first
                   (List.filter (ImageService.list_filter appID options)
                      (images w))).
  assert (Hrun : ∀ o q, 1 ≤ q →
            ImageService.list o appID (on_page q options) w
            = (Returned (take (Z.to_nat size)
                           (drop (Z.to_nat ((q - 1) * size)) sorted),
                         Z.of_nat (length (List.filter
                           (ImageService.list_filter appID options)
                           (images w)))), w)).
  { intros o q Hq. rewrite list_run. cbv zeta.
    change (ImageService.list_filter appID (on_page q options))
      with (ImageService.list_filter appID options).
    change (ImageService.list_limit (on_page q options)) with size.
    change (opt_search (on_page q options)) with (opt_search options).
    assert (ImageService.list_skip (on_page q options) = (q - 1) * size)
      as ->.
    { unfold ImageService.list_skip, ImageService.list_page. simpl.
      rewrite bool_decide_eq_false_2 by lia. done. }
    assert (truthy_string (opt_search options)
            && negb (regex_valid (default EmptyString (opt_search options)))
            = false) as ->.
    { unfold truthy_string.
      destruct (opt_search options) as [s|]; [|done].
      destruct (Hsearch s eq_refl) as [->|Hv]; [done|].
      simpl. rewrite Hv. by rewrite andb_false_r. }
    rewrite bool_decide_eq_false_2 by nia.
    unfold cursor_limit.
    rewrite bool_decide_eq_false_2 by lia.
    rewrite Z.abs_eq by lia.
    by rewrite sort_createdAt_unique. }
  eexists _, _, _. split_and!.
  - by apply Hrun.
  - apply Hrun. lia.
  - replace (Z.to_nat ((p + 1 - 1) * size))
      with (Z.to_nat ((p - 1) * size) + Z.to_nat size)%nat by nia.
    rewrite <-drop_drop.
    replace (2 * Z.to_nat size)%nat
      with (Z.to_nat size + Z.to_nat size)%nat by lia.
    by rewrite take_take_drop.
  - rewrite length_take. lia.
  - lia.
Qed.
End ListFacts.

Lemma list_query_semantics_witness :
  Forall (λ d, d ∈ images Sample.crowd
               ∧ @matches_query Sample.runtime "shop" Sample.page_two d)
    crowd_page_two.
Proof.
  destruct (@list_query_semantics Sample.runtime (Sample.oracle "f00d" 2000)
              "shop" Sample.page_two Sample.crowd Sample.crowd crowd_page_two
              25) as [Hall _].
  - vm_compute. reflexivity.
  - exact Hall.
Defined.

Lemma list_route_is_tenant_scoped_witness :
  Forall (λ d, AppID d = "shop") crowd_page_two.
Proof.
  destruct (@list_route_is_tenant_scoped Sample.runtime
              (Sample.oracle "f00d" 2000) (Some "img_writer") (Some "2")
              None None None Sample.crowd Sample.crowd crowd_page_two 25)
    as (_ & apiKey & Hguard & _ & _ & Hall).
  - vm_compute. reflexivity.
  - vm_compute in Hguard. injection Hguard as <-.
    eapply Forall_impl; [exact Hall|]. by intros d (_ & ? & _).
Defined.

Lemma list_pages_tile_witness :
  ∃ this next total,
    @ImageService.list Sample.runtime (Sample.oracle "f00d" 2000) "shop"
      (on_page 1 Sample.page_two) Sample.crowd
    = (Returned (this, total), Sample.crowd)
    ∧ @ImageService.list Sample.runtime Sample.backwards "shop"
        (on_page 2 Sample.page_two) Sample.crowd
      = (Returned (next, total), Sample.crowd)
    ∧ length (this ++ next) = 25%nat.
Proof.
  destruct (@list_pages_tile Sample.runtime (Sample.oracle "f00d" 2000)
              Sample.backwards "shop" Sample.page_two 1 Sample.crowd)
    as (this & next & total & H1 & H2 & Happ & _).
  - lia.
  - intros l [= <-]. lia.
  - intros s [=].
  - apply (bool_decide_unpack _). vm_compute. exact I.
  - exists this, next, total. split_and!; [done | done |].
    rewrite Happ. vm_compute. reflexivity.
Defined.

(** Without that hypothesis the pages need not tile: of two records
    created at the same instant, the one that the first query meets
    first and the second query meets last is on page 1 and on page 2
    of size 1, and the other is on neither. *)
Lemma list_pages_overlap_on_ties :
  @ImageService.list Sample.runtime (Sample.oracle "f00d" 2000) "shop"
    (on_page 1 Sample.one_by_one) Sample.twins
  = (Returned ([Sample.twin "A"], 2), Sample.twins)
  ∧ @ImageService.list Sample.runtime Sample.backwards "shop"
      (on_page 2 Sample.one_by_one) Sample.twins
    = (Returned ([Sample.twin "A"], 2), Sample.twins).
Proof. split; vm_compute; reflexivity. Qed.

(** ** What the HTTP interface stores *)

Section StoredFacts.
Context `{Runtime}.


Lemma controller_upload_frame o apiKey file t d a w r w' :
  ImageController.upload o apiKey file t d a w = (r, w') →
  images w' = images w
  ∨ ∃ f metadata,
      mimetype f ∈ MIME_TYPES
      ∧ images w'
        = images w
          ++ [ImageService.new_ImageModel o (randomUUID o) (AppName apiKey)
                (upload_fileName o f) f metadata (AppName apiKey)].
Proof.
  unfold ImageController.upload. unfold_monad.
  destruct (truthy_string t); [destruct (JSON_parse _)|]; simpl;
    try (by intros [= _ <-]; left);
    intros [_ [?|(f & _ & ? & _ & ?)]]%upload_frame; eauto.
Qed.

Lemma handle_get_images o key r w :
  is_get r = true →
  images (ImageController.handle o key r w).2 = images w.
Proof.
  intros Hget. unfold ImageController.handle. unfold_monad.
  destruct (canActivate key _ w) as [[e|apiKey] w0] eqn:Hguard;
    apply canActivate_world in Hguard as ->; [done|].
  destruct r as [file t d a|imageID|imageID|page limit t search
                |imageID body|imageID]; try done; simpl.
  - unfold ImageController.getByID. rewrite getByID_run.
    by destruct (List.find _ _).
  - unfold ImageController.getFile. unfold_monad.
    destruct (ImageService.getFilePath imageID w) as [[e|p] w1] eqn:Hp;
      apply getFilePath_frame in Hp as (Hi & _ & _); simpl; [done|].
    rewrite getByID_run. by destruct (List.find _ _).
  - unfold ImageController.list.
    match goal with
    | |- context [ImageService.list ?o ?a ?b ?w0] =>
        destruct (ImageService.list o a b w0) as [[e|[imgs total]] w1] eqn:Hl
    end; apply list_world in Hl as ->; done.
Qed.

(** How one request changes the image collection. *)
Lemma handle_images_cases o key r w :
  images (ImageController.handle o key r w).2 = images w
  ∨ (∃ apiKey f metadata,
       mimetype f ∈ MIME_TYPES
       ∧ images (ImageController.handle o key r w).2
         = images w
           ++ [ImageService.new_ImageModel o (randomUUID o) (AppName apiKey)
                 (upload_fileName o f) f metadata (AppName apiKey)])
  ∨ (∃ imageID updates,
       images (ImageController.handle o key r w).2
       = update_first (has_id imageID) (setFields updates) (images w))
  ∨ (∃ imageID,
       images (ImageController.handle o key r w).2
       = update_first (has_id imageID) (set_Status DELETED) (images w)).
Proof.
  destruct r as [file t d a|imageID|imageID|page limit t search
                |imageID body|imageID].
  - unfold ImageController.handle. unfold_monad.
    destruct (canActivate key _ w) as [[e|apiKey] w0] eqn:Hguard;
      apply canActivate_world in Hguard as ->; [by left|].
    rewrite FileInterceptor_run.
    destruct file as [f|]; simpl;
      [ destruct (bool_decide _); simpl; [ by left | idtac ] | idtac ];
      (destruct (ImageController.upload _ _ _ _ _ _ w)
         as [[e|image] w1] eqn:Hup; simpl;
       (apply controller_upload_frame in Hup as [?|(f' & m & ? & ?)];
        [by left | right; left; eauto 10])).
  - left. by apply handle_get_images.
  - left. by apply handle_get_images.
  - left. by apply handle_get_images.
  - unfold ImageController.handle. unfold_monad.
    destruct (canActivate key _ w) as [[e|apiKey] w0] eqn:Hguard;
      apply canActivate_world in Hguard as ->; [by left|]. simpl.
    unfold ImageController.update. rewrite updateMetadata_run.
    destruct (List.find (is_active imageID) (images w)); simpl;
      [right; right; left; eauto | by left].
  - unfold ImageController.handle. unfold_monad.
    destruct (canActivate key _ w) as [[e|apiKey] w0] eqn:Hguard;
      apply canActivate_world in Hguard as ->; [by left|]. simpl.
    unfold ImageController.delete. unfold_monad.
    destruct (ImageService.delete imageID w) as [[e|[]] w1] eqn:Hd;
      simpl;
      (apply delete_images in Hd as [->| ->];
       [by left | right; right; right; eauto]).
Qed.

(** X12. Over any sequence of HTTP requests, starting from a collection
    in which every record has an allow-listed MIME type and a file name
    that begins with its identifier (the empty one in particular), every
    record still has both: uploads create only such records, and updates
    and deletes keep identifier, file name and MIME type. *)
Theorem stored_records_well_named
    (reqs : list (Oracle * option string * Request)) (w : World) :
  Forall well_named (images w) →
  Forall well_named (images (serve reqs w)).
Proof.
  revert w. induction reqs as [|[[o key] r] reqs IH]; [done|].
  intros w Hinv. simpl. apply IH.
  destruct (handle_images_cases o key r w)
    as [->|[(apiKey & f & m & Hmime & ->)|[(id & u & ->)|(id & ->)]]].
  - done.
  - apply Forall_app. split; [done|]. apply Forall_singleton.
    split; [done|]. by exists (ImageService.upload_ext f).
  - by apply Forall_update_first.
  - by apply Forall_update_first.
Qed.

End StoredFacts.

Lemma stored_records_well_named_witness :
  Forall well_named
    (images (@serve Sample.runtime Sample.session Sample.fresh)).
Proof.
  apply (@stored_records_well_named Sample.runtime Sample.session
           Sample.fresh).
  vm_compute. constructor.
Defined.


(** ** The key collection under the scripts *)

Section KeyCollection.
Implicit Types (keys : list IApiKey) (q : IApiKey → bool).

Lemma update_first_key_split q set keys k :
  List.find q keys = Some k →
  ∃ before after,
    keys = before ++ k :: after
    ∧ (∀ x, x ∈ before → q x = false)
    ∧ q k = true
    ∧ update_first_key q set keys = before ++ set k :: after.
Proof.
  induction keys as [|x keys IH]; [done|]. simpl.
  destruct (q x) eqn:Hx.
  - intros [= ->]. exists [], keys. split_and!; try done.
    by intros ? ?%elem_of_nil.
  - intros Hf. destruct (IH Hf) as (before & after & -> & Hb & Hk & Hup).
    exists (x :: before), after. rewrite Hup. split_and!; try done.
    intros y [->|Hy]%elem_of_cons; auto.
Qed.

Lemma update_first_key_none q set keys :
  List.find q keys = None → update_first_key q set keys = keys.
Proof.
  induction keys as [|x keys IH]; [done|]. simpl.
  destruct (q x); [done|]. intros Hf. by rewrite IH.
Qed.

Lemma matchedCount_find q keys :
  matchedCount q keys
  = match List.find q keys with Some _ => 1 | None => 0 end.
Proof.
  unfold matchedCount. induction keys as [|x keys IH]; [done|]. simpl.
  by destruct (q x).
Qed.

(** An update that keeps names and never activates a key keeps at most
    one active key per application. *)
Lemma update_first_key_one_active q set keys :
  (∀ k, AppName (set k) = AppName k) →
  (∀ k, Active (set k) = true → Active k = true) →
  one_active_per_app keys →
  one_active_per_app (update_first_key q set keys).
Proof.
  intros Hname Hact Hone.
  destruct (List.find q keys) as [k|] eqn:Hf;
    [|by rewrite update_first_key_none].
  destruct (update_first_key_split q set keys k Hf)
    as (before & after & -> & _ & _ & ->).
  assert (Hlook : ∀ i a, (before ++ set k :: after) !! i = Some a →
            ∃ a0, (before ++ k :: after) !! i = Some a0
                  ∧ AppName a = AppName a0
                  ∧ (Active a = true → Active a0 = true)).
  { intros i a. destruct (decide (i < length before)%nat).
    - rewrite !lookup_app_l by done. eauto.
    - rewrite !lookup_app_r by lia.
      destruct (i - length before)%nat; simpl; [|eauto].
      intros [= <-]. eauto. }
  intros i j a b Hi Hj Ha Hb Hab.
  destruct (Hlook i a Hi) as (a0 & Hi0 & Hna & Haa).
  destruct (Hlook j b Hj) as (b0 & Hj0 & Hnb & Hbb).
  eapply Hone; eauto. congruence.
Qed.
End KeyCollection.

Section ScriptFacts.
Context `{Runtime}.

Lemma revoke_main_run arg rest apiKeyID keys :
  parseInt arg = Some apiKeyID →
  RevokeApiKey.main (arg :: rest) keys
  = match List.find (has_ApiKeyID apiKeyID) keys with
    | None =>
        ({| exit_code := 1; stdout := [];
            stderr := ["API key " +:+ pretty apiKeyID +:+ " not found."]
         |}, keys)
    | Some _ =>
        ({| exit_code := 0;
            stdout := ["API key " +:+ pretty apiKeyID
                       +:+ " has been revoked."];
            stderr := [] |},
         update_first_key (has_ApiKeyID apiKeyID) (set_Active false) keys)
    end.
Proof.
  intros Hparse. unfold RevokeApiKey.main. rewrite Hparse.
  rewrite matchedCount_find.
  destruct (List.find _ _) eqn:Hf; [done|].
  by rewrite update_first_key_none.
Qed.

Lemma update_main_run arg name names apiKeyID permissions keys :
  parseInt arg = Some apiKeyID →
  PermissionNames.parse 0 (name :: names) = inr permissions →
  UpdateApiKey.main (arg :: name :: names) keys
  = match List.find (has_ApiKeyID apiKeyID) keys with
    | None =>
        ({| exit_code := 1; stdout := [];
            stderr := ["API key " +:+ pretty apiKeyID +:+ " not found."]
         |}, keys)
    | Some _ =>
        ({| exit_code := 0;
            stdout := ["API key " +:+ pretty apiKeyID
                       +:+ " updated. New permissions: "
                       +:+ String.concat ", "
                             (PermissionNames.permList permissions)];
            stderr := [] |},
         update_first_key (has_ApiKeyID apiKeyID)
           (set_Permissions permissions) keys)
    end.
Proof.
  intros Hparse Hperm. unfold UpdateApiKey.main. rewrite Hparse, Hperm.
  rewrite matchedCount_find.
  destruct (List.find _ _) eqn:Hf; [done|].
  by rewrite update_first_key_none.
Qed.

(** X14. The three key scripts are all-or-nothing: a run ends with
    code 0 or 1, and a run that ends with code 1 (usage, an identifier
    that is not a number, an unknown permission name, an unknown key,
    an application that already has an active key) leaves the key
    collection exactly as it was. *)
Theorem scripts_fail_without_change (o : KeyOracle) (args : list string)
    (keys : list IApiKey) :
  (exit_code (RevokeApiKey.main args keys).1 = 0
   ∨ exit_code (RevokeApiKey.main args keys).1 = 1
     ∧ (RevokeApiKey.main args keys).2 = keys)
  ∧ (exit_code (UpdateApiKey.main args keys).1 = 0
     ∨ exit_code (UpdateApiKey.main args keys).1 = 1
       ∧ (UpdateApiKey.main args keys).2 = keys)
  ∧ (exit_code (CreateApiKey.main o args keys).1 = 0
     ∨ exit_code (CreateApiKey.main o args keys).1 = 1
       ∧ (CreateApiKey.main o args keys).2 = keys).
Proof.
  split_and!.
  - destruct args as [|arg rest]; [by right|].
    destruct (parseInt arg) as [id|] eqn:Hp.
    + rewrite (revoke_main_run _ _ _ _ Hp).
      destruct (List.find _ _); [by left|by right].
    + unfold RevokeApiKey.main. rewrite Hp. by right.
  - destruct args as [|arg [|name names]]; [by right..|].
    destruct (parseInt arg) as [id|] eqn:Hp.
    + destruct (PermissionNames.parse 0 (name :: names)) as [p|perms] eqn:Hn.
      * unfold UpdateApiKey.main. rewrite Hp, Hn. by right.
      * rewrite (update_main_run _ _ _ _ _ _ Hp Hn).
        destruct (List.find _ _); [by left|by right].
    + unfold UpdateApiKey.main. rewrite Hp. by right.
  - unfold CreateApiKey.main.
    destruct args as [|appName permArgs]; [by right|].
    destruct (match permArgs with [] => _ | _ => _ end); [by right|].
    destruct (List.find _ _); [by right|by left].
Qed.
End ScriptFacts.

Section ScriptClaims.
Context `{Runtime}.

Lemma find_first_match {A} (q : A → bool) (before after : list A) (x : A) :
  (∀ y, y ∈ before → q y = false) → q x = true →
  List.find q (before ++ x :: after) = Some x.
Proof.
  intros Hb Hx. induction before as [|y before IH]; simpl; [by rewrite Hx|].
  rewrite (Hb y) by left. apply IH. intros z Hz. apply Hb. by right.
Qed.

Lemma canActivate_invalid key required w :
  key ≠ EmptyString →
  (∀ k, k ∈ apiKeys w → Key k = hashKey key → Active k = false) →
  canActivate (Some key) required w
  = (Threw (UnauthorizedException "Invalid or inactive API key"), w).
Proof.
  intros Hne Hrevoked.
  unfold canActivate, ApiKeyModel_findOne. unfold_monad. simpl.
  rewrite bool_decide_eq_false_2 by done. simpl.
  destruct (List.find _ _) as [k|] eqn:Hf; [|done].
  apply List.find_some in Hf as [Hin [Hk Ha]%andb_prop].
  apply bool_decide_eq_true in Hk. apply list_elem_of_In in Hin.
  rewrite (Hrevoked k Hin Hk) in Ha. done.
Qed.

Lemma find_has_ApiKeyID_None apiKeyID keys k :
  List.find (has_ApiKeyID apiKeyID) keys = None →
  k ∈ keys → ApiKeyID k ≠ apiKeyID.
Proof.
  intros Hnone Hin%list_elem_of_In Hid.
  pose proof (List.find_none _ _ Hnone k Hin) as Hq.
  unfold has_ApiKeyID in Hq. by rewrite bool_decide_eq_true_2 in Hq.
Qed.

(** X15. Revoking a key by its identifier, with identifiers unique:
    the collection keeps its length and every key with another
    identifier; and a secret whose digest belongs only to keys with the
    revoked identifier is from then on refused by the guard with
    'Invalid or inactive API key', on every route. *)
Theorem revoke_then_refused (arg : string) (rest : list string)
    (apiKeyID : Z) (keys : list IApiKey) (key : string)
    (required : option Z) (w : World) :
  parseInt arg = Some apiKeyID →
  key ≠ EmptyString →
  NoDup (ApiKeyID <$> keys) →
  (∀ k, k ∈ keys → Key k = hashKey key → ApiKeyID k = apiKeyID) →
  canActivate (Some key) required
    (with_apiKeys (RevokeApiKey.main (arg :: rest) keys).2 w)
  = (Threw (UnauthorizedException "Invalid or inactive API key"),
     with_apiKeys (RevokeApiKey.main (arg :: rest) keys).2 w)
  ∧ length (RevokeApiKey.main (arg :: rest) keys).2 = length keys
  ∧ (∀ i k, keys !! i = Some k → ApiKeyID k ≠ apiKeyID →
            (RevokeApiKey.main (arg :: rest) keys).2 !! i = Some k).
Proof.
  intros Hparse Hne Hnodup Hdigest.
  rewrite (revoke_main_run _ _ _ _ Hparse).
  destruct (List.find (has_ApiKeyID apiKeyID) keys) as [k0|] eqn:Hf;
    cbn [snd].
  - destruct (update_first_key_split _ (set_Active false) keys k0 Hf)
      as (before & after & -> & Hb & Hk0%bool_decide_eq_true & ->).
    split_and!.
    + apply canActivate_invalid; [done|]. simpl.
      intros k [Hk|[->|Hk]%elem_of_cons]%elem_of_app Hkey; [| done |].
      * assert (ApiKeyID k = apiKeyID) as Hid
          by (apply Hdigest; [apply elem_of_app; by left|done]).
        specialize (Hb k Hk). unfold has_ApiKeyID in Hb.
        by rewrite bool_decide_eq_true_2 in Hb.
      * assert (ApiKeyID k = apiKeyID) as Hid
          by (apply Hdigest;
              [apply elem_of_app; right; by right|done]).
        exfalso. rewrite fmap_app, fmap_cons in Hnodup.
        apply NoDup_app in Hnodup as (_ & _ & [Hnotin _]%NoDup_cons).
        apply Hnotin. rewrite Hk0, <-Hid. by apply list_elem_of_fmap_2.
    + by rewrite !length_app.
    + intros i k Hi Hid.
      destruct (decide (i < length before)%nat).
      * rewrite lookup_app_l in Hi |- * by done. done.
      * rewrite lookup_app_r in Hi |- * by lia.
        destruct (i - length before)%nat; simpl in *; [|done].
        by injection Hi as ->.
  - split_and!; try done.
    apply canActivate_invalid; [done|]. simpl.
    intros k Hk Hkey. exfalso.
    by eapply find_has_ApiKeyID_None; eauto.
Qed.

(** The mask the loop builds has exactly the bits of the named
    permissions, on top of the bits it started with. *)
Lemma parse_bits permissions names result n :
  PermissionNames.parse permissions names = inr result →
  Z.testbit result n = true
  ↔ Z.testbit permissions n = true
    ∨ ∃ p v, p ∈ names
             ∧ PermissionNames.get (toLowerCase p) = Own v
             ∧ Z.testbit v n = true.
Proof.
  revert permissions.
  induction names as [|p names IH]; intros permissions; simpl.
  - intros [= ->]. split; [by left|].
    by intros [?|(? & ? & ?%elem_of_nil & _)].
  - destruct (PermissionNames.get (toLowerCase p)) as [|v|] eqn:Hget;
      [done|..]; intros Hrun; rewrite (IH _ Hrun).
    + rewrite Z.lor_spec, orb_true_iff. split.
      * intros [[?|?]|(q & u & Hq & ? & ?)]; [by left|..].
        -- right. exists p, v. split_and!; [left|done..].
        -- right. exists q, u. split_and!; [by right|done..].
      * intros [?|(q & u & [->|Hq]%elem_of_cons & Hg & Hb)]; [by left; left|..].
        -- rewrite Hget in Hg. injection Hg as ->. by left; right.
        -- right. eauto.
    + split.
      * intros [?|(q & u & Hq & ? & ?)]; [by left|].
        right. exists q, u. split_and!; [by right|done..].
      * intros [?|(q & u & [->|Hq]%elem_of_cons & Hg & Hb)]; [by left|..].
        -- by rewrite Hget in Hg.
        -- right. eauto.
Qed.

(** X16. A successful permission update, for a numeric identifier and
    names that are all known: the new mask has exactly the bits of the
    named permissions (names are matched without regard to case), the
    first key with the identifier gets that mask, and every key keeps
    its identifier, application, digest and active flag: an update
    never re-activates a revoked key. Keys with another identifier are
    untouched. *)
Theorem update_sets_permissions (arg name : string) (names : list string)
    (apiKeyID permissions : Z) (keys : list IApiKey) :
  parseInt arg = Some apiKeyID →
  PermissionNames.parse 0 (name :: names) = inr permissions →
  (∀ n, Z.testbit permissions n = true
        ↔ ∃ p v, p ∈ name :: names
                 ∧ PermissionNames.get (toLowerCase p) = Own v
                 ∧ Z.testbit v n = true)
  ∧ (∀ k, List.find (has_ApiKeyID apiKeyID) keys = Some k →
          List.find (has_ApiKeyID apiKeyID)
            (UpdateApiKey.main (arg :: name :: names) keys).2
          = Some (set_Permissions permissions k))
  ∧ (∀ i k, keys !! i = Some k →
       ∃ k', (UpdateApiKey.main (arg :: name :: names) keys).2 !! i = Some k'
             ∧ ApiKeyID k' = ApiKeyID k
             ∧ AppName k' = AppName k
             ∧ Key k' = Key k
             ∧ Active k' = Active k
             ∧ (ApiKeyID k ≠ apiKeyID → k' = k)).
Proof.
  intros Hparse Hperm. split_and!.
  - intros n. rewrite (parse_bits _ _ _ n Hperm), Z.bits_0.
    split; [by intros [?|?]|by right].
  - intros k Hf. rewrite (update_main_run _ _ _ _ _ _ Hparse Hperm), Hf.
    cbn [snd].
    destruct (update_first_key_split _ (set_Permissions permissions) keys k Hf)
      as (before & after & -> & Hb & Hk & ->).
    by apply find_first_match.
  - intros i k Hi. rewrite (update_main_run _ _ _ _ _ _ Hparse Hperm).
    destruct (List.find (has_ApiKeyID apiKeyID) keys) as [k0|] eqn:Hf;
      cbn [snd]; [|by eauto 10].
    destruct (update_first_key_split _ (set_Permissions permissions) keys k0
                Hf) as (before & after & -> & Hb & Hk0%bool_decide_eq_true & ->).
    destruct (decide (i < length before)%nat).
    + rewrite lookup_app_l in Hi |- * by done. eauto 10.
    + rewrite lookup_app_r in Hi |- * by lia.
      destruct (i - length before)%nat; simpl in *; [|by eauto 10].
      injection Hi as <-. eexists. split_and!; try done.
Qed.
End ScriptClaims.

Lemma revoke_then_refused_witness :
  @canActivate Sample.runtime (Some "img_reader") (Some 1)
    (with_apiKeys
       (@RevokeApiKey.main Sample.runtime ["1"] (apiKeys Sample.one_image)).2
       Sample.one_image)
  = (Threw (UnauthorizedException "Invalid or inactive API key"),
     with_apiKeys
       (@RevokeApiKey.main Sample.runtime ["1"] (apiKeys Sample.one_image)).2
       Sample.one_image).
Proof.
  apply (@revoke_then_refused Sample.runtime "1" [] 1
           (apiKeys Sample.one_image) "img_reader" (Some 1)
           Sample.one_image).
  - reflexivity.
  - discriminate.
  - apply (bool_decide_unpack _). vm_compute. exact I.
  - intros k Hk Hkey. vm_compute in Hk.
    apply elem_of_cons in Hk as [->|Hk]; [reflexivity|].
    apply list_elem_of_singleton in Hk as ->. vm_compute in Hkey.
    discriminate.
Defined.

Lemma update_sets_permissions_witness :
  List.find (has_ApiKeyID 2)
    (@UpdateApiKey.main Sample.runtime ["2"; "READ"; "delete"]
       [Sample.reader; Sample.writer]).2
  = Some (set_Permissions 5 Sample.writer).
Proof.
  destruct (@update_sets_permissions Sample.runtime "2" "READ" ["delete"] 2 5
              [Sample.reader; Sample.writer]) as (_ & Hset & _).
  - reflexivity.
  - vm_compute. reflexivity.
  - apply Hset. reflexivity.
Defined.

Section NameFacts.
Context `{Runtime}.

End NameFacts.

Section CreateFacts.
Context `{Runtime}.

Lemma parse_known acc names :
  (∀ p, p ∈ names →
        toLowerCase p ∈ ["read"; "write"; "delete"; "admin"]%string) →
  ∃ permissions, PermissionNames.parse acc names = inr permissions.
Proof.
  revert acc. induction names as [|q names IH]; intros acc Hall;
    [by eexists|].
  simpl.
  assert (Hq : toLowerCase q ∈ ["read"; "write"; "delete"; "admin"]%string)
    by (apply Hall; left).
  assert (∃ v, PermissionNames.get (toLowerCase q) = Own v) as [v ->].
  { revert Hq. generalize (toLowerCase q). intros name.
    rewrite !elem_of_cons, elem_of_nil.
    intros [->|[->|[->|[->|[]]]]]; by eexists. }
  apply IH. intros p Hp. apply Hall. by right.
Qed.

(** The key the creation script saves. *)
Lemma create_main_cases o appName permArgs keys :
  (exit_code (CreateApiKey.main o (appName :: permArgs) keys).1 = 1
   ∧ (CreateApiKey.main o (appName :: permArgs) keys).2 = keys
   ∧ ((∃ p, permArgs ≠ [] ∧ PermissionNames.parse 0 permArgs = inl p)
      ∨ ∃ k, List.find (λ k, bool_decide (AppName k = appName) && Active k)
               keys = Some k))
  ∨ ∃ permissions,
      (permArgs = [] ∧ permissions = Z.lor PERM_READ PERM_WRITE
       ∨ permArgs ≠ [] ∧ PermissionNames.parse 0 permArgs = inr permissions)
      ∧ List.find (λ k, bool_decide (AppName k = appName) && Active k) keys
        = None
      ∧ exit_code (CreateApiKey.main o (appName :: permArgs) keys).1 = 0
      ∧ (CreateApiKey.main o (appName :: permArgs) keys).2
        = keys ++ [{| ApiKeyID := new_ApiKeyID o; AppName := appName;
                      Key := sha256_hex (CreateApiKey.rawKey o);
                      Permissions := permissions; Active := true |}].
Proof.
  unfold CreateApiKey.main.
  destruct permArgs as [|p0 permArgs].
  - destruct (List.find _ keys) as [k|] eqn:Hf.
    + left. split_and!; eauto.
    + right. eexists. split_and!; eauto.
  - destruct (PermissionNames.parse 0 (p0 :: permArgs)) as [p|perms] eqn:Hp.
    + left. split_and!; eauto.
    + destruct (List.find _ keys) as [k|] eqn:Hf.
      * left. split_and!; eauto.
      * right. eexists. split_and!; eauto.
Qed.

(** X18. Creating a key for an application, with permission names that
    are all among the four: when the application has no active key,
    the script exits with 0 and appends one active key that stores the
    SHA-256 digest of the raw key, never the raw key, with read and
    write as the default mask when no name is given; when the
    application already has an active key, the script exits with 1 and
    the collection is unchanged. *)
Theorem create_adds_one_key (o : KeyOracle) (appName : string)
    (permArgs : list string) (keys : list IApiKey) :
  (∀ p, p ∈ permArgs →
        toLowerCase p ∈ ["read"; "write"; "delete"; "admin"]%string) →
  ((∀ k, k ∈ keys → AppName k = appName → Active k = false) →
   ∃ permissions,
     (CreateApiKey.main o (appName :: permArgs) keys).2
     = keys ++ [{| ApiKeyID := new_ApiKeyID o; AppName := appName;
                   Key := sha256_hex ("img_" +:+ randomBytes_hex o);
                   Permissions := permissions; Active := true |}]
     ∧ exit_code (CreateApiKey.main o (appName :: permArgs) keys).1 = 0
     ∧ (permArgs = [] → permissions = Z.lor PERM_READ PERM_WRITE)
     ∧ (permArgs ≠ [] →
        PermissionNames.parse 0 permArgs = inr permissions))
  ∧ ((∃ k, k ∈ keys ∧ AppName k = appName ∧ Active k = true) →
     exit_code (CreateApiKey.main o (appName :: permArgs) keys).1 = 1
     ∧ (CreateApiKey.main o (appName :: permArgs) keys).2 = keys).
Proof.
  intros Hnames.
  destruct (parse_known 0 permArgs Hnames) as [perms0 Hperms0].
  destruct (create_main_cases o appName permArgs keys)
    as [(Hcode & Hkeys & Hwhy)|(perms & Hperms & Hnone & Hcode & Hkeys)].
  - split; [|done]. intros Hfree. exfalso.
    destruct Hwhy as [(p & _ & Hp)|(k & Hk)]; [congruence|].
    apply List.find_some in Hk
      as [Hin%list_elem_of_In [Hn%bool_decide_eq_true Ha]%andb_prop].
    by rewrite (Hfree k Hin Hn) in Ha.
  - split.
    + intros _. exists perms. split_and!; try done.
      * intros He. by destruct Hperms as [[_ ->]|[Hne _]].
      * intros Hne. by destruct Hperms as [[He _]|[_ ?]].
    + intros (k & Hin%list_elem_of_In & Hn & Ha). exfalso.
      pose proof (List.find_none _ _ Hnone k Hin) as Hq. simpl in Hq.
      by rewrite bool_decide_eq_true_2, Ha in Hq.
Qed.

(** X19. Each of the three key scripts keeps the invariant that an
    application has at most one active key. *)
Theorem scripts_keep_one_active_key (o : KeyOracle) (args : list string)
    (keys : list IApiKey) :
  one_active_per_app keys →
  one_active_per_app (RevokeApiKey.main args keys).2
  ∧ one_active_per_app (UpdateApiKey.main args keys).2
  ∧ one_active_per_app (CreateApiKey.main o args keys).2.
Proof.
  intros Hone. split_and!.
  - destruct args as [|arg rest]; [done|].
    destruct (parseInt arg) as [id|] eqn:Hp.
    + rewrite (revoke_main_run _ _ _ _ Hp).
      destruct (List.find _ _); [|done]. cbn [snd].
      by apply update_first_key_one_active.
    + unfold RevokeApiKey.main. by rewrite Hp.
  - destruct args as [|arg [|name names]]; [done..|].
    destruct (parseInt arg) as [id|] eqn:Hp.
    + destruct (PermissionNames.parse 0 (name :: names)) as [p|perms] eqn:Hn.
      * unfold UpdateApiKey.main. by rewrite Hp, Hn.
      * rewrite (update_main_run _ _ _ _ _ _ Hp Hn).
        destruct (List.find _ _); [|done]. cbn [snd].
        by apply update_first_key_one_active.
    + unfold UpdateApiKey.main. by rewrite Hp.
  - destruct args as [|appName permArgs]; [done|].
    destruct (create_main_cases o appName permArgs keys)
      as [(_ & -> & _)|(perms & _ & Hnone & _ & ->)]; [done|].
    assert (Hold : ∀ i a, keys !! i = Some a → Active a = true →
              AppName a ≠ appName).
    { intros i a Hi Ha Hn.
      apply list_elem_of_lookup_2, list_elem_of_In in Hi.
      pose proof (List.find_none _ _ Hnone a Hi) as Hq. simpl in Hq.
      by rewrite bool_decide_eq_true_2, Ha in Hq. }
    intros i j a b Hi Hj Ha Hb Hab.
    apply lookup_app_Some in Hi as [Hi|[Hil Hi]];
      apply lookup_app_Some in Hj as [Hj|[Hjl Hj]].
    + by eapply Hone.
    + apply list_lookup_singleton_Some in Hj as [_ <-]. simpl in Hab.
      by destruct (Hold i a Hi Ha).
    + apply list_lookup_singleton_Some in Hi as [_ <-]. simpl in Hab.
      by destruct (Hold j b Hj Hb).
    + apply list_lookup_singleton_Some in Hi as [Hi _].
      apply list_lookup_singleton_Some in Hj as [Hj _]. lia.
Qed.

(** X20. A key that the creation script has just saved authenticates:
    when no active key already stored the same digest, the guard
    accepts the raw key the script printed and hands the handler a
    record of the application the key was created for, subject only to
    the permission check of the route. *)
Theorem create_then_authenticate (o : KeyOracle) (appName : string)
    (permArgs : list string) (keys : list IApiKey)
    (required : option Z) (w : World) :
  exit_code (CreateApiKey.main o (appName :: permArgs) keys).1 = 0 →
  (∀ k, k ∈ keys → Key k = hashKey (CreateApiKey.rawKey o) →
        Active k = false) →
  ∃ apiKey,
    last (CreateApiKey.main o (appName :: permArgs) keys).2 = Some apiKey
    ∧ AppName apiKey = appName
    ∧ Active apiKey = true
    ∧ canActivate (Some (CreateApiKey.rawKey o)) required
        (with_apiKeys (CreateApiKey.main o (appName :: permArgs) keys).2 w)
      = canActivate_permission apiKey required
          (with_apiKeys (CreateApiKey.main o (appName :: permArgs) keys).2 w).
Proof.
  intros Hcode Hdigest.
  destruct (create_main_cases o appName permArgs keys)
    as [(Hone & _)|(perms & _ & _ & _ & Hkeys)]; [congruence|].
  rewrite Hkeys. eexists. split_and!; [by rewrite last_snoc|done|done|].
  unfold canActivate, ApiKeyModel_findOne. unfold_monad. simpl.
  rewrite find_app_fresh; [done| |].
  - intros k Hk. destruct (Active k) eqn:Ha; [|by rewrite andb_false_r].
    rewrite andb_true_r. apply bool_decide_eq_false_2. intros Hkey.
    by rewrite (Hdigest k Hk Hkey) in Ha.
  - simpl. unfold hashKey. by rewrite bool_decide_eq_true_2.
Qed.
End CreateFacts.

Lemma create_adds_one_key_witness :
  (@CreateApiKey.main Sample.runtime SampleKeys.oracle ["blog"; "READ"]
     SampleKeys.keys).2
  = SampleKeys.keys ++ [SampleKeys.blog].
Proof.
  destruct (@create_adds_one_key Sample.runtime SampleKeys.oracle "blog"
              ["READ"] SampleKeys.keys) as [Hadd _].
  - intros p ->%list_elem_of_singleton. vm_compute. left.
  - destruct Hadd as (permissions & Hkeys & _ & _ & Hperm).
    + intros k Hk Hn. vm_compute in Hk.
      apply elem_of_cons in Hk as [->|Hk]; [discriminate|].
      apply list_elem_of_singleton in Hk as ->. discriminate.
    + rewrite Hkeys. specialize (Hperm ltac:(discriminate)).
      vm_compute in Hperm. injection Hperm as <-. reflexivity.
Defined.

Lemma sample_keys_one_active : one_active_per_app SampleKeys.keys.
Proof.
  intros [|[|i]] [|[|j]] a b Hi Hj _ _ Hab; try done;
    vm_compute in Hi, Hj; simplify_eq; discriminate.
Defined.

Lemma scripts_keep_one_active_key_witness :
  one_active_per_app
    (@RevokeApiKey.main Sample.runtime ["1"] SampleKeys.keys).2
  ∧ one_active_per_app
      (@UpdateApiKey.main Sample.runtime ["1"] SampleKeys.keys).2
  ∧ one_active_per_app
      (@CreateApiKey.main Sample.runtime SampleKeys.oracle ["1"]
         SampleKeys.keys).2.
Proof.
  apply (@scripts_keep_one_active_key Sample.runtime SampleKeys.oracle ["1"]
           SampleKeys.keys).
  exact sample_keys_one_active.
Defined.

Lemma create_then_authenticate_witness :
  ∃ apiKey,
    AppName apiKey = "blog"
    ∧ @canActivate Sample.runtime (Some "img_c0ffee") (Some 1)
        (with_apiKeys
           (@CreateApiKey.main Sample.runtime SampleKeys.oracle
              ["blog"; "READ"] SampleKeys.keys).2 Sample.fresh)
      = (Returned apiKey,
         with_apiKeys
           (@CreateApiKey.main Sample.runtime SampleKeys.oracle
              ["blog"; "READ"] SampleKeys.keys).2 Sample.fresh).
Proof.
  destruct (@create_then_authenticate Sample.runtime SampleKeys.oracle
              "blog" ["READ"] SampleKeys.keys (Some 1) Sample.fresh)
    as (apiKey & Hlast & Hname & _ & Hguard).
  - reflexivity.
  - intros k Hk Hkey. vm_compute in Hk.
    apply elem_of_cons in Hk as [->|Hk]; [discriminate|].
    apply list_elem_of_singleton in Hk as ->. discriminate.
  - exists apiKey. split; [done|]. refine (eq_trans Hguard _).
    vm_compute in Hlast. injection Hlast as <-. vm_compute. reflexivity.
Defined.

(** ** The migration script *)

Section MigrateFacts.
Context `{Runtime}.
Variable mime_lookup : string → option string.

(** X21. For every path whose extension passes the filter of the
    directory scan, [getMimeType] yields a MIME type of the service's
    allow-list, without consulting [mime.lookup]; and the service's own
    extension for that type is the lower-cased extension of the path,
    with [.jpeg] normalised to [.jpg]. For any other path it yields
    what [mime.lookup] says, or [application/octet-stream]. *)
Theorem getMimeType_of_scanned (filePath : string) :
  (Migrate.is_image_file filePath = true →
   Migrate.getMimeType mime_lookup filePath ∈ MIME_TYPES
   ∧ ImageService.getExtFromMime (Migrate.getMimeType mime_lookup filePath)
     = ExtString
         (if bool_decide (toLowerCase (path_extname filePath) = ".jpeg")
          then ".jpg"
          else toLowerCase (path_extname filePath)))
  ∧ (Migrate.is_image_file filePath = false →
     Migrate.getMimeType mime_lookup filePath
     = or_string (mime_lookup filePath) "application/octet-stream").
Proof.
  unfold Migrate.is_image_file, Migrate.getMimeType, Migrate.mimeMap.
  generalize (toLowerCase (path_extname filePath)). intros ext.
  split.
  - intros Hin%bool_decide_eq_true. revert Hin.
    rewrite !elem_of_cons, elem_of_nil.
    intros [->|[->|[->|[->|[->|[->|[]]]]]]];
      (split; [apply (bool_decide_unpack _)|]; by vm_compute).
  - intros Hout%bool_decide_eq_false. revert Hout.
    rewrite !not_elem_of_cons. intros (? & ? & ? & ? & ? & ? & _). simpl.
    by rewrite !(bool_decide_eq_false_2 (_ = ext)) by done.
Qed.

Lemma letters_prefix_spec s :
  s = (letters_prefix s).1 +:+ (letters_prefix s).2
  ∧ all_letters (letters_prefix s).1 = true
  ∧ match (letters_prefix s).2 with
    | EmptyString => True
    | String c _ => is_letter c = false
    end.
Proof.
  induction s as [|c s (IH1 & IH2 & IH3)]; simpl; [done|].
  destruct (is_letter c) eqn:Hc; [|by split_and!].
  destruct (letters_prefix s) as [run rest]. simpl in *.
  split_and!; [by subst s | by rewrite Hc | done].
Qed.

Lemma letters_prefix_app run c rest :
  all_letters run = true → is_letter c = false →
  letters_prefix (run +:+ String c rest) = (run, String c rest).
Proof.
  intros Hrun Hc. induction run as [|a run IH]; simpl in *.
  - by rewrite Hc.
  - apply andb_prop in Hrun as [-> Hrun]. by rewrite IH.
Qed.

(** X22. The category of a legacy file name: the pattern
    [/^([A-Za-z]+)_/] captures a group exactly when the name is a
    non-empty run of ASCII letters followed by an underscore, and the
    group is that run; an orphan file then gets the tags [orphan] and
    the group in lower case, and just [orphan] when the pattern does
    not match. *)
Theorem legacy_match_spec (filename : string) :
  (∀ group,
     legacy_match filename = Some group
     ↔ group ≠ EmptyString
       ∧ all_letters group = true
       ∧ ∃ rest, filename = group +:+ String "_" rest)
  ∧ (∀ sourceID,
       Migrate.migration_tags filename orphan sourceID
       = "orphan"%string
         :: match legacy_match filename with
            | Some group => [toLowerCase group]
            | None => []
            end).
Proof.
  split; [|done]. intros group. split.
  - unfold legacy_match.
    destruct (letters_prefix_spec filename) as (Heq & Hrun & _).
    destruct (letters_prefix filename) as [[|c run] [|u rest]];
      try done. simpl in *.
    destruct (decide (u = "_"%char)) as [->|Hu]; last first.
    { destruct u as [[] [] [] [] [] [] [] []]; try done. }
    intros [= <-]. split_and!; [done|done|]. by exists rest.
  - intros (Hne & Hrun & rest & ->).
    unfold legacy_match. rewrite letters_prefix_app by done.
    by destruct group.
Qed.

Lemma statSync_size_run path w :
  statSync_size path w
  = match files (disk w) !! path with
    | Some data => (Returned (Z.of_nat (length data)), w)
    | None =>
        if bool_decide (path ∈ dirs (disk w)) then (Returned 0, w)
        else (Threw (InternalError "ENOENT"), w)
    end.
Proof.
  unfold statSync_size. unfold_monad.
  destruct (files (disk w) !! path); [done|]. by case_bool_decide.
Qed.

(** X23. [migrateFile] on a source file that exists, with a
    destination path that is not a directory and whose directory
    exists: it copies the bytes to the destination directory under the
    new identifier and the extension of the original name, leaving the
    source in place, and only then saves the record, which is active,
    belongs to the given application, has [migration] as uploader, the
    size of the source and the tags of its source; if the save is
    rejected, no record is created and the copy stays. When nothing is
    at the source path, or the directory of the destination is
    missing, it throws and changes nothing. *)
Theorem migrateFile_outcomes (o : Oracle)
    (filename sourceDir destDir appName : string) (source : Source)
    (sourceID : option Z) (w : World) :
  let sourcePath := path_join sourceDir filename in
  let newFilename := randomUUID o +:+ path_extname filename in
  let destPath := path_join destDir newFilename in
  (∀ data,
     files (disk w) !! sourcePath = Some data →
     destPath ∉ dirs (disk w) →
     path_dirname destPath ∈ dirs (disk w) →
     ∃ r w',
       Migrate.migrateFile mime_lookup o filename sourceDir destDir appName
         source sourceID w = (r, w')
       ∧ files (disk w') = <[destPath := data]> (files (disk w))
       ∧ (destPath ≠ sourcePath →
          files (disk w') !! sourcePath = Some data)
       ∧ if save_ok o
         then ∃ image,
                images w' = images w ++ [image]
                ∧ r = Returned
                        {| originalFilename := filename;
                           imageID := randomUUID o;
                           newFilename := newFilename;
                           source := source; sourceID := sourceID |}
                ∧ ImageID image = randomUUID o
                ∧ AppID image = appName
                ∧ FileName image = newFilename
                ∧ OriginalFileName image = filename
                ∧ MimeType image = Migrate.getMimeType mime_lookup sourcePath
                ∧ Size image = Z.of_nat (length data)
                ∧ Tags image
                  = Migrate.migration_tags filename source sourceID
                ∧ Status image = ACTIVE
                ∧ UploadedBy image = "migration"%string
                ∧ effects w'
                  = effects w ++ [FsWrite destPath; DbInsert (randomUUID o)]
         else (∃ e, r = Threw e)
              ∧ images w' = images w
              ∧ effects w' = effects w ++ [FsWrite destPath])
  ∧ (files (disk w) !! sourcePath = None →
     ∃ e, Migrate.migrateFile mime_lookup o filename sourceDir destDir
            appName source sourceID w = (Threw e, w))
  ∧ (path_dirname destPath ∉ dirs (disk w) →
     ∃ e, Migrate.migrateFile mime_lookup o filename sourceDir destDir
            appName source sourceID w = (Threw e, w)).
Proof.
  intros sourcePath newFilename destPath.
  unfold Migrate.migrateFile. fold sourcePath newFilename destPath.
  unfold_monad. rewrite statSync_size_run.
  split_and!.
  - intros data Hsrc Hdest Hdir. rewrite Hsrc.
    unfold copyFileSync, ImageModel_save. unfold_monad. rewrite Hsrc.
    rewrite bool_decide_eq_false_2 by done.
    rewrite (bool_decide_eq_true_2 _ Hdir). simpl.
    destruct (save_ok o); simpl.
    + eexists _, _. split_and!; [done | done | |].
      * intros Hne. simpl. by rewrite lookup_insert_ne.
      * eexists. split_and!; try done. simpl. by rewrite <-app_assoc.
    + eexists _, _.
      split_and!; try done;
        try (intros Hne; simpl; by rewrite lookup_insert_ne); eauto.
  - intros Hsrc. rewrite Hsrc.
    case_bool_decide; [|by eexists].
    unfold copyFileSync. unfold_monad. rewrite Hsrc. by eexists.
  - intros Hdir. unfold copyFileSync. unfold_monad.
    destruct (files (disk w) !! sourcePath) as [data|] eqn:Hsrc.
    + rewrite Hsrc. case_bool_decide; [by eexists|].
      rewrite (bool_decide_eq_false_2 _ Hdir). by eexists.
    + case_bool_decide; [|by eexists]. rewrite Hsrc. by eexists.
Qed.
End MigrateFacts.

Lemma migrateFile_outcomes_witness :
  ∃ r w',
    @Migrate.migrateFile Sample.runtime (λ _, None) (Sample.oracle "c0de" 5)
      "Generic_5.PNG" "/legacy" "/srv/uploads/shop" "shop" orphan None
      SampleKeys.legacy_disk = (r, w')
    ∧ files (disk w') !! "/srv/uploads/shop/c0de.PNG"%string
      = Some [Byte.x89; Byte.x50; Byte.x4e]
    ∧ ∃ image, images w' = [image]
               ∧ Tags image = ["orphan"; "generic"]%string.
Proof.
  destruct (@migrateFile_outcomes Sample.runtime (λ _, None)
              (Sample.oracle "c0de" 5) "Generic_5.PNG" "/legacy"
              "/srv/uploads/shop" "shop" orphan None SampleKeys.legacy_disk)
    as [Hcopy _].
  destruct (Hcopy [Byte.x89; Byte.x50; Byte.x4e])
    as (r & w' & Hrun & Hfiles & _ & image & Himages & _ & _ & _ & _ & _ & _
        & _ & Htags & _).
  - vm_compute. reflexivity.
  - apply (bool_decide_unpack _). vm_compute. exact I.
  - apply (bool_decide_unpack _). vm_compute. exact I.
  - exists r, w'. split_and!.
    + exact Hrun.
    + rewrite Hfiles. apply lookup_insert_eq.
    + exists image. split; [exact Himages|]. rewrite Htags.
      vm_compute. reflexivity.
Defined.

Lemma legacy_match_spec_witness :
  legacy_match "Generic_5.png" = Some "Generic"%string
  ∧ @Migrate.migration_tags "Generic_5.png" orphan None
    = ["orphan"; "generic"]%string.
Proof.
  destruct (legacy_match_spec "Generic_5.png") as [Hmatch Htags].
  split; [|by rewrite Htags].
  apply Hmatch. split_and!; [done | done | by exists "5.png"%string].
Defined.

(** ** The [main] of the migration *)

Section MigrateMainFacts.
Context `{Runtime}.
Variable mime_lookup : string → option string.
Variable render_error : Exception → string.
Variable readdirSync : list string.
Variable oracles : nat → Oracle.
Variable connect_ok : bool.
Variable find_ok : bool.
Variable updateOne_ok : nat → bool.
Variable close_ok : bool.

Lemma migrateFile_returned o filename sourceDir destDir appName source0
    sourceID0 w r w' :
  Migrate.migrateFile mime_lookup o filename sourceDir destDir appName
    source0 sourceID0 w = (Returned r, w') →
  ∃ d, images w' = images w ++ [d]
       ∧ migrated appName r d
       ∧ originalFilename r = filename
       ∧ source r = source0
       ∧ sourceID r = sourceID0.
Proof.
  unfold Migrate.migrateFile. unfold_monad. rewrite statSync_size_run.
  unfold copyFileSync, ImageModel_save. unfold_monad.
  destruct (files (disk w) !! path_join sourceDir filename) eqn:Hsrc.
  - rewrite Hsrc. case_bool_decide; [done|].
    case_bool_decide; [|done]. simpl.
    destruct (save_ok o); [|done]. simpl. intros [= <- <-].
    eexists. split; [done|]. by split_and!.
  - case_bool_decide; [|done]. by rewrite Hsrc.
Qed.

Lemma migrate_referenced_returned db sourceDir destDir appName n todo w
    results w' :
  MigrateMain.migrate_referenced mime_lookup oracles db sourceDir destDir
    appName n todo w = (Returned results, w') →
  ∃ news, images w' = images w ++ news
          ∧ Forall2 (migrated appName) results news
          ∧ originalFilename <$> results = todo
          ∧ Forall (λ r, ∃ id, sourceID r = Some id
                               ∧ map_get (originalFilename r)
                                   (MigrateMain.referencedFiles db)
                                 = Some (source r, id)) results.
Proof.
  revert n w results. induction todo as [|f todo IH]; intros n w results.
  - intros [= <- <-]. exists []. by rewrite app_nil_r.
  - simpl. destruct (map_get f _) as [[src id]|] eqn:Hget; [|done].
    unfold_monad.
    destruct (Migrate.migrateFile _ _ _ _ _ _ _ _ w) as [[e|r] w1] eqn:Hone;
      [done|].
    destruct (MigrateMain.migrate_referenced _ _ _ _ _ _ _ _ w1)
      as [[e|rs] w2] eqn:Hrest; [done|].
    intros [= <- <-].
    apply migrateFile_returned in Hone as (d & Him & Hm & Hf & Hs & Hi).
    apply IH in Hrest as (news & Him2 & Hall & Hnames & Hrefs).
    exists (d :: news). split_and!.
    + by rewrite Him2, Him, <-app_assoc.
    + by constructor.
    + by rewrite fmap_cons, Hf, Hnames.
    + constructor; [|done]. exists id. simpl in *. by rewrite Hi, Hf, Hs.
Qed.

Lemma migrate_orphans_returned sourceDir destDir appName n todo w results
    w' :
  MigrateMain.migrate_orphans mime_lookup oracles sourceDir destDir appName n
    todo w = (Returned results, w') →
  ∃ news, images w' = images w ++ news
          ∧ Forall2 (migrated appName) results news
          ∧ originalFilename <$> results = todo
          ∧ Forall (λ r, source r = orphan) results.
Proof.
  revert n w results. induction todo as [|f todo IH]; intros n w results.
  - intros [= <- <-]. exists []. by rewrite app_nil_r.
  - simpl. unfold_monad.
    destruct (Migrate.migrateFile _ _ _ _ _ _ _ _ w) as [[e|r] w1] eqn:Hone;
      [done|].
    destruct (MigrateMain.migrate_orphans _ _ _ _ _ _ _ w1)
      as [[e|rs] w2] eqn:Hrest; [done|].
    intros [= <- <-].
    apply migrateFile_returned in Hone as (d & Him & Hm & Hf & Hs & Hi).
    apply IH in Hrest as (news & Him2 & Hall & Hnames & Hsrc).
    exists (d :: news). split_and!.
    + by rewrite Him2, Him, <-app_assoc.
    + by constructor.
    + by rewrite fmap_cons, Hf, Hnames.
    + by constructor.
Qed.
Lemma filter_negb_Permutation {A} (q : A → bool) (l : list A) :
  List.filter q l ++ List.filter (λ x, negb (q x)) l ≡ₚ l.
Proof.
  induction l as [|x l IH]; simpl; [done|].
  destruct (q x); simpl.
  - by rewrite IH.
  - by rewrite <-Permutation_middle, IH.
Qed.

(** Each loop of step 5 makes a prefix of its updates, and stops short
    only on an [updateOne] that rejects. *)
Lemma update_players_run n us docs :
  ∃ k, (MigrateMain.update_players updateOne_ok n us docs).2
       = foldl (λ docs u, update_first_player u.1 u.2 docs) docs (take k us)
       ∧ ((MigrateMain.update_players updateOne_ok n us docs).1 = false →
          ∃ m, updateOne_ok m = false).
Proof.
  revert n docs. induction us as [|u us IH]; intros n docs; simpl.
  - by exists 0%nat.
  - destruct (updateOne_ok n) eqn:Hn.
    + destruct (IH (S n) (update_first_player u.1 u.2 docs))
        as (k & Hk & Hf).
      by exists (S k).
    + exists 0%nat. split; [done|]. eauto.
Qed.

Lemma update_characters_run n us docs :
  ∃ k, (MigrateMain.update_characters updateOne_ok n us docs).2
       = foldl (λ docs u, update_first_character u.1 u.2 docs) docs
           (take k us)
       ∧ ((MigrateMain.update_characters updateOne_ok n us docs).1 = false →
          ∃ m, updateOne_ok m = false).
Proof.
  revert n docs. induction us as [|u us IH]; intros n docs; simpl.
  - by exists 0%nat.
  - destruct (updateOne_ok n) eqn:Hn.
    + destruct (IH (S n) (update_first_character u.1 u.2 docs))
        as (k & Hk & Hf).
      by exists (S k).
    + exists 0%nat. split; [done|]. eauto.
Qed.

(** The runs of [main]: those that end before step 5, and those that
    reach it. *)
Lemma main_cases args db w :
  let run := MigrateMain.main mime_lookup render_error readdirSync oracles
               connect_ok find_ok updateOne_ok close_ok args db w in
  (exit_code run.1.1 = 1 ∧ run.1.2 = db)
  ∨ ((exit_code run.1.1 = 0
      ∨ exit_code run.1.1 = 1
        ∧ ((∃ m, updateOne_ok m = false) ∨ close_ok = false))
     ∧ ∃ uri dir appName rest w1 w2 referenced orphans k1 k2,
         args = uri :: dir :: appName :: rest
         ∧ images w1 = images w
         ∧ MigrateMain.migrate_referenced mime_lookup oracles db dir
             (app_dir appName) appName 0
             (MigrateMain.referencedOnDisk readdirSync db) w1
           = (Returned referenced, w2)
         ∧ MigrateMain.migrate_orphans mime_lookup oracles dir
             (app_dir appName) appName
             (length (MigrateMain.referencedOnDisk readdirSync db))
             (MigrateMain.orphanFiles readdirSync db) w2
           = (Returned orphans, run.2)
         ∧ playerCollection run.1.2
           = foldl (λ docs u, update_first_player u.1 u.2 docs)
               (playerCollection db)
               (take k1 (MigrateMain.playerUpdates referenced))
         ∧ characterCollection run.1.2
           = foldl (λ docs u, update_first_character u.1 u.2 docs)
               (characterCollection db)
               (take k2 (MigrateMain.characterUpdates referenced))).
Proof.
  unfold MigrateMain.main.
  destruct args as [|uri [|dir [|appName rest]]]; [by left..|].
  fold (ImageService.getUploadDir). fold (app_dir appName).
  destruct (existsSync dir (disk w)); cbn [negb]; [|by left].
  set (w1 := if negb (existsSync (app_dir appName) (disk w))
             then (mkdirSync (app_dir appName) w).2 else w).
  assert (Him : images w1 = images w).
  { unfold w1. by destruct (existsSync (app_dir appName) (disk w)). }
  destruct connect_ok; cbn [negb]; [|by left].
  destruct find_ok; cbn [negb]; [|by left].
  case_bool_decide; cbn [negb]; [|by left].
  unfold_monad.
  destruct (MigrateMain.migrate_referenced _ _ _ _ _ _ _ _ w1)
    as [[e|referenced] w2] eqn:Href; [by left|].
  destruct (MigrateMain.migrate_orphans _ _ _ _ _ _ _ w2)
    as [[e|orphans] w3] eqn:Horph; [by left|].
  destruct (update_players_run 0 (MigrateMain.playerUpdates referenced)
              (playerCollection db)) as (k1 & Hk1 & Hf1).
  destruct (update_characters_run
              (length (MigrateMain.playerUpdates referenced))
              (MigrateMain.characterUpdates referenced)
              (characterCollection db)) as (k2 & Hk2 & Hf2).
  right.
  destruct (MigrateMain.update_players _ _ _ _) as [ok1 players'].
  destruct (MigrateMain.update_characters _ _ _ _) as [ok2 characters'].
  simpl in Hk1, Hf1, Hk2, Hf2.
  destruct ok1; cbn [negb fst snd]; last first.
  { split; [right; split; [done|]; left; auto|].
    exists uri, dir, appName, rest, w1, w2, referenced, orphans, k1, 0%nat.
    by split_and!. }
  destruct ok2; cbn [negb fst snd]; last first.
  { split; [right; split; [done|]; left; auto|].
    exists uri, dir, appName, rest, w1, w2, referenced, orphans, k1, k2.
    by split_and!. }
  destruct close_ok; cbn [negb].
  - split; [by left|].
    exists uri, dir, appName, rest, w1, w2, referenced, orphans, k1, k2.
    by split_and!.
  - split; [right; split; [done|]; by right|].
    exists uri, dir, appName, rest, w1, w2, referenced, orphans, k1, k2.
    by split_and!.
Qed.

(** X24. The references are rewritten only after every file is
    migrated. A run ends with code 0 or 1. Whenever it leaves the
    Primordia database changed, whatever its exit code, every image
    file of the scanned directory has its record. A run that ends with
    1 may have rewritten documents, but only when an [updateOne] of
    step 5 or the closing of the connections was rejected: if neither
    is, a run that ends with 1 (usage, a missing source directory, a
    failed connection or query, a source that is no directory, a file
    that could not be copied, a record that could not be saved) has
    rewritten no player and no character. *)
Theorem migration_rewrites_after_files (args : list string)
    (db db' : Primordia) (w w' : World) (e : ScriptExit) :
  MigrateMain.main mime_lookup render_error readdirSync oracles connect_ok
    find_ok updateOne_ok close_ok args db w
  = (e, db', w') →
  (exit_code e = 0 ∨ exit_code e = 1)
  ∧ (db' ≠ db →
     ∃ news,
       images w' = images w ++ news
       ∧ OriginalFileName <$> news
         = MigrateMain.referencedOnDisk readdirSync db
           ++ MigrateMain.orphanFiles readdirSync db)
  ∧ ((∀ n, updateOne_ok n = true) → close_ok = true →
     exit_code e = 1 → db' = db).
Proof.
  intros Hrun.
  destruct (main_cases args db w) as [[Hone Hdb]|[Hcode Hok]];
    rewrite Hrun in *; simpl in *.
  { split_and!; [by right | done | done]. }
  split_and!.
  - destruct Hcode as [?|[? _]]; auto.
  - intros _.
    destruct Hok as (uri & dir & appName & rest & w1 & w2 & referenced
                     & orphans & k1 & k2 & _ & Him & Href & Horph & _).
    apply migrate_referenced_returned in Href
      as (news1 & Him1 & Hall1 & Hnames1 & _).
    apply migrate_orphans_returned in Horph
      as (news2 & Him2 & Hall2 & Hnames2 & _).
    assert (Hnames : ∀ rs ds, Forall2 (migrated appName) rs ds →
              OriginalFileName <$> ds = originalFilename <$> rs).
    { induction 1 as [|r d rs ds (_ & Hn & _) _ IH]; [done|].
      by rewrite !fmap_cons, Hn, IH. }
    exists (news1 ++ news2). split.
    + by rewrite Him2, Him1, Him, <-app_assoc.
    + by rewrite fmap_app, (Hnames _ _ Hall1), (Hnames _ _ Hall2),
        Hnames1, Hnames2.
  - intros Hall Hclose Hexit.
    destruct Hcode as [?|[_ [[m Hm]|?]]]; [congruence| |congruence].
    rewrite Hall in Hm. discriminate.
Qed.

(** X25. A migration that ends with code 0 has appended one record per
    image file of the scanned directory, the referenced files first and
    the orphans after, each in directory order: the original file names
    of the new records are a permutation of the scanned image files,
    and every new record is active, belongs to the application named
    on the command line and has [migration] as uploader. Earlier
    records are kept. *)
Theorem migration_migrates_each_file_once (args : list string)
    (db db' : Primordia) (w w' : World) (e : ScriptExit) :
  MigrateMain.main mime_lookup render_error readdirSync oracles connect_ok
    find_ok updateOne_ok close_ok args db w
  = (e, db', w') →
  exit_code e = 0 →
  ∃ appName news,
    args !! 2%nat = Some appName
    ∧ images w' = images w ++ news
    ∧ OriginalFileName <$> news
      = MigrateMain.referencedOnDisk readdirSync db
        ++ MigrateMain.orphanFiles readdirSync db
    ∧ OriginalFileName <$> news
      ≡ₚ List.filter Migrate.is_image_file readdirSync
    ∧ Forall (λ d, AppID d = appName
                   ∧ Status d = ACTIVE
                   ∧ UploadedBy d = "migration"%string) news.
Proof.
  intros Hrun Hcode.
  destruct (main_cases args db w) as [[Hone _]|[_ Hok]];
    rewrite Hrun in *; simpl in *; [congruence|].
  destruct Hok as (uri & dir & appName & rest & w1 & w2 & referenced
                   & orphans & k1 & k2 & -> & Him & Href & Horph & _).
  apply migrate_referenced_returned in Href
    as (news1 & Him1 & Hall1 & Hnames1 & _).
  apply migrate_orphans_returned in Horph
    as (news2 & Him2 & Hall2 & Hnames2 & _).
  assert (Hnames : ∀ rs ds, Forall2 (migrated appName) rs ds →
            OriginalFileName <$> ds = originalFilename <$> rs).
  { induction 1 as [|r d rs ds (_ & Hn & _) _ IH]; [done|].
    by rewrite !fmap_cons, Hn, IH. }
  assert (Hprops : ∀ rs ds, Forall2 (migrated appName) rs ds →
            Forall (λ d, AppID d = appName ∧ Status d = ACTIVE
                         ∧ UploadedBy d = "migration"%string) ds).
  { induction 1 as [|r d rs ds (_ & _ & ? & _ & ? & ?) _ IH];
      constructor; done. }
  exists appName, (news1 ++ news2). split_and!.
  - done.
  - by rewrite Him2, Him1, Him, <-app_assoc.
  - by rewrite fmap_app, (Hnames _ _ Hall1), (Hnames _ _ Hall2),
      Hnames1, Hnames2.
  - rewrite fmap_app, (Hnames _ _ Hall1), (Hnames _ _ Hall2),
      Hnames1, Hnames2.
    apply filter_negb_Permutation.
  - apply Forall_app. split; eauto.
Qed.
Lemma update_first_player_lookup userID url docs i p' :
  update_first_player userID url docs !! i = Some p' →
  ∃ p, docs !! i = Some p
       ∧ UserID p' = UserID p
       ∧ (p' = p ∨ UserID p = userID ∧ AvatarURL p' = Some url).
Proof.
  revert i. induction docs as [|d docs IH]; intros i; simpl; [done|].
  case_bool_decide as Hd.
  - destruct i; simpl; [|by eauto]. intros [= <-]. eauto 10.
  - destruct i; simpl; [by eauto|]. apply IH.
Qed.

Lemma update_first_character_lookup characterID url docs i c' :
  update_first_character characterID url docs !! i = Some c' →
  ∃ c, docs !! i = Some c
       ∧ CharacterID c' = CharacterID c
       ∧ (c' = c ∨ CharacterID c = characterID ∧ Avatar c' = Some url).
Proof.
  revert i. induction docs as [|d docs IH]; intros i; simpl; [done|].
  case_bool_decide as Hd.
  - destruct i; simpl; [|by eauto]. intros [= <-]. eauto 10.
  - destruct i; simpl; [by eauto|]. apply IH.
Qed.

Lemma foldl_update_first_player_lookup us docs i p' :
  foldl (λ docs u, update_first_player u.1 u.2 docs) docs us !! i = Some p' →
  ∃ p, docs !! i = Some p
       ∧ UserID p' = UserID p
       ∧ (p' = p ∨ ∃ url, (UserID p, url) ∈ us ∧ AvatarURL p' = Some url).
Proof.
  revert docs. induction us as [|[uid url] us IH]; intros docs; simpl.
  - eauto.
  - intros (p1 & Hp1 & Hid1 & Hcase)%IH.
    apply update_first_player_lookup in Hp1 as (p & Hp & Hid & Hcase1).
    exists p. split_and!; [done | congruence |].
    destruct Hcase as [->|(u & Hin & Hu)].
    + destruct Hcase1 as [->|[<- Hu]]; [by left|].
      right. exists url. split; [left|done].
    + right. exists u. split; [|done]. right. by rewrite <-Hid.
Qed.

Lemma foldl_update_first_character_lookup us docs i c' :
  foldl (λ docs u, update_first_character u.1 u.2 docs) docs us !! i
  = Some c' →
  ∃ c, docs !! i = Some c
       ∧ CharacterID c' = CharacterID c
       ∧ (c' = c
          ∨ ∃ url, (CharacterID c, url) ∈ us ∧ Avatar c' = Some url).
Proof.
  revert docs. induction us as [|[uid url] us IH]; intros docs; simpl.
  - eauto.
  - intros (c1 & Hc1 & Hid1 & Hcase)%IH.
    apply update_first_character_lookup in Hc1 as (c & Hc & Hid & Hcase1).
    exists c. split_and!; [done | congruence |].
    destruct Hcase as [->|(u & Hin & Hu)].
    + destruct Hcase1 as [->|[<- Hu]]; [by left|].
      right. exists url. split; [left|done].
    + right. exists u. split; [|done]. right. by rewrite <-Hid.
Qed.

(** A record stands behind every update of a reference. *)
Lemma update_has_record appName results news id url :
  Forall2 (migrated appName) results news →
  Forall (λ r, ∃ id0, sourceID r = Some id0) results →
  ((id, url) ∈ MigrateMain.playerUpdates results →
   ∃ d, d ∈ news ∧ ImageID d = url
        ∧ Tags d = ["player-avatar"; "player:" +:+ pretty id]%string)
  ∧ ((id, url) ∈ MigrateMain.characterUpdates results →
     (∀ r, r ∈ results → source r ≠ orphan) →
     ∃ d, d ∈ news ∧ ImageID d = url
          ∧ Tags d = ["character-avatar"; "character:" +:+ pretty id]%string).
Proof.
  intros Hall Hids.
  unfold MigrateMain.playerUpdates, MigrateMain.characterUpdates.
  split.
  - intros (r & Hr & Hu)%list_elem_of_omap.
    destruct (source r) eqn:Hs, (sourceID r) eqn:Hi; try done.
    injection Hu as <- <-.
    apply list_elem_of_lookup in Hr as [k Hk].
    destruct (Forall2_lookup_l _ _ _ _ _ Hall Hk)
      as (d & Hd & Hid & _ & _ & Htags & _).
    exists d. split_and!; [by eapply list_elem_of_lookup_2 | done |].
    by rewrite Htags, Hs, Hi.
  - intros (r & Hr & Hu)%list_elem_of_omap Hno.
    destruct (source r) eqn:Hs, (sourceID r) eqn:Hi; try done.
    + injection Hu as <- <-.
      apply list_elem_of_lookup in Hr as [k Hk].
      destruct (Forall2_lookup_l _ _ _ _ _ Hall Hk)
        as (d & Hd & Hid & _ & _ & Htags & _).
      exists d. split_and!; [by eapply list_elem_of_lookup_2 | done |].
      by rewrite Htags, Hs, Hi.
    + by destruct (Hno r Hr).
Qed.

Lemma map_set_Forall (P : string * (Source * Z) → Prop) key value m :
  (∀ k, P (k, value)) → Forall P m → Forall P (map_set key value m).
Proof.
  intros Hnew. induction 1 as [|[k v] m Hk Hm IH]; simpl.
  - by constructor.
  - case_bool_decide; by constructor.
Qed.

(** No entry of the map of references is an orphan's. *)
Lemma referencedFiles_no_orphan db :
  Forall (λ e, e.2.1 ≠ orphan) (MigrateMain.referencedFiles db).
Proof.
  unfold MigrateMain.referencedFiles.
  assert (Hfold : ∀ {A} (f : list (string * (Source * Z)) → A → _) l m,
            (∀ m a, Forall (λ e, e.2.1 ≠ orphan) m →
                    Forall (λ e, e.2.1 ≠ orphan) (f m a)) →
            Forall (λ e, e.2.1 ≠ orphan) m →
            Forall (λ e, e.2.1 ≠ orphan) (foldl f m l)).
  { intros A f l. induction l as [|a l IH]; intros m Hf Hm; simpl; [done|].
    apply IH; [done|]. by apply Hf. }
  apply Hfold; [|apply Hfold; [|constructor]].
  - intros m c Hm. destruct (truthy_string (Avatar c)); [|done].
    by apply map_set_Forall.
  - intros m p Hm. destruct (truthy_string (AvatarURL p)); [|done].
    by apply map_set_Forall.
Qed.

(** X26. After a migration that ends with code 0, the Primordia
    collections have the documents they had, in the same places and
    with the same identifiers, and each avatar reference is either
    untouched or is the identifier of a record created by this run
    whose tags name that very player, respectively character. *)
Theorem migration_rewrites_references (args : list string)
    (db db' : Primordia) (w w' : World) (e : ScriptExit) :
  MigrateMain.main mime_lookup render_error readdirSync oracles connect_ok
    find_ok updateOne_ok close_ok args db w
  = (e, db', w') →
  exit_code e = 0 →
  ∃ news,
    images w' = images w ++ news
    ∧ (∀ i p',
         playerCollection db' !! i = Some p' →
         ∃ p, playerCollection db !! i = Some p
              ∧ UserID p' = UserID p
              ∧ (p' = p
                 ∨ ∃ d, d ∈ news
                        ∧ AvatarURL p' = Some (ImageID d)
                        ∧ Tags d = ["player-avatar";
                                    "player:" +:+ pretty (UserID p)]%string))
    ∧ (∀ i c',
         characterCollection db' !! i = Some c' →
         ∃ c, characterCollection db !! i = Some c
              ∧ CharacterID c' = CharacterID c
              ∧ (c' = c
                 ∨ ∃ d, d ∈ news
                        ∧ Avatar c' = Some (ImageID d)
                        ∧ Tags d
                          = ["character-avatar";
                             "character:" +:+ pretty (CharacterID c)
                            ]%string)).
Proof.
  intros Hrun Hcode.
  destruct (main_cases args db w) as [[Hone _]|[_ Hok]];
    rewrite Hrun in *; simpl in *; [congruence|].
  destruct Hok as (uri & dir & appName & rest & w1 & w2 & referenced
                   & orphans & k1 & k2 & -> & Him & Href & Horph & Hplayers
                   & Hchars).
  apply migrate_referenced_returned in Href
    as (news1 & Him1 & Hall1 & _ & Hrefs).
  apply migrate_orphans_returned in Horph as (news2 & Him2 & _).
  assert (Hids : Forall (λ r, ∃ id0, sourceID r = Some id0) referenced).
  { eapply Forall_impl; [exact Hrefs|]. intros r (id & ? & _). eauto. }
  assert (Hsrc : ∀ r, r ∈ referenced → source r ≠ orphan).
  { intros r Hr Hs.
    apply (proj1 (Forall_forall _ _) Hrefs) in Hr as (id & _ & Hget).
    rewrite Hs in Hget. unfold map_get in Hget.
    destruct (List.find _ _) as [[k [src id']]|] eqn:Hf; [|done].
    simpl in Hget. injection Hget as -> ->.
    apply List.find_some in Hf as [Hin _].
    apply list_elem_of_In in Hin.
    by apply (proj1 (Forall_forall _ _) (referencedFiles_no_orphan db)) in Hin. }
  exists (news1 ++ news2). split_and!.
  - by rewrite Him2, Him1, Him, <-app_assoc.
  - intros i p'. rewrite Hplayers.
    intros (p & Hp & Hid & Hcase)%foldl_update_first_player_lookup.
    exists p. split_and!; [done..|].
    destruct Hcase as [?|(url & Hin & Hurl)]; [by left|right].
    apply subseteq_take in Hin.
    destruct (update_has_record appName referenced news1 (UserID p) url
                Hall1 Hids) as [Hrec _].
    destruct (Hrec Hin) as (d & Hd & <- & Htags).
    exists d. split_and!; [apply elem_of_app; by left|done..].
  - intros i c'. rewrite Hchars.
    intros (c & Hc & Hid & Hcase)%foldl_update_first_character_lookup.
    exists c. split_and!; [done..|].
    destruct Hcase as [?|(url & Hin & Hurl)]; [by left|right].
    apply subseteq_take in Hin.
    destruct (update_has_record appName referenced news1 (CharacterID c) url
                Hall1 Hids) as [_ Hrec].
    destruct (Hrec Hin Hsrc) as (d & Hd & <- & Htags).
    exists d. split_and!; [apply elem_of_app; by left|done..].
Qed.
End MigrateMainFacts.

Lemma sample_migration_run :
  SampleMigration.run
  = (SampleMigration.run.1.1, SampleMigration.run.1.2, SampleMigration.run.2).
Proof. by destruct SampleMigration.run as [[e db'] w']. Defined.

Lemma sample_unclosed_run :
  SampleMigration.unclosed_run
  = (SampleMigration.unclosed_run.1.1, SampleMigration.unclosed_run.1.2,
     SampleMigration.unclosed_run.2).
Proof. by destruct SampleMigration.unclosed_run as [[e db'] w']. Defined.

(** A run that ends with 1 after it rewrote a reference: every update
    was made and the connections failed to close. *)
Lemma migration_rewrites_after_files_witness :
  exit_code SampleMigration.unclosed_run.1.1 = 1
  ∧ SampleMigration.unclosed_run.1.2 ≠ SampleMigration.db
  ∧ ∃ news,
      images SampleMigration.unclosed_run.2 = Sample.logo_image :: news
      ∧ OriginalFileName <$> news = ["hero.png"; "Generic_5.PNG"]%string.
Proof.
  assert (Hdb : SampleMigration.unclosed_run.1.2 ≠ SampleMigration.db)
    by (vm_compute; discriminate).
  split; [vm_compute; reflexivity|]. split; [exact Hdb|].
  destruct (@migration_rewrites_after_files Sample.runtime (λ _, None)
              (λ _, "Error"%string) SampleMigration.listing
              SampleMigration.oracles true true (λ _, true) false
              SampleMigration.args SampleMigration.db
              _ SampleMigration.world _ _ sample_unclosed_run)
    as (_ & Hfiles & _).
  destruct (Hfiles Hdb) as (news & Himages & Hnames).
  exists news. split; [exact Himages | exact Hnames].
Defined.

Lemma migration_migrates_each_file_once_witness :
  exit_code SampleMigration.run.1.1 = 0
  ∧ ∃ news,
      images SampleMigration.run.2 = Sample.logo_image :: news
      ∧ OriginalFileName <$> news = ["hero.png"; "Generic_5.PNG"]%string
      ∧ Forall (λ d, AppID d = "shop"%string ∧ Status d = ACTIVE) news.
Proof.
  assert (Hcode : exit_code SampleMigration.run.1.1 = 0)
    by (vm_compute; reflexivity).
  split; [exact Hcode|].
  destruct (@migration_migrates_each_file_once Sample.runtime (λ _, None)
              (λ _, "Error"%string) SampleMigration.listing
              SampleMigration.oracles true true (λ _, true) true
              SampleMigration.args SampleMigration.db
              _ SampleMigration.world _ _ sample_migration_run Hcode)
    as (appName & news & Happ & Himages & Hnames & _ & Hall).
  injection Happ as <-. exists news. split_and!.
  - exact Himages.
  - exact Hnames.
  - eapply Forall_impl; [exact Hall|]. by intros d (? & ? & _).
Defined.

Lemma migration_rewrites_references_witness :
  exit_code SampleMigration.run.1.1 = 0
  ∧ ∃ d, d ∈ images SampleMigration.run.2
         ∧ playerCollection SampleMigration.run.1.2 !! 0%nat
           = Some {| UserID := 7; AvatarURL := Some (ImageID d) |}
         ∧ Tags d = ["player-avatar"; "player:7"]%string.
Proof.
  assert (Hcode : exit_code SampleMigration.run.1.1 = 0)
    by (vm_compute; reflexivity).
  split; [exact Hcode|].
  destruct (@migration_rewrites_references Sample.runtime (λ _, None)
              (λ _, "Error"%string) SampleMigration.listing
              SampleMigration.oracles true true (λ _, true) true
              SampleMigration.args SampleMigration.db
              _ SampleMigration.world _ _ sample_migration_run Hcode)
    as (news & Himages & Hplayers & _).
  destruct (Hplayers 0%nat {| UserID := 7; AvatarURL := Some "a"%string |})
    as (p & Hp & _ & [Hsame|(d & Hd & Hurl & Htags)]).
  - vm_compute. reflexivity.
  - injection Hp as <-. discriminate.
  - injection Hp as <-. injection Hurl as Hurl. exists d. split_and!.
    + rewrite Himages. apply elem_of_app. by right.
    + rewrite <-Hurl. vm_compute. reflexivity.
    + exact Htags.
Defined.
